(** * CustomFetch: a shallow embedding of the request pipeline

    The development follows the engine source of the CustomFetch package: the
    URL builder ([serializeParams], [buildUrl]), the process-wide response
    cache ([responseCache], [clearSpecificCache], ...), the request
    execution engine ([CustomFetch]) with its retry loop, and the client
    factory ([createClient]).

    Conventions of the embedding:
    - JavaScript strings are [string] (sequences of bytes, the UTF-8 form of
      well-formed text); numbers that the engine computes with (status codes,
      retry counts, delays, clock readings) are integers in [Z], and so are
      the numbers of a parameter map.
    - Header names and values are those that the [Headers] class accepts and
      keeps as they are; with others the platform raises a [TypeError] while
      the request is assembled, before anything that the model follows.
    - The platform (transport, clock, JSON codec, percent-encoding codec,
      base64, random source) is a record of parameters, [Env].
    - The pipeline is written in a state-and-exception monad over [World],
      the observable process state: the response cache, the clock and the
      trace of effects (transport dispatches, sleeps, callback invocations).
    - Time passes only while a dispatch is awaited or a [delay] elapses; the
      timer that aborts a dispatch after [timeout] milliseconds is part of
      the model of the dispatch.
    - Caller-supplied callbacks are functions that either return a value or
      throw; they have no access to the cache.
    - Console logging is observational only and is left out. *)

From Stdlib Require Import ZArith String Ascii List Lia Bool.
From Stdlib Require Import DecimalString DecimalPos DecimalZ.
From stdpp Require Import gmap strings.

Import ListNotations.
Local Open Scope string_scope.
Local Open Scope Z_scope.
Set Warnings "-register-all".

(** ** JavaScript values and completions *)

(** Runtime values that travel through the pipeline as parsed bodies,
    payloads and error objects. *)
Inductive JsValue : Type :=
| VUndefined
| VNull
| VBool (b : bool)
| VNum (n : Z)
| VStr (s : string)
| VArr (items : list JsValue)
| VObj (fields : list (string * JsValue)).

(** A thrown value, as far as the [catch] block of the engine inspects it:
    [error instanceof Error], [error instanceof TypeError], [error.name] and
    [error.message]. *)
Record Thrown : Type := mkThrown {
  thrown_is_Error : bool;
  thrown_is_TypeError : bool;
  thrown_name : string;
  thrown_message : string
}.

(** The outcome of evaluating an expression or awaiting a promise. *)
Inductive Completion (A : Type) : Type :=
| Normal (a : A)
| Throw (e : Thrown).
Arguments Normal {A} a.
Arguments Throw {A} e.

(** ** String helpers *)

Module Str.

(** [s.startsWith(p)] *)
Definition startsWith (s p : string) : bool := String.prefix p s.

(** [s.includes(p)] *)
Fixpoint includes (s p : string) : bool :=
  String.prefix p s ||
  match s with
  | EmptyString => false
  | String _ rest => includes rest p
  end.

(** [parts.join(sep)] *)
Fixpoint join (sep : string) (parts : list string) : string :=
  match parts with
  | [] => ""
  | [p] => p
  | p :: rest => p ++ sep ++ join sep rest
  end.

Definition lower_ascii (c : ascii) : ascii :=
  let n := nat_of_ascii c in
  if (Nat.leb 65 n && Nat.leb n 90)%bool then ascii_of_nat (n + 32) else c.

Fixpoint toLowerCase (s : string) : string :=
  match s with
  | EmptyString => EmptyString
  | String c rest => String (lower_ascii c) (toLowerCase rest)
  end.

(** [String(n)] for an integer. *)
Definition of_Z (n : Z) : string := NilZero.string_of_int (Z.to_int n).

Definition of_nat (n : nat) : string := NilZero.string_of_uint (Nat.to_uint n).

Definition of_bool (b : bool) : string := if b then "true" else "false".

Definition is_empty (s : string) : bool :=
  match s with EmptyString => true | _ => false end.

End Str.

(** ** URL builder *)

(** A scalar query value: [string | number | boolean]. *)
Inductive Scalar : Type :=
| SStr (s : string)
| SNum (n : Z)
| SBool (b : bool).

(** A value of [QueryParams]:
    [string | number | boolean | null | undefined | string[] | number[]]. *)
Inductive ParamValue : Type :=
| PNull
| PUndefined
| PScalar (x : Scalar)
| PArray (items : list Scalar).

(** [Object.entries(params)]: the own properties in enumeration order. *)
Definition QueryParams : Type := list (string * ParamValue).

(** [String(value)]. The numbers of the model are the integers, printed in
    full; [String] does so below [10^21] in magnitude ([printed_in_full]). *)
Definition String_of (x : Scalar) : string :=
  match x with
  | SStr s => s
  | SNum n => Str.of_Z n
  | SBool b => Str.of_bool b
  end.

Section UrlBuilder.

(** The percent-encoding codec of the platform. *)
Variable encodeURIComponent : string -> string.

Definition encode_pair (key : string) (x : Scalar) : string :=
  encodeURIComponent key ++ "=" ++ encodeURIComponent (String_of x).

(** The parts pushed for one entry of the map. *)
Definition entry_parts (entry : string * ParamValue) : list string :=
  let '(key, value) := entry in
  match value with
  | PNull | PUndefined => []
  | PArray items => map (encode_pair key) items
  | PScalar x => [encode_pair key x]
  end.

Definition serializeParams (params : QueryParams) : string :=
  Str.join "&" (flat_map entry_parts params).

Definition buildUrl (baseUrl : string) (params : option QueryParams) : string :=
  match params with
  | None => baseUrl
  | Some ps =>
      if (length ps =? 0)%nat then baseUrl
      else
        let queryString := serializeParams ps in
        let separator := if Str.includes baseUrl "?" then "&" else "?" in
        baseUrl ++ separator ++ queryString
  end.

End UrlBuilder.

(** ** Data model of the engine *)

Inductive HttpMethod : Type := GET | POST | PUT | PATCH | DELETE | HEAD | OPTIONS.

Definition method_text (m : HttpMethod) : string :=
  match m with
  | GET => "GET" | POST => "POST" | PUT => "PUT" | PATCH => "PATCH"
  | DELETE => "DELETE" | HEAD => "HEAD" | OPTIONS => "OPTIONS"
  end.

(** [BodyInit]: a string, or some other payload (Blob, FormData, buffer...)
    identified by an opaque handle. *)
Inductive BodyInit : Type :=
| BodyText (s : string)
| BodyOther (handle : N).

(** The [Headers] class: names are case-insensitive and kept in lower case;
    the values given for one name are kept as the one combined value that
    [get] returns. The operations are modelled on names and values that the
    class accepts and keeps as they are (the class raises a [TypeError] for
    others, and strips the white space around a value); [headers_ok] and
    [assembly_ok] below say which these are. *)
Module Headers.

Definition t : Type := list (string * string).

Fixpoint get (h : t) (name : string) : option string :=
  match h with
  | [] => None
  | (k, v) :: rest =>
      if String.eqb k (Str.toLowerCase name) then Some v else get rest name
  end.

Definition has (h : t) (name : string) : bool :=
  match get h name with Some _ => true | None => false end.

Fixpoint set (h : t) (name value : string) : t :=
  match h with
  | [] => [(Str.toLowerCase name, value)]
  | (k, v) :: rest =>
      if String.eqb k (Str.toLowerCase name) then (k, value) :: rest
      else (k, v) :: set rest name value
  end.

Fixpoint append (h : t) (name value : string) : t :=
  match h with
  | [] => [(Str.toLowerCase name, value)]
  | (k, v) :: rest =>
      if String.eqb k (Str.toLowerCase name) then (k, v ++ ", " ++ value) :: rest
      else (k, v) :: append rest name value
  end.

(** [new Headers(init)] *)
Definition make (init : option (list (string * string))) : t :=
  match init with
  | None => []
  | Some pairs => fold_left (fun h kv => append h (fst kv) (snd kv)) pairs []
  end.

End Headers.

Record RequestContext : Type := mkRequestContext {
  ctx_url : string;
  ctx_method : HttpMethod;
  ctx_headers : Headers.t;
  ctx_body : option BodyInit;
  ctx_requestId : string
}.

(** A header value of a result: [string | string[]]. *)
Inductive HeaderValue : Type :=
| HOne (v : string)
| HMany (vs : list string).

Record SuccessResponse : Type := mkSuccessResponse {
  s_response : JsValue;
  s_code : Z;
  s_createdAt : Z;
  s_headers : list (string * HeaderValue);
  s_requestId : string;
  s_durationMs : Z
}.

Record ErrorResponse : Type := mkErrorResponse {
  e_errors : JsValue;
  e_code : option Z;
  e_createdAt : Z;
  e_requestId : string;
  e_durationMs : Z;
  e_stack : option string
}.

(** [CustomFetchResult<T, E>], discriminated by [isSuccess]. *)
Inductive CustomFetchResult : Type :=
| Success (s : SuccessResponse)
| Failure (e : ErrorResponse).

Definition isSuccess (r : CustomFetchResult) : bool :=
  match r with Success _ => true | Failure _ => false end.

Record ResponseContext : Type := mkResponseContext {
  rc_request : RequestContext;
  rc_result : CustomFetchResult;
  rc_durationMs : Z
}.

Record CacheItem : Type := mkCacheItem {
  ci_data : CustomFetchResult;
  ci_timestamp : Z
}.

(** An [AbortController] supplied by the caller; only whether its signal is
    already aborted matters to a dispatch. *)
Record AbortController : Type := mkAbortController {
  signal_aborted : bool
}.

Record FetchOptions : Type := mkFetchOptions {
  opt_url : string;
  opt_method : option HttpMethod;
  opt_headers : option (list (string * string));
  opt_body : option BodyInit;
  opt_params : option QueryParams;
  opt_customToken : option string;
  opt_timeout : option Z;
  opt_retries : option Z;
  opt_retryDelay : option Z;
  opt_validateStatus : option (Z -> Completion bool);
  opt_responseGuard : option (JsValue -> Completion bool);
  opt_errorGuard : option (JsValue -> Completion bool);
  opt_errorTransformer : option (JsValue -> Z -> Completion JsValue);
  opt_responseTransformer : option (JsValue -> Completion JsValue);
  opt_cacheResponse : option bool;
  opt_cacheTime : option Z;
  opt_includeCookies : option bool;
  opt_debug : option bool;
  opt_abortController : option AbortController;
  opt_onRequest : option (RequestContext -> Completion RequestContext);
  opt_onResponse : option (ResponseContext -> Completion CustomFetchResult)
}.

(** ** The platform *)

(** The transport's [Response], as far as the engine reads it. [ok] is
    derived from the status, as the Fetch standard defines it. *)
Record Response : Type := mkResponse {
  r_status : Z;
  r_headers : Headers.t;
  r_getSetCookie : option (list string);
  r_body : Completion string
}.

Definition response_ok (r : Response) : bool :=
  (200 <=? r_status r) && (r_status r <=? 299).

(** What a dispatch is asked to send. *)
Record FetchInit : Type := mkFetchInit {
  fi_method : HttpMethod;
  fi_headers : Headers.t;
  fi_body : option BodyInit;
  fi_credentials : string
}.

(** How the transport answers a dispatch when nobody cancels it: after
    [latency] milliseconds it resolves with a response or rejects. *)
Inductive TransportReply : Type :=
| Responds (latency : Z) (r : Response)
| Rejects (latency : Z) (e : Thrown).

Record Env : Type := mkEnv {
  (** the network: the answer to the [n]-th dispatch of the process *)
  transport : nat -> string -> FetchInit -> TransportReply;
  (** [JSON.parse]; [None] stands for a thrown [SyntaxError] *)
  JSON_parse : string -> option JsValue;
  encodeURIComponent : string -> string;
  (** [Buffer.from(bytes).toString("base64")] *)
  base64 : string -> string;
  (** [n.toString(36)] *)
  toString36 : Z -> string;
  (** [Math.random().toString(36).substring(2, 8)] at the [n]-th draw *)
  random_suffix : nat -> string;
  (** [process.env.NODE_ENV === "development"] *)
  IS_DEV : bool;
  (** [new Error().stack] *)
  error_stack : string;
  (** the message of the [TypeError] raised by reading a property of [null] *)
  null_property_message : string
}.

(** ** Process state and the pipeline monad *)

(** The effects of a call that an observer (a test double) can see. *)
Inductive Event : Type :=
| EvOnRequest (ctx : RequestContext)
| EvDispatch (url : string) (init : FetchInit)
| EvDelay (ms : Z)
| EvValidateStatus (code : Z)
| EvErrorGuard (data : JsValue)
| EvErrorTransformer (data : JsValue) (code : Z)
| EvResponseGuard (raw : JsValue)
| EvResponseTransformer (raw : JsValue)
| EvOnResponse (rc : ResponseContext).

Record World : Type := mkWorld {
  (** the module-level [responseCache] *)
  responseCache : gmap string CacheItem;
  (** the clock, in milliseconds *)
  clock : Z;
  (** how many times [Math.random] was called *)
  random_draws : nat;
  (** the effects so far, oldest first *)
  trace : list Event
}.

Definition is_dispatch (ev : Event) : bool :=
  match ev with EvDispatch _ _ => true | _ => false end.

Definition is_onResponse (ev : Event) : bool :=
  match ev with EvOnResponse _ => true | _ => false end.

Definition is_responseTransformer (ev : Event) : bool :=
  match ev with EvResponseTransformer _ => true | _ => false end.

Definition is_onRequest (ev : Event) : bool :=
  match ev with EvOnRequest _ => true | _ => false end.

(** The dispatches recorded in a trace. *)
Definition dispatches (t : list Event) : nat := length (List.filter is_dispatch t).

(** The sleeps recorded in a trace, in order. *)
Fixpoint delays (t : list Event) : list Z :=
  match t with
  | [] => []
  | EvDelay ms :: rest => ms :: delays rest
  | _ :: rest => delays rest
  end.

Definition M (A : Type) : Type := World -> Completion A * World.

Definition ret {A} (a : A) : M A := fun w => (Normal a, w).

Definition throw {A} (e : Thrown) : M A := fun w => (Throw e, w).

Definition bind {A B} (m : M A) (k : A -> M B) : M B :=
  fun w =>
    match m w with
    | (Normal a, w') => k a w'
    | (Throw e, w') => (Throw e, w')
    end.

(** [try { m } catch (e) { handler e }] *)
Definition try_catch {A} (m : M A) (handler : Thrown -> M A) : M A :=
  fun w =>
    match m w with
    | (Normal a, w') => (Normal a, w')
    | (Throw e, w') => handler e w'
    end.

Definition lift {A} (c : Completion A) : M A := fun w => (c, w).

Notation "'do' x <- m ; k" := (bind m (fun x => k))
  (at level 10, x name, m at level 100, k at level 200).
Notation "'run' m ; k" := (bind m (fun _ => k))
  (at level 10, m at level 100, k at level 200).

Definition emit (ev : Event) : M unit :=
  fun w => (Normal tt,
            mkWorld (responseCache w) (clock w) (random_draws w) (trace w ++ [ev])).

Definition advance (ms : Z) : M unit :=
  fun w => (Normal tt,
            mkWorld (responseCache w) (clock w + ms) (random_draws w) (trace w)).

(** [Date.now()] and [performance.now()] read the same clock. *)
Definition Date_now : M Z := fun w => (Normal (clock w), w).
Definition performance_now : M Z := fun w => (Normal (clock w), w).

Definition cache_get (key : string) : M (option CacheItem) :=
  fun w => (Normal (responseCache w !! key), w).

Definition cache_set (key : string) (item : CacheItem) : M unit :=
  fun w => (Normal tt,
            mkWorld (<[key := item]> (responseCache w)) (clock w) (random_draws w) (trace w)).

Definition cache_delete (key : string) : M unit :=
  fun w => (Normal tt,
            mkWorld (delete key (responseCache w)) (clock w) (random_draws w) (trace w)).

(** Invoking a caller-supplied callback: the call is recorded, then its
    completion is the completion of the expression. *)
Definition call {A} (ev : Event) (c : Completion A) : M A :=
  run emit ev; lift c.

(** [delay(ms)]: a timer of [ms] milliseconds. *)
Definition delay (ms : Z) : M unit :=
  run emit (EvDelay ms); advance (Z.max 0 ms).

(** ** Cache management entry points *)

Definition clearFetchCache : M unit :=
  fun w => (Normal tt, mkWorld ∅ (clock w) (random_draws w) (trace w)).

(** [clearSpecificCache(url, method = "GET", body = null)] *)
Definition clearSpecificCache (url : string) (method : option HttpMethod)
    (body : option string) : M unit :=
  let method := default GET method in
  cache_delete (method_text method ++ ":" ++ url ++ ":" ++ default "" body).

(** [getCacheStats()]; the keys come in the enumeration order of the finite
    map, the insertion order of the JavaScript [Map] is not kept. *)
Definition getCacheStats : M (nat * list string) :=
  fun w => (Normal (size (responseCache w), (map_to_list (responseCache w)).*1), w).

(** ** Helpers of the engine *)

Definition BINARY_PREFIXES : list string :=
  [ "image/"; "audio/"; "video/"; "font/";
    "application/octet-stream"; "application/pdf"; "application/zip";
    "application/x-zip"; "application/x-rar"; "application/x-tar";
    "application/x-bzip"; "application/x-gzip"; "application/java-archive";
    "application/vnd.ms-"; "application/vnd.openxmlformats-" ].

Definition isBinaryContentType (contentType : string) : bool :=
  if Str.is_empty contentType then false
  else existsb (Str.startsWith contentType) BINARY_PREFIXES.

(** Plain objects as ordered property lists. *)
Module Obj.

Fixpoint get {A} (fields : list (string * A)) (key : string) : option A :=
  match fields with
  | [] => None
  | (k, v) :: rest => if String.eqb k key then Some v else get rest key
  end.

(** [obj[key] = value] *)
Fixpoint set {A} (fields : list (string * A)) (key : string) (value : A)
    : list (string * A) :=
  match fields with
  | [] => [(key, value)]
  | (k, v) :: rest =>
      if String.eqb k key then (k, value) :: rest
      else (k, v) :: set rest key value
  end.

Fixpoint indexed {A} (i : nat) (items : list A) : list (string * A) :=
  match items with
  | [] => []
  | x :: rest => (Str.of_nat i, x) :: indexed (S i) rest
  end.

(** The own enumerable properties copied by [{...v}]. *)
Definition spread (v : JsValue) : list (string * JsValue) :=
  match v with
  | VObj fields => fields
  | VArr items => indexed 0 items
  | _ => []
  end.

End Obj.

(** [typeof v === "object" && v !== null] *)
Definition is_object (v : JsValue) : bool :=
  match v with VObj _ | VArr _ => true | _ => false end.

(** [{ message }] *)
Definition message_object (message : JsValue) : JsValue :=
  VObj [("message", message)].

(** The [message] of an error payload, when it has one. *)
Definition error_message (v : JsValue) : option JsValue :=
  match v with VObj fields => Obj.get fields "message" | _ => None end.

Definition AbortError : Thrown :=
  mkThrown true false "AbortError" "This operation was aborted".

(** The classification of a caught value:
    [error instanceof Error && error.name === "AbortError"] and
    [error instanceof TypeError && error.message.includes("NetworkError")]. *)
Definition isAbortError (error : Thrown) : bool :=
  thrown_is_Error error && String.eqb (thrown_name error) "AbortError".

Definition isNetworkError (error : Thrown) : bool :=
  thrown_is_TypeError error && Str.includes (thrown_message error) "NetworkError".

Section Engine.

Variable env : Env.

Definition null_TypeError : Thrown :=
  mkThrown true true "TypeError" (null_property_message env).

(** [v.message] *)
Definition get_message (v : JsValue) : Completion JsValue :=
  match v with
  | VUndefined | VNull => Throw null_TypeError
  | VObj fields => Normal (default VUndefined (Obj.get fields "message"))
  | _ => Normal VUndefined
  end.

(** [typeof rawError === "string" ? { message: rawError }
     : { ...rawError, message: rawError.message ?? "Unknown error" }] *)
Definition errorData_of (rawError : JsValue) : Completion JsValue :=
  match rawError with
  | VStr s => Normal (message_object (VStr s))
  | _ =>
      match get_message rawError with
      | Throw e => Throw e
      | Normal m =>
          let message :=
            match m with
            | VUndefined | VNull => VStr "Unknown error"
            | _ => m
            end in
          Normal (VObj (Obj.set (Obj.spread rawError) "message" message))
      end
  end.

(** The identifier that [generateRequestId] produces in a world:
    [Date.now().toString(36)], a dash and the next random suffix. *)
Definition next_requestId (w : World) : string :=
  toString36 env (clock w) ++ "-" ++ random_suffix env (random_draws w).

Definition generateRequestId : M string :=
  fun w =>
    (Normal (next_requestId w),
     mkWorld (responseCache w) (clock w) (S (random_draws w)) (trace w)).

Definition createSuccessResponse (response : JsValue) (code : Z)
    (headers : list (string * HeaderValue)) (requestId : string)
    (durationMs : Z) : M SuccessResponse :=
  do createdAt <- Date_now;
  ret (mkSuccessResponse response code createdAt headers requestId durationMs).

Definition createErrorResponse (errors : JsValue) (code : option Z)
    (requestId : string) (durationMs : Z) : M ErrorResponse :=
  do createdAt <- Date_now;
  ret (mkErrorResponse errors code createdAt requestId durationMs
         (if IS_DEV env then Some (error_stack env) else None)).

Definition parse_or_text (text : string) : JsValue :=
  match JSON_parse env text with
  | Some v => v
  | None => VStr text
  end.

(** What [parseResponseBody] makes of the text it has read, given the
    declared content type ([contentType?.includes(s)] is false without one). *)
Definition parse_text (contentType : option string) (text : string) : JsValue :=
  let mentions (s : string) : bool :=
    match contentType with Some ct => Str.includes ct s | None => false end in
  if mentions "application/json" then parse_or_text text
  else if mentions "text/" || mentions "application/xml" then VStr text
  else parse_or_text text.

Definition parseResponseBody (response : Response) : M JsValue :=
  let contentType := Headers.get (r_headers response) "content-type" in
  do text <- lift (r_body response);
  ret (parse_text contentType text).

(** [await fetch(url, { ..., signal })] with the timer armed for [timeout]
    milliseconds: the dispatch is recorded, then it settles with the
    transport's answer or is aborted, whichever comes first. *)
Definition settle (aborted : bool) (timeout : Z) (reply : TransportReply)
    : Z * Completion Response :=
  if aborted then (0, Throw AbortError)
  else
    match reply with
    | Responds latency r =>
        if timeout <=? latency then (Z.max 0 timeout, Throw AbortError)
        else (latency, Normal r)
    | Rejects latency e =>
        if timeout <=? latency then (Z.max 0 timeout, Throw AbortError)
        else (latency, Throw e)
    end.

Definition fetch (externalController : option AbortController) (timeout : Z)
    (url : string) (init : FetchInit) : M Response :=
  fun w =>
    let reply := transport env (dispatches (trace w)) url init in
    let aborted :=
      match externalController with
      | Some c => signal_aborted c
      | None => false
      end in
    let '(elapsed, outcome) := settle aborted timeout reply in
    (outcome,
     mkWorld (responseCache w) (clock w + elapsed) (random_draws w)
       (trace w ++ [EvDispatch url init])).

(** The response headers collected into a plain object. *)
Definition collect_headers (response : Response) : list (string * HeaderValue) :=
  let headersObj :=
    fold_left (fun obj kv => Obj.set obj (fst kv) (HOne (snd kv)))
      (r_headers response) [] in
  match r_getSetCookie response with
  | Some setCookies =>
      if (0 <? length setCookies)%nat
      then Obj.set headersObj "set-cookie" (HMany setCookies)
      else headersObj
  | None => headersObj
  end.

(** ** The request execution engine *)

(** How one pass through the body of the [while] loop ends. *)
Inductive LoopStep : Type :=
| Return (result : CustomFetchResult)
| Continue (attempts : Z) (lastErrorMessage : JsValue).

Section Call.

Variable options : FetchOptions.

(** The destructured options with their defaults. *)
Definition method : HttpMethod := default GET (opt_method options).
Definition timeout : Z := default 30000 (opt_timeout options).
Definition retries : Z := default 0 (opt_retries options).
Definition retryDelay : Z := default 1000 (opt_retryDelay options).
Definition cacheResponse : bool := default false (opt_cacheResponse options).
Definition cacheTime : Z := default (5 * 60 * 1000) (opt_cacheTime options).
Definition includeCookies : bool := default false (opt_includeCookies options).

(** The header assembly that precedes the request interceptor. *)
Definition assemble_headers : Headers.t :=
  let headers := Headers.make (opt_headers options) in
  let headers :=
    match opt_customToken options with
    | Some token =>
        if Str.is_empty token then headers
        else Headers.set headers "Authorization" ("Bearer " ++ token)
    | None => headers
    end in
  match opt_body options with
  | Some (BodyText body) =>
      if negb (Str.is_empty body) && negb (Headers.has headers "Content-Type")
      then
        match JSON_parse env body with
        | Some _ => Headers.set headers "Content-Type" "application/json"
        | None => headers
        end
      else headers
  | _ => headers
  end.

(** The cache key of a request context; the template never yields the
    empty string, so a key is present exactly when caching is on. *)
Definition cacheKey_of (requestContext : RequestContext) : option string :=
  if cacheResponse then
    Some (method_text (ctx_method requestContext) ++ ":"
          ++ ctx_url requestContext ++ ":$"
          ++ match ctx_body requestContext with
             | Some (BodyText body) => body
             | _ => ""
             end)
  else None.

Variable requestId : string.
Variable startTime : Z.
Variable requestContext : RequestContext.
Variable cacheKey : option string.

Definition makeError (message : JsValue) (code : option Z) : M ErrorResponse :=
  do now <- performance_now;
  createErrorResponse (message_object message) code requestId (now - startTime).

Definition fetch_init : FetchInit :=
  mkFetchInit (ctx_method requestContext) (ctx_headers requestContext)
    (ctx_body requestContext)
    (if includeCookies then "include" else "same-origin").

(** The branch of a response whose status is not accepted. *)
Definition error_branch (attempts : Z) (response : Response) (code durationMs : Z)
    : M LoopStep :=
  do rawError <- parseResponseBody response;
  do errorData <- lift (errorData_of rawError);
  do rejected <-
    match opt_errorGuard options with
    | Some errorGuard =>
        do ok <- call (EvErrorGuard errorData) (errorGuard errorData);
        ret (negb ok)
    | None => ret false
    end;
  if rejected then
    do failure <- createErrorResponse
                    (message_object (VStr "Error validation failed"))
                    (Some code) requestId durationMs;
    ret (Return (Failure failure))
  else
    do transformedError <-
      match opt_errorTransformer options with
      | Some errorTransformer =>
          call (EvErrorTransformer errorData code) (errorTransformer errorData code)
      | None => ret errorData
      end;
    if ((500 <=? code) || (code =? 429)) && (attempts <? retries) then
      do lastErrorMessage <- lift (get_message transformedError);
      let attempts := attempts + 1 in
      let backoffTime := retryDelay * 2 ^ (attempts - 1) in
      run delay backoffTime;
      ret (Continue attempts lastErrorMessage)
    else
      do errorResponse <- createErrorResponse transformedError (Some code)
                            requestId durationMs;
      do errorResponse <-
        match opt_onResponse options with
        | Some onResponse =>
            let rc := mkResponseContext requestContext (Failure errorResponse)
                        durationMs in
            do result <- call (EvOnResponse rc) (onResponse rc);
            ret (match result with
                 | Failure replaced => replaced
                 | Success _ => errorResponse
                 end)
        | None => ret errorResponse
        end;
      run match cacheKey with
          | Some key =>
              if (400 <=? code) && (code <? 500) then
                do timestamp <- Date_now;
                cache_set key (mkCacheItem (Failure errorResponse) timestamp)
              else ret tt
          | None => ret tt
          end;
      ret (Return (Failure errorResponse)).

(** The tail of the success path, once the payload is known. *)
Definition finish_success (response : Response) (code durationMs : Z)
    (parsedResponse : JsValue) : M LoopStep :=
  let headersObj := collect_headers response in
  do successResponse <- createSuccessResponse parsedResponse code headersObj
                          requestId durationMs;
  do successResponse <-
    match opt_onResponse options with
    | Some onResponse =>
        let rc := mkResponseContext requestContext (Success successResponse)
                    durationMs in
        do result <- call (EvOnResponse rc) (onResponse rc);
        ret (match result with
             | Success replaced => replaced
             | Failure _ => successResponse
             end)
    | None => ret successResponse
    end;
  run match cacheKey with
      | Some key =>
          do timestamp <- Date_now;
          cache_set key (mkCacheItem (Success successResponse) timestamp)
      | None => ret tt
      end;
  ret (Return (Success successResponse)).

(** The branch of a response whose status is accepted. *)
Definition success_branch (response : Response) (code durationMs : Z) : M LoopStep :=
  let contentType := default "" (Headers.get (r_headers response) "content-type") in
  if isBinaryContentType contentType then
    do arrayBuffer <- lift (r_body response);
    finish_success response code durationMs (VStr (base64 env arrayBuffer))
  else
    do rawResponse <- parseResponseBody response;
    match opt_responseGuard options with
    | Some responseGuard =>
        do ok <- call (EvResponseGuard rawResponse) (responseGuard rawResponse);
        if negb ok then
          do failure <- createErrorResponse
                          (message_object (VStr "Response validation failed"))
                          (Some code) requestId durationMs;
          ret (Return (Failure failure))
        else finish_success response code durationMs rawResponse
    | None =>
        match opt_responseTransformer options with
        | Some responseTransformer =>
            if is_object rawResponse then
              do parsedResponse <- call (EvResponseTransformer rawResponse)
                                     (responseTransformer rawResponse);
              finish_success response code durationMs parsedResponse
            else finish_success response code durationMs rawResponse
        | None => finish_success response code durationMs rawResponse
        end
    end.

(** The dispatch of one attempt: [await fetch(requestContext.url, ...)] under
    the attempt's controller and timer. *)
Definition dispatch : M Response :=
  fetch (opt_abortController options) timeout (ctx_url requestContext) fetch_init.

(** What the [try] block does with the response of the dispatch. *)
Definition handle_response (attempts : Z) (response : Response) : M LoopStep :=
  let code := r_status response in
  do now <- performance_now;
  let durationMs := now - startTime in
  do isResponseOk <-
    match opt_validateStatus options with
    | Some validateStatus => call (EvValidateStatus code) (validateStatus code)
    | None => ret (response_ok response)
    end;
  if negb isResponseOk then error_branch attempts response code durationMs
  else success_branch response code durationMs.

(** The [try] block of one attempt. *)
Definition try_block (attempts : Z) : M LoopStep :=
  do response <- dispatch;
  handle_response attempts response.

(** The [catch] block of one attempt. *)
Definition catch_block (attempts : Z) (lastErrorMessage : JsValue) (error : Thrown)
    : M LoopStep :=
  let isError := thrown_is_Error error in
  let isAbortError := isAbortError error in
  let isNetworkError := isNetworkError error in
  if negb isAbortError && isNetworkError && (attempts <? retries) then
    let attempts := attempts + 1 in
    let backoffTime := retryDelay * 2 ^ (attempts - 1) in
    run delay backoffTime;
    ret (Continue attempts lastErrorMessage)
  else if isAbortError then
    do failure <- makeError (VStr "Request timeout") (Some 408);
    ret (Return (Failure failure))
  else
    do failure <- makeError
                    (VStr (if isError then thrown_message error
                           else "Unknown error occurred"))
                    None;
    ret (Return (Failure failure)).

Definition attempt (attempts : Z) (lastErrorMessage : JsValue) : M LoopStep :=
  try_catch (try_block attempts) (catch_block attempts lastErrorMessage).

(** [while (attempts <= retries) { ... }] followed by the final
    [return makeError(lastErrorMessage, null)]. [fuel] bounds the number of
    passes; [None] means the bound was too small. *)
Fixpoint dispatch_loop (fuel : nat) (attempts : Z) (lastErrorMessage : JsValue)
    (w : World) : option (Completion CustomFetchResult * World) :=
  if attempts <=? retries then
    match fuel with
    | O => None
    | S fuel' =>
        match attempt attempts lastErrorMessage w with
        | (Normal (Return result), w') => Some (Normal result, w')
        | (Normal (Continue attempts' lastErrorMessage'), w') =>
            dispatch_loop fuel' attempts' lastErrorMessage' w'
        | (Throw e, w') => Some (Throw e, w')
        end
    end
  else
    Some ((do failure <- makeError lastErrorMessage None; ret (Failure failure)) w).

End Call.

(** The request context handed to the request interceptor. *)
Definition assemble_context (options : FetchOptions) (requestId : string)
    : RequestContext :=
  let url := buildUrl (encodeURIComponent env) (opt_url options) (opt_params options) in
  let headers := assemble_headers options in
  mkRequestContext url (method options) headers (opt_body options) requestId.

(** The part of a call that precedes the cache probe. *)
Definition prepare (options : FetchOptions) : M (Z * string * RequestContext) :=
  do startTime <- performance_now;
  do requestId <- generateRequestId;
  let requestContext := assemble_context options requestId in
  do requestContext <-
    match opt_onRequest options with
    | Some onRequest => call (EvOnRequest requestContext) (onRequest requestContext)
    | None => ret requestContext
    end;
  ret (startTime, requestId, requestContext).

(** The cache probe: a live entry is the result of the call; a stale one is
    deleted. *)
Definition cache_probe (options : FetchOptions) (cacheKey : option string)
    : M (option CustomFetchResult) :=
  match cacheKey with
  | Some key =>
      do cachedItem <- cache_get key;
      match cachedItem with
      | Some item =>
          do now <- Date_now;
          if now - ci_timestamp item <? cacheTime options then ret (Some (ci_data item))
          else run cache_delete key; ret None
      | None => ret None
      end
  | None => ret None
  end.

(** The loop of a call, with the fuel that its retry budget needs. *)
Definition run_loop (options : FetchOptions) (requestId : string) (startTime : Z)
    (requestContext : RequestContext) (cacheKey : option string) (w : World)
    : option (Completion CustomFetchResult * World) :=
  dispatch_loop options requestId startTime requestContext cacheKey
    (Z.to_nat (retries options + 1)) 0 (VStr "Maximum retry count reached") w.

Definition CustomFetch (options : FetchOptions) (w : World)
    : option (Completion CustomFetchResult * World) :=
  match prepare options w with
  | (Throw e, w1) => Some (Throw e, w1)
  | (Normal (startTime, requestId, requestContext), w1) =>
      let cacheKey := cacheKey_of options requestContext in
      match cache_probe options cacheKey w1 with
      | (Throw e, w2) => Some (Throw e, w2)
      | (Normal (Some cached), w2) => Some (Normal cached, w2)
      | (Normal None, w2) =>
          run_loop options requestId startTime requestContext cacheKey w2
      end
  end.

End Engine.

(** ** Describing the path of an attempt *)

(** The pure content of the decisions an attempt takes on a response: what
    the callbacks complete with, without the record of their invocation. *)

(** [validateStatus ? validateStatus(code) : response.ok] *)
Definition status_verdict (options : FetchOptions) (response : Response)
    : Completion bool :=
  match opt_validateStatus options with
  | Some validateStatus => validateStatus (r_status response)
  | None => Normal (response_ok response)
  end.

Definition content_type (response : Response) : option string :=
  Headers.get (r_headers response) "content-type".

(** Whether the response is read as a binary payload. *)
Definition is_binary (response : Response) : bool :=
  isBinaryContentType (default "" (content_type response)).

(** The parsed body of a response whose text is [text]. *)
Definition body_value (env : Env) (response : Response) (text : string) : JsValue :=
  parse_text env (content_type response) text.

(** Whether the error guard lets an error payload pass. *)
Definition error_guard_verdict (options : FetchOptions) (errorData : JsValue)
    : Completion bool :=
  match opt_errorGuard options with
  | Some errorGuard => errorGuard errorData
  | None => Normal true
  end.

(** [errorTransformer ? errorTransformer(errorData, code) : errorData] *)
Definition error_transformed (options : FetchOptions) (errorData : JsValue)
    (code : Z) : Completion JsValue :=
  match opt_errorTransformer options with
  | Some errorTransformer => errorTransformer errorData code
  | None => Normal errorData
  end.

(** [code >= 500 || code === 429] *)
Definition retryable (code : Z) : bool := (500 <=? code) || (code =? 429).

(** The effects a call with these options may have: every effect, except
    that the response transformer stays idle when a response guard is
    configured. *)
Definition allowed_events (options : FetchOptions) (ev : Event) : bool :=
  match ev with
  | EvResponseTransformer _ =>
      match opt_responseGuard options with Some _ => false | None => true end
  | _ => true
  end.

(** [grows allowed w w']: [w'] has the trace of [w] followed by effects that
    are all [allowed]. *)
Definition grows (allowed : Event -> bool) (w w' : World) : Prop :=
  exists evs, trace w' = (trace w ++ evs)%list /\ forallb allowed evs = true.

(** The ways in which an attempt, made in world [w] after [attempts]
    retries, ends at once in a Failure: the error guard rejects the error
    payload of a response whose status is not accepted; the response guard
    rejects the parsed body of an accepted, non-binary response; the transport
    raises, at the dispatch or while the body of the response is read, and the
    [catch] block does not retry. *)
Inductive direct_failure (env : Env) (options : FetchOptions)
    (requestContext : RequestContext) (attempts : Z) (w : World) : Prop :=
| error_guard_rejects (response : Response) (w1 : World) (text : string)
    (errorData : JsValue) (errorGuard : JsValue -> Completion bool) :
    dispatch env options requestContext w = (Normal response, w1) ->
    status_verdict options response = Normal false ->
    r_body response = Normal text ->
    errorData_of env (body_value env response text) = Normal errorData ->
    opt_errorGuard options = Some errorGuard ->
    errorGuard errorData = Normal false ->
    direct_failure env options requestContext attempts w
| response_guard_rejects (response : Response) (w1 : World) (text : string)
    (responseGuard : JsValue -> Completion bool) :
    dispatch env options requestContext w = (Normal response, w1) ->
    status_verdict options response = Normal true ->
    is_binary response = false ->
    r_body response = Normal text ->
    opt_responseGuard options = Some responseGuard ->
    responseGuard (body_value env response text) = Normal false ->
    direct_failure env options requestContext attempts w
| transport_raises (e : Thrown) (w1 : World) :
    dispatch env options requestContext w = (Throw e, w1) ->
    negb (isAbortError e) && isNetworkError e && (attempts <? retries options)
    = false ->
    direct_failure env options requestContext attempts w
| body_read_raises (response : Response) (w1 : World) (accepted : bool)
    (e : Thrown) :
    dispatch env options requestContext w = (Normal response, w1) ->
    status_verdict options response = Normal accepted ->
    r_body response = Throw e ->
    negb (isAbortError e) && isNetworkError e && (attempts <? retries options)
    = false ->
    direct_failure env options requestContext attempts w.

(** The payload of a successful response: the base64 text of a binary
    body; the parsed body that the response guard has let pass; what the
    response transformer makes of a parsed object when there is no guard; the
    parsed body itself otherwise. *)
Inductive success_payload (env : Env) (options : FetchOptions)
    (response : Response) : JsValue -> Prop :=
| payload_binary (bytes : string) :
    is_binary response = true ->
    r_body response = Normal bytes ->
    success_payload env options response (VStr (base64 env bytes))
| payload_guarded (text : string) (responseGuard : JsValue -> Completion bool) :
    is_binary response = false ->
    r_body response = Normal text ->
    opt_responseGuard options = Some responseGuard ->
    responseGuard (body_value env response text) = Normal true ->
    success_payload env options response (body_value env response text)
| payload_transformed (text : string)
    (responseTransformer : JsValue -> Completion JsValue) (payload : JsValue) :
    is_binary response = false ->
    r_body response = Normal text ->
    opt_responseGuard options = None ->
    opt_responseTransformer options = Some responseTransformer ->
    is_object (body_value env response text) = true ->
    responseTransformer (body_value env response text) = Normal payload ->
    success_payload env options response payload
| payload_plain (text : string) :
    is_binary response = false ->
    r_body response = Normal text ->
    opt_responseGuard options = None ->
    opt_responseTransformer options = None
    \/ is_object (body_value env response text) = false ->
    success_payload env options response (body_value env response text).

(** [terminal_outcome ... attempts w original]: the attempt made in world [w]
    after [attempts] retries reaches the point where the response interceptor
    is consulted, with [original] as the outcome built so far: the terminal
    Failure of a response that is neither accepted, rejected by the error
    guard nor retried, or the terminal Success of an accepted response. *)
Inductive terminal_outcome (env : Env) (options : FetchOptions)
    (requestId : string) (startTime : Z) (requestContext : RequestContext)
    (attempts : Z) (w : World) : CustomFetchResult -> Prop :=
| terminal_failure (response : Response) (w1 : World) (text : string)
    (errorData transformedError : JsValue) :
    dispatch env options requestContext w = (Normal response, w1) ->
    status_verdict options response = Normal false ->
    r_body response = Normal text ->
    errorData_of env (body_value env response text) = Normal errorData ->
    error_guard_verdict options errorData = Normal true ->
    error_transformed options errorData (r_status response)
    = Normal transformedError ->
    retryable (r_status response) && (attempts <? retries options) = false ->
    terminal_outcome env options requestId startTime requestContext attempts w
      (Failure (mkErrorResponse transformedError (Some (r_status response))
                  (clock w1) requestId (clock w1 - startTime)
                  (if IS_DEV env then Some (error_stack env) else None)))
| terminal_success (response : Response) (w1 : World) (payload : JsValue) :
    dispatch env options requestContext w = (Normal response, w1) ->
    status_verdict options response = Normal true ->
    success_payload env options response payload ->
    terminal_outcome env options requestId startTime requestContext attempts w
      (Success (mkSuccessResponse payload (r_status response) (clock w1)
                  (collect_headers response) requestId (clock w1 - startTime))).

Definition durationMs_of (result : CustomFetchResult) : Z :=
  match result with
  | Success s => s_durationMs s
  | Failure e => e_durationMs e
  end.

(** What the engine keeps of the response interceptor's answer: the answer
    when it is of the variant of the outcome it was given, that outcome
    otherwise. *)
Definition intercepted (original replaced : CustomFetchResult) : CustomFetchResult :=
  if Bool.eqb (isSuccess replaced) (isSuccess original) then replaced else original.

(** ** Vocabulary of the properties *)

(** [keeps R P m]: from every world, [m] leads to a world related by [R] and
    completes in a way that satisfies [P]. *)
Definition keeps {A} (R : World -> World -> Prop) (P : Completion A -> Prop)
    (m : M A) : Prop :=
  forall w, R w (snd (m w)) /\ P (fst (m w)).

Definition anything {A} : Completion A -> Prop := fun _ => True.

(** The relation that holds between any two worlds. *)
Definition unrelated : World -> World -> Prop := fun _ _ => True.

(** A pass that asks for another pass has moved the attempt counter by one
    and had a retry left. *)
Definition continue_ok (options : FetchOptions) (attempts : Z)
    (c : Completion LoopStep) : Prop :=
  match c with
  | Normal (Continue attempts' _) =>
      attempts' = attempts + 1 /\ attempts < retries options
  | _ => True
  end.

(** The world after the request id has been drawn. *)
Definition drawn (w : World) : World :=
  mkWorld (responseCache w) (clock w) (S (random_draws w)) (trace w).

(** The world after an effect has been recorded. *)
Definition recorded (ev : Event) (w : World) : World :=
  mkWorld (responseCache w) (clock w) (random_draws w) (trace w ++ [ev]).

(** The record of a dispatch of the call. *)
Definition dispatched (options : FetchOptions) (requestContext : RequestContext)
    : Event :=
  EvDispatch (ctx_url requestContext) (fetch_init options requestContext).

(** The Failure that a guard rejection produces at status [code], in the
    world [w1] the dispatch has left. *)
Definition rejection (env : Env) (requestId : string) (startTime : Z)
    (message : string) (code : Z) (w1 : World) : ErrorResponse :=
  mkErrorResponse (message_object (VStr message)) (Some code) (clock w1) requestId
    (clock w1 - startTime) (if IS_DEV env then Some (error_stack env) else None).

(** The world after the entry of [key] has been deleted from the cache. *)
Definition evicted (key : string) (w : World) : World :=
  mkWorld (delete key (responseCache w)) (clock w) (random_draws w) (trace w).

(** The timeline of a trace: its dispatches and its sleeps, in order. *)
Inductive Tick : Type :=
| Dispatched
| Slept (ms : Z).

Fixpoint timeline (t : list Event) : list Tick :=
  match t with
  | [] => []
  | EvDispatch _ _ :: rest => Dispatched :: timeline rest
  | EvDelay ms :: rest => Slept ms :: timeline rest
  | _ :: rest => timeline rest
  end.

(** A dispatch, a sleep of [retryDelay * 2 ^ first], a dispatch, a sleep
    twice as long, and so on: [n] sleeps between [n + 1] dispatches. *)
Fixpoint backoff_timeline (retryDelay first : Z) (n : nat) : list Tick :=
  match n with
  | O => [Dispatched]
  | S n' =>
      Dispatched :: Slept (retryDelay * 2 ^ first)
        :: backoff_timeline retryDelay (first + 1) n'
  end.

(** A transport reply that makes an attempt face a 503: a response with that
    status arrives before the deadline, the status is not accepted, the body
    can be read and turned into an error payload, the error guard (if any)
    lets it pass and the error transformer (if any) returns an error object
    whose message can be read. *)
Definition answers_503 (env : Env) (options : FetchOptions) (reply : TransportReply)
    : Prop :=
  exists latency response text errorData transformedError message,
    reply = Responds latency response
    /\ latency < timeout options
    /\ r_status response = 503
    /\ status_verdict options response = Normal false
    /\ r_body response = Normal text
    /\ errorData_of env (body_value env response text) = Normal errorData
    /\ error_guard_verdict options errorData = Normal true
    /\ error_transformed options errorData 503 = Normal transformedError
    /\ get_message env transformedError = Normal message.

(** A response interceptor that returns, and returns no Failure of another
    status than [code]. *)
Definition interceptor_keeps_code (options : FetchOptions) (code : Z) : Prop :=
  match opt_onResponse options with
  | None => True
  | Some onResponse =>
      forall rc, exists replaced,
        onResponse rc = Normal replaced
        /\ match replaced with
           | Failure e => e_code e = Some code
           | Success _ => True
           end
  end.

(** The caller has supplied no controller that is already aborted. *)
Definition not_aborted (options : FetchOptions) : Prop :=
  match opt_abortController options with
  | Some c => signal_aborted c = false
  | None => True
  end.

(** ** A percent-encoding codec *)

(** A byte-level percent-encoding codec with the reserved set of
    [encodeURIComponent]: letters, digits and [- _ . ! ~ * ' ( )] are kept,
    every other byte becomes [%XX]. *)
Module Percent.

Definition unreserved (c : ascii) : bool :=
  let n := nat_of_ascii c in
  ((65 <=? n) && (n <=? 90) || (97 <=? n) && (n <=? 122)
   || (48 <=? n) && (n <=? 57)
   || existsb (Ascii.eqb c) ["-"; "_"; "."; "!"; "~"; "*"; "'"; "("; ")"]%char)%nat.

Definition hex_digit (n : nat) : ascii :=
  if (n <? 10)%nat then ascii_of_nat (48 + n) else ascii_of_nat (55 + n).

Definition hex_value (c : ascii) : option nat :=
  let n := nat_of_ascii c in
  if ((48 <=? n) && (n <=? 57))%nat then Some (n - 48)%nat
  else if ((65 <=? n) && (n <=? 70))%nat then Some (n - 55)%nat
  else if ((97 <=? n) && (n <=? 102))%nat then Some (n - 87)%nat
  else None.

Fixpoint encode (s : string) : string :=
  match s with
  | EmptyString => EmptyString
  | String c rest =>
      if unreserved c then String c (encode rest)
      else
        let n := nat_of_ascii c in
        String "%" (String (hex_digit (n / 16)) (String (hex_digit (n mod 16))
          (encode rest)))
  end.

Fixpoint decode (s : string) : string :=
  match s with
  | EmptyString => EmptyString
  | String c rest =>
      match rest with
      | String h (String l rest') =>
          if Ascii.eqb c "%" then
            match hex_value h, hex_value l with
            | Some a, Some b => String (ascii_of_nat (16 * a + b)) (decode rest')
            | _, _ => String c (decode rest)
            end
          else String c (decode rest)
      | _ => String c (decode rest)
      end
  end.

End Percent.

(** ** A concrete platform for running the model *)

Module Demo.

(** A platform with [net] as its network, without JSON codec (every parse
    fails), with the byte-level percent-encoding, the identity as base64 and
    decimal numerals as identifiers. *)
Definition plain_env (net : nat -> string -> FetchInit -> TransportReply) : Env :=
  mkEnv net (fun _ => None) Percent.encode (fun s => s) Str.of_Z Str.of_nat
    false "" "Cannot read properties of null".

(** The options [{ url, retries, cacheResponse, validateStatus, responseGuard,
    errorGuard, onRequest, onResponse }], everything else left out. *)
Definition options_with (url : string) (retries : option Z)
    (cacheResponse : option bool)
    (validateStatus : option (Z -> Completion bool))
    (responseGuard errorGuard : option (JsValue -> Completion bool))
    (onRequest : option (RequestContext -> Completion RequestContext))
    (onResponse : option (ResponseContext -> Completion CustomFetchResult))
    : FetchOptions :=
  mkFetchOptions url None None None None None None retries None validateStatus
    responseGuard errorGuard None None cacheResponse None None None None
    onRequest onResponse.

Definition get_options (url : string) : FetchOptions :=
  options_with url None None None None None None None.

Definition cached_get (url : string) : FetchOptions :=
  options_with url None (Some true) None None None None None.

Definition world0 : World := mkWorld ∅ 1000 0 [].

Definition text_response (status : Z) (text : string) : Response :=
  mkResponse status [("content-type", "text/plain")] None (Normal text).

(** A network that answers every dispatch after 5 ms with the same status
    and text. *)
Definition steady (status : Z) (text : string)
    : nat -> string -> FetchInit -> TransportReply :=
  fun _ _ _ => Responds 5 (text_response status text).

(** A network that never answers within a day. *)
Definition silent : nat -> string -> FetchInit -> TransportReply :=
  fun _ _ _ => Responds 86400000 (text_response 200 "late").

(** The world a computation leaves behind, and what it completes with. *)
Definition world_after {A} (ended : option (Completion A * World)) : World :=
  match ended with Some (_, w) => w | None => world0 end.

Definition completion_of {A} (ended : option (Completion A * World))
    : option (Completion A) :=
  match ended with Some (c, _) => Some c | None => None end.

Definition boom : Thrown := mkThrown true false "Error" "boom".

(** The request context of a plain GET of [http://a/] made in [world0]. *)
Definition ctx : RequestContext :=
  mkRequestContext "http://a/" GET [] None "1000-0".

Definition with_retries (n : Z) : FetchOptions :=
  options_with "http://a/" (Some n) None None None None None None.

(** A guard that rejects whatever it is shown. *)
Definition rejecting_guard : JsValue -> Completion bool := fun _ => Normal false.

(** The same world, [ms] milliseconds later. *)
Definition later (ms : Z) (w : World) : World :=
  mkWorld (responseCache w) (clock w + ms) (random_draws w) (trace w).

Definition substitute : SuccessResponse :=
  mkSuccessResponse (VStr "substitute") 200 0 [] "id" 0.

Definition downgrade : ErrorResponse :=
  mkErrorResponse (message_object (VStr "downgraded")) (Some 418) 0 "id" 0 None.

(** Platforms whose network always answers alike. *)
Definition env_200 : Env := plain_env (steady 200 "hi").
Definition env_404 : Env := plain_env (steady 404 "missing").
Definition env_503 : Env := plain_env (steady 503 "busy").
Definition env_silent : Env := plain_env silent.

(** Calls with a response interceptor that substitutes a Success, one that
    substitutes a Failure, and one that raises; with a request interceptor
    that raises; with a response guard and with an error guard (and two
    retries) that reject. *)
Definition substituting : FetchOptions :=
  options_with "http://a/" None None None None None None
    (Some (fun _ => Normal (Success substitute))).

Definition downgrading : FetchOptions :=
  options_with "http://a/" None None None None None None
    (Some (fun _ => Normal (Failure downgrade))).


Definition raising_in_request : FetchOptions :=
  options_with "http://a/" None None None None None
    (Some (fun _ => Throw boom)) None.

Definition response_guarded : FetchOptions :=
  options_with "http://a/" None None None (Some rejecting_guard) None None None.

Definition error_guarded : FetchOptions :=
  options_with "http://a/" (Some 2) None None None (Some rejecting_guard)
    None None.

(** The world in which the request id of the first call has been drawn. *)
Definition drawn_world0 : World := mkWorld ∅ 1000 1 [].

(** The outcome of a first cached GET of [http://a/] answered by
    [steady 200 "hi"], and the world of a second call 100 ms after it. *)
Definition first_outcome : SuccessResponse :=
  mkSuccessResponse (VStr "hi") 200 1005 [("content-type", HOne "text/plain")]
    "1000-0" 5.

Definition second_call : World :=
  later 100 (world_after (CustomFetch env_200 (cached_get "http://a/") world0)).

End Demo.

(** ** Reading a query string back *)

(** The receiving side of the URL builder: the query string is cut at every
    ampersand, empty pieces are dropped, each piece is cut at its first equals
    sign and both halves are percent-decoded. *)
Module Query.

Fixpoint split (sep : ascii) (s : string) : list string :=
  match s with
  | EmptyString => [EmptyString]
  | String c rest =>
      if Ascii.eqb c sep then EmptyString :: split sep rest
      else
        match split sep rest with
        | [] => [String c EmptyString]
        | piece :: pieces => String c piece :: pieces
        end
  end.

Fixpoint cut (sep : ascii) (s : string) : string * string :=
  match s with
  | EmptyString => (EmptyString, EmptyString)
  | String c rest =>
      if Ascii.eqb c sep then (EmptyString, rest)
      else let '(a, b) := cut sep rest in (String c a, b)
  end.

Fixpoint mentions (c : ascii) (s : string) : bool :=
  match s with
  | EmptyString => false
  | String c' rest => Ascii.eqb c' c || mentions c rest
  end.

Definition parse (decode : string -> string) (query : string) : list (string * string) :=
  map (fun piece => let '(k, v) := cut "=" piece in (decode k, decode v))
    (List.filter (fun piece => negb (Str.is_empty piece)) (split "&" query)).

(** The query string of a URL: what follows the first question mark of the
    part before the fragment. *)
Definition of_url (url : string) : string :=
  snd (cut "?" (fst (cut "#" url))).


End Query.

(** The scalars a parameter value stands for. *)
Definition scalars (v : ParamValue) : list Scalar :=
  match v with
  | PNull | PUndefined => []
  | PScalar x => [x]
  | PArray items => items
  end.

Definition is_nullish (v : ParamValue) : bool :=
  match v with PNull | PUndefined => true | _ => false end.

(** The key-value pairs a parameter map stands for, as text. *)
Definition param_pairs (params : QueryParams) : list (string * string) :=
  flat_map (fun entry => map (fun x => (fst entry, String_of x)) (scalars (snd entry)))
    params.





(** ** Reading a received value *)





(** ** The outcome of an attempt and the cache *)

(** What the response interceptor makes of a terminal outcome: nothing when
    none is configured, otherwise what the engine keeps of its answer. *)
Definition interception (options : FetchOptions) (requestContext : RequestContext)
    (original : CustomFetchResult) : Completion CustomFetchResult :=
  match opt_onResponse options with
  | None => Normal original
  | Some onResponse =>
      match onResponse (mkResponseContext requestContext original
                          (durationMs_of original)) with
      | Normal replaced => Normal (intercepted original replaced)
      | Throw e => Throw e
      end
  end.

(** The terminal outcomes that the engine stores: every Success, and the
    Failures of a response with a status from 400 to 499. *)
Definition cacheable (original : CustomFetchResult) : bool :=
  match original with
  | Success _ => true
  | Failure e =>
      match e_code e with
      | Some code => (400 <=? code) && (code <? 500)
      | None => false
      end
  end.

(** ** Vocabulary of the further properties *)

(** Whether [parseResponseBody] treats a declared content type as text that
    is never parsed: it does not mention [application/json] and mentions
    [text/] or [application/xml]. *)
Definition declared_textual (contentType : option string) : bool :=
  match contentType with
  | Some ct =>
      negb (Str.includes ct "application/json")
      && (Str.includes ct "text/" || Str.includes ct "application/xml")
  | None => false
  end.

(** [only_touches key w w']: [w'] has the cache entries of [w], except
    possibly the one of [key]. *)
Definition only_touches (key : option string) (w w' : World) : Prop :=
  forall k, Some k <> key -> responseCache w' !! k = responseCache w !! k.

Definition is_delay (ev : Event) : bool :=
  match ev with EvDelay _ => true | _ => false end.

(** The effects that are neither a dispatch, a sleep nor a call of the
    request interceptor. *)
Definition silent (ev : Event) : bool :=
  negb (is_dispatch ev) && negb (is_delay ev) && negb (is_onRequest ev).

(** The effects that are neither a dispatch nor a call of the request
    interceptor. *)
Definition inner (ev : Event) : bool :=
  negb (is_dispatch ev) && negb (is_onRequest ev).

(** [paced retryDelay attempts m]: what the step [m] of a pass records is
    inner to the pass, and it sleeps exactly when it asks for another pass,
    once and for the backoff time of the pass. *)
Definition paced (retryDelay attempts : Z) (m : M LoopStep) : Prop :=
  forall w, exists evs,
    trace (snd (m w)) = (trace w ++ evs)%list
    /\ forallb inner evs = true
    /\ delays evs
       = match fst (m w) with
         | Normal (Continue _ _) => [retryDelay * 2 ^ attempts]
         | _ => []
         end.


(** A transport reply that makes an attempt face a network error: the
    request is rejected before the deadline with [e], a TypeError (hence an
    Error) whose message mentions NetworkError and that is not the abort
    exception. *)
Definition network_down (options : FetchOptions) (e : Thrown)
    (reply : TransportReply) : Prop :=
  exists latency,
    reply = Rejects latency e
    /\ latency < timeout options
    /\ thrown_is_Error e = true
    /\ isNetworkError e = true
    /\ isAbortError e = false.

(** A platform without network: every dispatch is rejected after 1 ms with
    the TypeError that Firefox raises. *)
Module Offline.

Definition network_error : Thrown :=
  mkThrown true true "TypeError" "NetworkError when attempting to fetch resource.".

Definition net : nat -> string -> FetchInit -> TransportReply :=
  fun _ _ _ => Rejects 1 network_error.

Definition env : Env := Demo.plain_env net.

End Offline.

(** A platform whose network answers every dispatch after 5 ms with status
    404 and the JSON text [null]. *)
Module NullBody.

Definition JSON_parse (text : string) : option JsValue :=
  if String.eqb text "null" then Some VNull else None.

Definition response : Response :=
  mkResponse 404 [("content-type", "application/json")] None (Normal "null").

Definition net : nat -> string -> FetchInit -> TransportReply :=
  fun _ _ _ => Responds 5 response.

Definition env : Env :=
  mkEnv net JSON_parse Percent.encode (fun s => s) Str.of_Z Str.of_nat
    false "" "Cannot read properties of null (reading 'message')".

End NullBody.

(** ** The header lists that [Headers] takes as they are *)

(** The [Headers] class of the platform validates and normalises what it is
    given: [new Headers], [append] and [set] raise a [TypeError] for a name
    that is no token and for a value with a NUL, a line feed or a carriage
    return, and they strip the white space around a value. [Headers.make],
    [Headers.append] and [Headers.set] are these operations on names and
    values that pass the validation and that the normalisation leaves alone;
    the predicates below say which these are. Values are held to ASCII, where
    the byte strings of the model and the strings of the platform agree. *)

(** The HTTP white space: tab, line feed, carriage return, space. *)
Definition http_whitespace (c : ascii) : bool :=
  let n := nat_of_ascii c in
  (n =? 9)%nat || (n =? 10)%nat || (n =? 13)%nat || (n =? 32)%nat.

(** The characters of a token: letters, digits and a few marks. *)
Definition token_char (c : ascii) : bool :=
  let n := nat_of_ascii c in
  ((48 <=? n)%nat && (n <=? 57)%nat)
  || ((65 <=? n)%nat && (n <=? 90)%nat)
  || ((97 <=? n)%nat && (n <=? 122)%nat)
  || existsb (Ascii.eqb c) (list_ascii_of_string "!#$%&'*+-.^_`|~").

Definition header_name_ok (name : string) : bool :=
  negb (Str.is_empty name) && forallb token_char (list_ascii_of_string name).

Definition value_char (c : ascii) : bool :=
  let n := nat_of_ascii c in
  negb (n =? 0)%nat && negb (n =? 10)%nat && negb (n =? 13)%nat && (n <? 128)%nat.

Definition header_value_ok (value : string) : bool :=
  forallb value_char (list_ascii_of_string value)
  && match list_ascii_of_string value with
     | [] => true
     | first :: _ => negb (http_whitespace first)
     end
  && match rev (list_ascii_of_string value) with
     | [] => true
     | last :: _ => negb (http_whitespace last)
     end.

Definition headers_ok (init : list (string * string)) : bool :=
  forallb (fun kv => header_name_ok (fst kv) && header_value_ok (snd kv)) init.

(** The headers and the token of a call are such that assembling the
    request raises nothing. *)
Definition assembly_ok (options : FetchOptions) : bool :=
  headers_ok (default [] (opt_headers options))
  && match opt_customToken options with
     | Some token => header_value_ok ("Bearer " ++ token)
     | None => true
     end.

(** The values that a header initialiser gives for [Set-Cookie], in order. *)
Definition set_cookie_values (init : list (string * string)) : list string :=
  map snd
    (List.filter (fun kv => String.eqb (Str.toLowerCase (fst kv)) "set-cookie") init).

(** [new Headers(init).forEach(visit)]: every name is visited once, with its
    combined value, except [set-cookie], which is visited once for each of its
    values. (The platform visits the names in sorted order; as [visit] will
    only [set] headers, the order of distinct names does not matter to what
    is read from the result.) *)
Definition forEach_of (init : list (string * string)) : list (string * string) :=
  flat_map
    (fun kv =>
       if String.eqb (fst kv) "set-cookie"
       then map (fun value => (fst kv, value)) (set_cookie_values init)
       else [kv])
    (Headers.make (Some init)).

(** ** The client factory *)

(** [defaultHeaders]: a header initialiser, or a function (possibly
    asynchronous) that produces one. The producer is consulted once per
    request; its answer may depend on the moment of the request, and it may
    raise. *)
Inductive HeaderSource : Type :=
| StaticHeaders (init : list (string * string))
| HeaderProducer (produce : World -> Completion (list (string * string))).

Record ClientConfig : Type := mkClientConfig {
  cfg_baseUrl : option string;
  cfg_defaultHeaders : option HeaderSource;
  cfg_defaultTimeout : option Z;
  cfg_defaultRetries : option Z;
  cfg_defaultRetryDelay : option Z;
  cfg_debug : option bool;
  cfg_onRequest : option (RequestContext -> Completion RequestContext);
  cfg_onResponse : option (ResponseContext -> Completion CustomFetchResult)
}.

(** What [post], [put] and [patch] are given as a body: nothing ([null] or
    [undefined]), a string, an object that is neither a [FormData] nor a
    [Blob] (seen as the value that [JSON.stringify] reads), or a [FormData]
    or [Blob]. *)
Inductive ClientBody : Type :=
| NoBody
| TextBody (s : string)
| ObjectBody (v : JsValue)
| OpaqueBody (handle : N).

(** [{ ...options, body }] *)
Definition with_body (options : FetchOptions) (body : option BodyInit)
    : FetchOptions :=
  mkFetchOptions (opt_url options) (opt_method options) (opt_headers options)
    body (opt_params options) (opt_customToken options) (opt_timeout options)
    (opt_retries options) (opt_retryDelay options) (opt_validateStatus options)
    (opt_responseGuard options) (opt_errorGuard options)
    (opt_errorTransformer options) (opt_responseTransformer options)
    (opt_cacheResponse options) (opt_cacheTime options)
    (opt_includeCookies options) (opt_debug options)
    (opt_abortController options) (opt_onRequest options)
    (opt_onResponse options).

(** [{ ...options, url, method }] *)
Definition with_target (options : FetchOptions) (url : string)
    (method : HttpMethod) : FetchOptions :=
  mkFetchOptions url (Some method) (opt_headers options)
    (opt_body options) (opt_params options) (opt_customToken options)
    (opt_timeout options) (opt_retries options) (opt_retryDelay options)
    (opt_validateStatus options) (opt_responseGuard options)
    (opt_errorGuard options) (opt_errorTransformer options)
    (opt_responseTransformer options) (opt_cacheResponse options)
    (opt_cacheTime options) (opt_includeCookies options) (opt_debug options)
    (opt_abortController options) (opt_onRequest options)
    (opt_onResponse options).

(** [a ?? b] *)
Definition or_else {A} (a b : option A) : option A :=
  match a with Some _ => a | None => b end.

Module Client.

Section Factory.

Variable env : Env.

(** [JSON.stringify] on the objects given as bodies. *)
Variable JSON_stringify : JsValue -> string.

Variable config : ClientConfig.

Definition baseUrl : string := default "" (cfg_baseUrl config).
Definition defaultTimeout : Z := default 30000 (cfg_defaultTimeout config).
Definition defaultRetries : Z := default 0 (cfg_defaultRetries config).
Definition defaultRetryDelay : Z := default 1000 (cfg_defaultRetryDelay config).
Definition debug : bool := default (IS_DEV env) (cfg_debug config).

Definition resolveHeaders : M (list (string * string)) :=
  match cfg_defaultHeaders config with
  | None => ret []
  | Some (HeaderProducer produce) => fun w => (produce w, w)
  | Some (StaticHeaders init) => ret init
  end.

(** [new Headers(resolvedDefaultHeaders)], then
    [new Headers(options.headers).forEach((value, key) =>
       mergedHeaders.set(key, value))]. *)
Definition mergedHeaders (resolvedDefaultHeaders : list (string * string))
    (options : FetchOptions) : Headers.t :=
  let mergedHeaders := Headers.make (Some resolvedDefaultHeaders) in
  match opt_headers options with
  | Some init =>
      fold_left (fun merged kv => Headers.set merged (fst kv) (snd kv))
        (forEach_of init) mergedHeaders
  | None => mergedHeaders
  end.

Definition fullUrl (path : string) : string :=
  if Str.startsWith path "http" then path else baseUrl ++ path.

(** The options that [request] hands to [CustomFetch]. *)
Definition options_of (resolvedDefaultHeaders : list (string * string))
    (method : HttpMethod) (path : string) (options : FetchOptions)
    : FetchOptions :=
  mkFetchOptions (fullUrl path) (Some method)
    (Some (mergedHeaders resolvedDefaultHeaders options))
    (opt_body options) (opt_params options) (opt_customToken options)
    (Some (default defaultTimeout (opt_timeout options)))
    (Some (default defaultRetries (opt_retries options)))
    (Some (default defaultRetryDelay (opt_retryDelay options)))
    (opt_validateStatus options) (opt_responseGuard options)
    (opt_errorGuard options) (opt_errorTransformer options)
    (opt_responseTransformer options) (opt_cacheResponse options)
    (opt_cacheTime options) (opt_includeCookies options)
    (Some (default debug (opt_debug options)))
    (opt_abortController options)
    (or_else (opt_onRequest options) (cfg_onRequest config))
    (or_else (opt_onResponse options) (cfg_onResponse config)).

Definition request (method : HttpMethod) (path : string) (options : FetchOptions)
    (w : World) : option (Completion CustomFetchResult * World) :=
  match resolveHeaders w with
  | (Normal resolvedDefaultHeaders, w1) =>
      CustomFetch env (options_of resolvedDefaultHeaders method path options) w1
  | (Throw e, w1) => Some (Throw e, w1)
  end.

(** [body && typeof body === "object" && !(body instanceof FormData) &&
     !(body instanceof Blob) ? JSON.stringify(body) : body] *)
Definition bodyInit (body : ClientBody) : option BodyInit :=
  match body with
  | NoBody => None
  | TextBody s => Some (BodyText s)
  | ObjectBody v => Some (BodyText (JSON_stringify v))
  | OpaqueBody handle => Some (BodyOther handle)
  end.

Definition get (path : string) (options : FetchOptions) :=
  request GET path options.

Definition post (path : string) (body : ClientBody) (options : FetchOptions) :=
  request POST path (with_body options (bodyInit body)).

Definition put (path : string) (body : ClientBody) (options : FetchOptions) :=
  request PUT path (with_body options (bodyInit body)).

Definition patch (path : string) (body : ClientBody) (options : FetchOptions) :=
  request PATCH path (with_body options (bodyInit body)).

Definition delete (path : string) (options : FetchOptions) :=
  request DELETE path options.

End Factory.

End Client.

(** A header list as the [Headers] class keeps it: every name once, in lower
    case. *)
Definition headers_normal (h : Headers.t) : Prop :=
  List.NoDup (map fst h) /\ Forall (fun name => Str.toLowerCase name = name) (map fst h).

(** A client without configuration but, possibly, a base URL. *)
Definition plain_client (base : option string) : ClientConfig :=
  mkClientConfig base None None None None None None None.

(** A platform whose [JSON.parse] reads the empty object, with the
    [JSON.stringify] that writes it. *)
Module Braces.

Definition JSON_parse (text : string) : option JsValue :=
  if String.eqb text "{}" then Some (VObj []) else None.

Definition JSON_stringify (v : JsValue) : string :=
  match v with
  | VObj [] => "{}"
  | _ => "null"
  end.

Definition env : Env :=
  mkEnv (Demo.steady 200 "hi") JSON_parse Percent.encode (fun s => s) Str.of_Z
    Str.of_nat false "" "Cannot read properties of null".

End Braces.

(** * Properties *)

(** ** Strings *)

#[local] Arguments String.append !_ _ / : simpl nomatch.

Lemma append_empty_r (s : string) : s ++ "" = s.
Proof. induction s as [|c s IH]; simpl; [reflexivity | now rewrite IH]. Qed.

Lemma append_assoc (a b c : string) : (a ++ b) ++ c = a ++ b ++ c.
Proof. induction a as [|x a IH]; simpl; [reflexivity | now rewrite IH]. Qed.

Lemma length_append (a b : string) :
  String.length (a ++ b) = (String.length a + String.length b)%nat.
Proof. induction a as [|x a IH]; simpl; [reflexivity | now rewrite IH]. Qed.

Lemma append_nonempty_neq (a b : string) : b <> "" -> a ++ b <> a.
Proof.
  intros Hb Heq. apply (f_equal String.length) in Heq.
  rewrite length_append in Heq. destruct b; [congruence | simpl in Heq; lia].
Qed.

Lemma mentions_append (c : ascii) (a b : string) :
  Query.mentions c (a ++ b) = Query.mentions c a || Query.mentions c b.
Proof.
  induction a as [|x a IH]; simpl; [reflexivity |].
  rewrite IH. now rewrite orb_assoc.
Qed.

(** ** The receiving side inverts [join] and the key-value layout *)

Lemma cut_append (sep : ascii) (a b : string) :
  Query.mentions sep a = false -> Query.cut sep (a ++ String sep b) = (a, b).
Proof.
  induction a as [|x a IH]; simpl; intros H.
  - now rewrite Ascii.eqb_refl.
  - apply orb_false_iff in H as [Hx Ha].
    rewrite Hx, (IH Ha). reflexivity.
Qed.

Lemma split_clean (sep : ascii) (p : string) :
  Query.mentions sep p = false -> Query.split sep p = [p].
Proof.
  induction p as [|x p IH]; simpl; intros H; [reflexivity |].
  apply orb_false_iff in H as [Hx Hp].
  rewrite Hx, (IH Hp). reflexivity.
Qed.

Lemma split_append (sep : ascii) (p rest : string) :
  Query.mentions sep p = false ->
  Query.split sep (p ++ String sep rest) = p :: Query.split sep rest.
Proof.
  induction p as [|x p IH]; simpl; intros H.
  - now rewrite Ascii.eqb_refl.
  - apply orb_false_iff in H as [Hx Hp].
    rewrite Hx, (IH Hp). reflexivity.
Qed.

Lemma split_join (sep : ascii) (parts : list string) :
  parts <> [] ->
  Forall (fun p => Query.mentions sep p = false) parts ->
  Query.split sep (Str.join (String sep "") parts) = parts.
Proof.
  induction parts as [|p parts IH]; intros Hne Hall; [congruence |].
  inversion Hall as [|? ? Hp Hrest]; subst.
  destruct parts as [|q parts].
  - simpl. now apply split_clean.
  - change (Str.join (String sep "") (p :: q :: parts))
      with (p ++ String sep (Str.join (String sep "") (q :: parts))).
    rewrite split_append by assumption.
    f_equal. apply IH; [discriminate | assumption].
Qed.

Lemma flat_map_nullish (enc : string -> string) (params : QueryParams) :
  Forall (fun entry => is_nullish (snd entry) = true) params ->
  flat_map (entry_parts enc) params = [].
Proof.
  induction 1 as [|[key value] params Hv _ IH]; [reflexivity |].
  simpl in *. rewrite IH. destruct value; simpl in *; congruence.
Qed.

(** C9: a non-empty parameter map whose values are all [null] or
    [undefined] does not leave the base URL alone: [buildUrl] appends the bare
    separator, a question mark or, when the base URL already holds one, an
    ampersand, followed by an empty query string. *)
Theorem buildUrl_all_nullish (enc : string -> string) (baseUrl : string)
    (params : QueryParams) :
  params <> [] ->
  Forall (fun entry => is_nullish (snd entry) = true) params ->
  buildUrl enc baseUrl (Some params)
    = baseUrl ++ (if Str.includes baseUrl "?" then "&" else "?")
  /\ buildUrl enc baseUrl (Some params) <> baseUrl.
Proof.
  intros Hne Hall.
  assert (Hurl : buildUrl enc baseUrl (Some params)
                 = baseUrl ++ (if Str.includes baseUrl "?" then "&" else "?")).
  { unfold buildUrl, serializeParams.
    destruct params as [|entry params]; [congruence |].
    rewrite (flat_map_nullish enc _ Hall). simpl.
    destruct (Str.includes baseUrl "?"); simpl; reflexivity. }
  split; [exact Hurl |].
  rewrite Hurl. apply append_nonempty_neq.
  destruct (Str.includes baseUrl "?"); discriminate.
Qed.

Lemma buildUrl_all_nullish_witness :
  buildUrl Percent.encode "http://h/p?x=1" (Some [("a", PNull); ("b", PUndefined)])
    = "http://h/p?x=1&"
  /\ buildUrl Percent.encode "http://h/p" (Some [("a", PNull)]) <> "http://h/p".
Proof.
  split.
  - apply (buildUrl_all_nullish Percent.encode "http://h/p?x=1"
             [("a", PNull); ("b", PUndefined)]).
    + discriminate.
    + repeat constructor.
  - apply (buildUrl_all_nullish Percent.encode "http://h/p" [("a", PNull)]).
    + discriminate.
    + repeat constructor.
Defined.

(** ** The URL builder round trip *)

Section RoundTrip.

(** The platform's codec: decoding undoes encoding, and an encoded string
    holds neither of the two separators of a query string. *)
Variables encode decode : string -> string.
Hypothesis decode_encode : forall s, decode (encode s) = s.
Hypothesis encode_clean :
  forall s, Query.mentions "&" (encode s) = false
            /\ Query.mentions "=" (encode s) = false.

Lemma encode_pair_clean (key : string) (x : Scalar) :
  Query.mentions "&" (encode_pair encode key x) = false.
Proof.
  unfold encode_pair. rewrite !mentions_append.
  destruct (encode_clean key) as [-> _].
  destruct (encode_clean (String_of x)) as [-> _]. reflexivity.
Qed.

Lemma encode_pair_nonempty (key : string) (x : Scalar) :
  Str.is_empty (encode_pair encode key x) = false.
Proof.
  unfold encode_pair. destruct (encode key); reflexivity.
Qed.

Lemma cut_encode_pair (key : string) (x : Scalar) :
  Query.cut "=" (encode_pair encode key x) = (encode key, encode (String_of x)).
Proof.
  unfold encode_pair.
  change ("=" ++ encode (String_of x)) with (String "=" (encode (String_of x))).
  apply cut_append. apply encode_clean.
Qed.

Lemma entry_parts_clean (entry : string * ParamValue) :
  Forall (fun p => Query.mentions "&" p = false) (entry_parts encode entry).
Proof.
  destruct entry as [key value]. destruct value; simpl.
  - constructor.
  - constructor.
  - constructor; [apply encode_pair_clean | constructor].
  - apply List.Forall_forall. intros p Hp.
    apply in_map_iff in Hp as (x & <- & _).
    apply encode_pair_clean.
Qed.

Lemma entry_parts_nonempty (entry : string * ParamValue) :
  Forall (fun p => Str.is_empty p = false) (entry_parts encode entry).
Proof.
  destruct entry as [key value]. destruct value; simpl.
  - constructor.
  - constructor.
  - constructor; [apply encode_pair_nonempty | constructor].
  - apply List.Forall_forall. intros p Hp.
    apply in_map_iff in Hp as (x & <- & _).
    apply encode_pair_nonempty.
Qed.

Lemma decode_entry_parts (entry : string * ParamValue) :
  map (fun piece => let '(k, v) := Query.cut "=" piece in (decode k, decode v))
    (entry_parts encode entry)
  = map (fun x => (fst entry, String_of x)) (scalars (snd entry)).
Proof.
  destruct entry as [key value]. destruct value; simpl; try reflexivity.
  - now rewrite cut_encode_pair, !decode_encode.
  - induction items as [|x items IH]; simpl; [reflexivity |].
    now rewrite cut_encode_pair, !decode_encode, IH.
Qed.

Lemma filter_all {A} (f : A -> bool) (l : list A) :
  Forall (fun x => f x = true) l -> List.filter f l = l.
Proof.
  induction 1 as [|x l Hx _ IH]; simpl; [reflexivity |].
  now rewrite Hx, IH.
Qed.

Lemma parts_clean (params : QueryParams) :
  Forall (fun p => Query.mentions "&" p = false)
    (flat_map (entry_parts encode) params).
Proof.
  induction params as [|e ps IH]; simpl; [constructor |].
  apply Forall_app. split; [apply entry_parts_clean | exact IH].
Qed.

Lemma parts_nonempty (params : QueryParams) :
  Forall (fun p => negb (Str.is_empty p) = true)
    (flat_map (entry_parts encode) params).
Proof.
  induction params as [|e ps IH]; simpl; [constructor |].
  apply Forall_app. split; [| exact IH].
  eapply Forall_impl; [apply entry_parts_nonempty |].
  intros p Hp. simpl in Hp. now rewrite Hp.
Qed.

Lemma decode_parts (params : QueryParams) :
  map (fun piece => let '(k, v) := Query.cut "=" piece in (decode k, decode v))
    (flat_map (entry_parts encode) params)
  = param_pairs params.
Proof.
  unfold param_pairs.
  induction params as [|e ps IH]; [reflexivity |].
  simpl. rewrite map_app, IH, decode_entry_parts. reflexivity.
Qed.

Lemma parse_serializeParams (params : QueryParams) :
  Query.parse decode (serializeParams encode params) = param_pairs params.
Proof.
  unfold Query.parse, serializeParams.
  rewrite <- decode_parts.
  pose proof (parts_clean params) as Hclean.
  pose proof (parts_nonempty params) as Hfull.
  destruct (flat_map (entry_parts encode) params) as [|p parts'] eqn:Hparts.
  - reflexivity.
  - rewrite split_join; [| discriminate | exact Hclean].
    now rewrite filter_all by exact Hfull.
Qed.

End RoundTrip.

(** ** Values per key *)






Lemma cut_clean (sep : ascii) (s : string) :
  Query.mentions sep s = false -> Query.cut sep s = (s, "").
Proof.
  induction s as [|x s IH]; simpl; intros H; [reflexivity |].
  apply orb_false_iff in H as [Hx Hs]. now rewrite Hx, (IH Hs).
Qed.

Lemma includes_char (s : string) (c : ascii) :
  Str.includes s (String c "") = Query.mentions c s.
Proof.
  induction s as [|x s IH]; [reflexivity |].
  cbn [Str.includes Query.mentions String.prefix]. rewrite IH.
  destruct (ascii_dec c x) as [-> | Hne].
  - rewrite Ascii.eqb_refl. now destruct s.
  - destruct (Ascii.eqb_spec x c) as [-> | _]; [congruence | reflexivity].
Qed.

Lemma mentions_join (c sep : ascii) (parts : list string) :
  Ascii.eqb sep c = false ->
  Forall (fun p => Query.mentions c p = false) parts ->
  Query.mentions c (Str.join (String sep "") parts) = false.
Proof.
  intros Hsep. induction 1 as [|p parts Hp _ IH]; [reflexivity |].
  destruct parts as [|q parts]; [exact Hp |].
  change (Str.join (String sep "") (p :: q :: parts))
    with (p ++ String sep (Str.join (String sep "") (q :: parts))).
  rewrite mentions_append, Hp. cbn [Query.mentions orb]. now rewrite Hsep, IH.
Qed.







(** ** The byte-level codec satisfies the codec laws *)

Lemma percent_byte (c : ascii) :
  let n := nat_of_ascii c in
  Percent.hex_value (Percent.hex_digit (n / 16)) = Some (n / 16)%nat
  /\ Percent.hex_value (Percent.hex_digit (n mod 16)) = Some (n mod 16)%nat
  /\ ascii_of_nat (16 * (n / 16) + n mod 16) = c.
Proof. destruct c as [[] [] [] [] [] [] [] []]; vm_compute; auto. Qed.

Lemma unreserved_not_percent (c : ascii) :
  Percent.unreserved c = true -> Ascii.eqb c "%" = false.
Proof. destruct c as [[] [] [] [] [] [] [] []]; vm_compute; auto. Qed.

Lemma percent_decode_encode (s : string) : Percent.decode (Percent.encode s) = s.
Proof.
  induction s as [|c s IH]; [reflexivity |].
  cbn [Percent.encode]. destruct (Percent.unreserved c) eqn:Hc.
  - apply unreserved_not_percent in Hc.
    cbn [Percent.decode]. rewrite Hc, IH.
    destruct (Percent.encode s) as [|h [|l r]]; reflexivity.
  - destruct (percent_byte c) as (Hh & Hl & Hback).
    cbn zeta in *. cbn [Percent.decode].
    rewrite Ascii.eqb_refl, Hh, Hl, Hback, IH. reflexivity.
Qed.

Lemma percent_byte_clean (c sep : ascii) :
  sep = "&"%char \/ sep = "="%char \/ sep = "#"%char ->
  if Percent.unreserved c then Ascii.eqb c sep = false
  else Ascii.eqb "%" sep = false
       /\ Ascii.eqb (Percent.hex_digit (nat_of_ascii c / 16)) sep = false
       /\ Ascii.eqb (Percent.hex_digit (nat_of_ascii c mod 16)) sep = false.
Proof.
  intros [-> | [-> | ->]]; destruct c as [[] [] [] [] [] [] [] []];
    vm_compute; auto.
Qed.

Lemma percent_encode_clean_one (sep : ascii) (s : string) :
  sep = "&"%char \/ sep = "="%char \/ sep = "#"%char ->
  Query.mentions sep (Percent.encode s) = false.
Proof.
  intros Hsep. induction s as [|c s IH]; [reflexivity |].
  pose proof (percent_byte_clean c sep Hsep) as Hc.
  cbn [Percent.encode]. destruct (Percent.unreserved c).
  - cbn [Query.mentions]. now rewrite Hc, IH.
  - destruct Hc as (H1 & H2 & H3).
    cbn zeta. cbn [Query.mentions]. now rewrite H1, H2, H3, IH.
Qed.

Lemma percent_encode_clean (s : string) :
  Query.mentions "&" (Percent.encode s) = false
  /\ Query.mentions "=" (Percent.encode s) = false
  /\ Query.mentions "#" (Percent.encode s) = false.
Proof. repeat split; apply percent_encode_clean_one; auto. Qed.


(** ** Reasoning about computations of the pipeline *)


Section Keeps.

Context (R : World -> World -> Prop) `{!PreOrder R}.

Lemma keeps_ret {A} (P : Completion A -> Prop) (a : A) :
  P (Normal a) -> keeps R P (ret a).
Proof. intros HP w. split; [reflexivity | exact HP]. Qed.

Lemma keeps_throw {A} (P : Completion A -> Prop) (e : Thrown) :
  P (Throw e) -> keeps R P (throw e).
Proof. intros HP w. split; [reflexivity | exact HP]. Qed.

Lemma keeps_lift {A} (P : Completion A -> Prop) (c : Completion A) :
  P c -> keeps R P (lift c).
Proof. intros HP w. split; [reflexivity | exact HP]. Qed.

Lemma keeps_bind {A B} (P1 : Completion A -> Prop) (P : Completion B -> Prop)
    (m : M A) (k : A -> M B) :
  keeps R P1 m ->
  (forall a, P1 (Normal a) -> keeps R P (k a)) ->
  (forall e, P1 (Throw e) -> P (Throw e)) ->
  keeps R P (bind m k).
Proof.
  intros Hm Hk He w. unfold bind.
  destruct (Hm w) as [HR HP]. destruct (m w) as [[a | e] w1]; simpl in *.
  - destruct (Hk a HP w1) as [HR' HP']. split; [| exact HP'].
    now transitivity w1.
  - split; [exact HR | now apply He].
Qed.

Lemma keeps_try_catch {A} (P1 P : Completion A -> Prop) (m : M A)
    (handler : Thrown -> M A) :
  keeps R P1 m ->
  (forall a, P1 (Normal a) -> P (Normal a)) ->
  (forall e, P1 (Throw e) -> keeps R P (handler e)) ->
  keeps R P (try_catch m handler).
Proof.
  intros Hm Ha Hh w. unfold try_catch.
  destruct (Hm w) as [HR HP]. destruct (m w) as [[a | e] w1]; simpl in *.
  - split; [exact HR | now apply Ha].
  - destruct (Hh e HP w1) as [HR' HP']. split; [| exact HP'].
    now transitivity w1.
Qed.

Lemma keeps_weaken {A} (P1 P : Completion A -> Prop) (m : M A) :
  keeps R P1 m -> (forall c, P1 c -> P c) -> keeps R P m.
Proof. intros Hm Himp w. destruct (Hm w). split; auto. Qed.

Lemma keeps_read {A} (P : Completion A -> Prop) (f : World -> A) :
  (forall a, P (Normal a)) -> keeps R P (fun w => (Normal (f w), w)).
Proof. intros HP w. split; [reflexivity | apply HP]. Qed.

End Keeps.


(** ** The loop terminates and never raises *)


#[local] Instance unrelated_preorder : PreOrder unrelated.
Proof. split; repeat intro; exact I. Qed.

Lemma keeps_unrelated {A} (m : M A) : keeps unrelated anything m.
Proof. intros w. split; exact I. Qed.


(** Following the spine of a computation: binds are split, branches are
    taken apart, and what remains are the final [ret]s. *)
Ltac spine :=
  repeat first
    [ progress cbv zeta
    | apply keeps_ret
    | eapply (keeps_bind _ anything);
        [ apply keeps_unrelated | intros ? _ | intros ? _ ]
    | match goal with
      | |- keeps _ _ (match ?x with _ => _ end) => destruct x eqn:?
      end ].

Section LoopBasics.

Variable env : Env.
Variable options : FetchOptions.
Variable requestId : string.
Variable startTime : Z.
Variable requestContext : RequestContext.
Variable cacheKey : option string.

#[local] Abbreviation this_try_block :=
  (try_block env options requestId startTime requestContext cacheKey).
#[local] Abbreviation this_catch_block := (catch_block env options requestId startTime).
#[local] Abbreviation this_attempt :=
  (attempt env options requestId startTime requestContext cacheKey).
#[local] Abbreviation this_loop :=
  (dispatch_loop env options requestId startTime requestContext cacheKey).

Lemma try_block_continue (attempts : Z) :
  keeps unrelated (continue_ok options attempts) (this_try_block attempts).
Proof.
  unfold try_block, handle_response, error_branch, success_branch,
    finish_success.
  spine; try exact I; try exact _.
  all: split; [reflexivity |].
  all: match goal with
       | H : _ && (_ <? _) = true |- _ =>
           apply andb_true_iff in H as [_ H]; now apply Z.ltb_lt in H
       end.
Qed.

Lemma catch_block_continue (attempts : Z) (last : JsValue) (e : Thrown) :
  keeps unrelated (continue_ok options attempts) (this_catch_block attempts last e).
Proof.
  unfold catch_block.
  spine; try exact I; try exact _.
  all: split; [reflexivity |].
  all: match goal with
       | H : _ && (_ <? _) = true |- _ =>
           apply andb_true_iff in H as [_ H]; now apply Z.ltb_lt in H
       end.
Qed.

Lemma attempt_continue (attempts : Z) (last : JsValue) :
  keeps unrelated (continue_ok options attempts) (this_attempt attempts last).
Proof.
  unfold attempt.
  eapply (keeps_try_catch _ (continue_ok options attempts)).
  - apply try_block_continue.
  - auto.
  - intros e _. apply catch_block_continue.
Qed.

Lemma catch_block_returns (attempts : Z) (last : JsValue) (e : Thrown) (w : World) :
  exists step w', this_catch_block attempts last e w = (Normal step, w').
Proof.
  unfold catch_block.
  destruct (negb (isAbortError e) && isNetworkError e && (attempts <? retries options));
    [| destruct (isAbortError e)]; cbn; eauto.
Qed.

Lemma attempt_returns (attempts : Z) (last : JsValue) (w : World) :
  exists step w', this_attempt attempts last w = (Normal step, w').
Proof.
  unfold attempt, try_catch.
  destruct (this_try_block attempts w) as [[step | e] w1]; [eauto |].
  apply catch_block_returns.
Qed.

(** With a pass for every retry and one more, the loop returns an outcome:
    it neither runs out of passes nor raises. *)
Lemma dispatch_loop_returns (fuel : nat) (attempts : Z) (last : JsValue) (w : World) :
  retries options - attempts + 1 <= Z.of_nat fuel ->
  exists outcome w',
    this_loop fuel attempts last w = Some (Normal outcome, w').
Proof.
  revert attempts last w.
  induction fuel as [|fuel IH]; intros attempts last w Hfuel.
  - cbn. destruct (attempts <=? retries options) eqn:Hle.
    + apply Z.leb_le in Hle. lia.
    + cbn. eauto.
  - cbn [dispatch_loop].
    destruct (attempts <=? retries options) eqn:Hle; [| cbn; eauto].
    destruct (attempt_returns attempts last w) as (step & w1 & Hstep).
    pose proof (attempt_continue attempts last w) as [_ Hcont].
    rewrite Hstep in *. simpl in Hcont.
    destruct step as [outcome | attempts' last']; [eauto |].
    destruct Hcont as [-> _]. apply IH. lia.
Qed.

End LoopBasics.

(** ** The call as a whole *)

Section Calls.

Variable env : Env.


Lemma prepare_unfold (options : FetchOptions) (w : World) :
  let requestContext := assemble_context env options (next_requestId env w) in
  prepare env options w =
  match opt_onRequest options with
  | Some onRequest =>
      match onRequest requestContext with
      | Normal replaced =>
          (Normal (clock w, next_requestId env w, replaced),
           recorded (EvOnRequest requestContext) (drawn w))
      | Throw e => (Throw e, recorded (EvOnRequest requestContext) (drawn w))
      end
  | None => (Normal (clock w, next_requestId env w, requestContext), drawn w)
  end.
Proof.
  unfold prepare, bind, performance_now, generateRequestId, call, emit, lift, ret.
  cbn. destruct (opt_onRequest options) as [onRequest |]; [| reflexivity].
  cbn. destruct (onRequest _); reflexivity.
Qed.


Lemma run_loop_returns (options : FetchOptions) (requestId : string)
    (startTime : Z) (requestContext : RequestContext) (cacheKey : option string)
    (w : World) :
  exists outcome w',
    run_loop env options requestId startTime requestContext cacheKey w
    = Some (Normal outcome, w').
Proof. unfold run_loop. apply dispatch_loop_returns. lia. Qed.

(** A call that gets past its request phase and its cache probe is the loop,
    started at the first attempt with a pass for every retry and one more. *)
Lemma CustomFetch_loop (options : FetchOptions) (w w1 w2 : World) (startTime : Z)
    (requestId : string) (requestContext : RequestContext) :
  prepare env options w = (Normal (startTime, requestId, requestContext), w1) ->
  cache_probe options (cacheKey_of options requestContext) w1 = (Normal None, w2) ->
  CustomFetch env options w
  = dispatch_loop env options requestId startTime requestContext
      (cacheKey_of options requestContext) (Z.to_nat (retries options + 1)) 0
      (VStr "Maximum retry count reached") w2.
Proof. intros Hprep Hprobe. unfold CustomFetch. now rewrite Hprep, Hprobe. Qed.


End Calls.

(** ** The cache key *)

(** The key under which the engine stores an outcome is never the key that
    [clearSpecificCache] deletes for the same method, URL and body text. *)
Lemma stored_key_mismatch (options : FetchOptions) (requestContext : RequestContext)
    (key : string) :
  cacheKey_of options requestContext = Some key ->
  key <> (method_text (ctx_method requestContext) ++ ":" ++ ctx_url requestContext
          ++ ":" ++ match ctx_body requestContext with
                    | Some (BodyText body) => body
                    | _ => ""
                    end).
Proof.
  unfold cacheKey_of. destruct (cacheResponse options); [| discriminate].
  intros [= <-] Heq.
  apply (f_equal String.length) in Heq.
  repeat (rewrite !length_append in Heq; simpl in Heq). lia.
Qed.

(** C1, the code at the failing input: a cached GET of a URL without a
    body stores its outcome under the key that ends in a dollar sign, so
    [clearSpecificCache(url, "GET", null)], which deletes the key without
    it, leaves the cache as it was and the stored entry in place. *)
Theorem clearSpecificCache_misses_stored_entry :
  let stored :=
    Demo.world_after
      (CustomFetch Demo.env_200 (Demo.cached_get "http://a/") Demo.world0) in
  let cleared := snd (clearSpecificCache "http://a/" (Some GET) None stored) in
  (map_to_list (responseCache stored)).*1 = ["GET:http://a/:$"]
  /\ responseCache cleared = responseCache stored
  /\ responseCache cleared !! "GET:http://a/:" = None
  /\ is_Some (responseCache cleared !! "GET:http://a/:$").
Proof. vm_compute. repeat split; eauto. Qed.

(** ** Attempts *)

Lemma bind_normal {A B} (m : M A) (k : A -> M B) (w w1 : World) (a : A) :
  m w = (Normal a, w1) -> bind m k w = k a w1.
Proof. intros H. unfold bind. now rewrite H. Qed.

Lemma bind_throw {A B} (m : M A) (k : A -> M B) (w w1 : World) (e : Thrown) :
  m w = (Throw e, w1) -> bind m k w = (Throw e, w1).
Proof. intros H. unfold bind. now rewrite H. Qed.

Section Attempts.

Variable env : Env.
Variable options : FetchOptions.
Variable requestId : string.
Variable startTime : Z.
Variable requestContext : RequestContext.
Variable cacheKey : option string.

#[local] Abbreviation this_dispatch := (dispatch env options requestContext).
#[local] Abbreviation this_try_block :=
  (try_block env options requestId startTime requestContext cacheKey).
#[local] Abbreviation this_catch_block := (catch_block env options requestId startTime).
#[local] Abbreviation this_attempt :=
  (attempt env options requestId startTime requestContext cacheKey).
#[local] Abbreviation this_loop :=
  (dispatch_loop env options requestId startTime requestContext cacheKey).


(** A dispatch leaves the cache alone and adds itself to the trace. *)
Lemma dispatch_effect (w w1 : World) (c : Completion Response) :
  this_dispatch w = (c, w1) ->
  responseCache w1 = responseCache w /\ trace w1 = (trace w ++ [dispatched options requestContext])%list.
Proof.
  unfold dispatch, fetch. destruct (settle _ _ _) as [elapsed outcome].
  intros [= <- <-]. split; reflexivity.
Qed.

(** One pass of the loop that returns ends the loop. *)
Lemma dispatch_loop_return (fuel : nat) (attempts : Z) (last : JsValue)
    (w w' : World) (outcome : CustomFetchResult) :
  attempts <= retries options ->
  this_attempt attempts last w = (Normal (Return outcome), w') ->
  this_loop (S fuel) attempts last w = Some (Normal outcome, w').
Proof.
  intros Hle Hstep. cbn [dispatch_loop].
  apply Z.leb_le in Hle. now rewrite Hle, Hstep.
Qed.

(** One pass of the loop that continues hands over to the next pass. *)
Lemma dispatch_loop_continue (fuel : nat) (attempts attempts' : Z)
    (last last' : JsValue) (w w' : World) :
  attempts <= retries options ->
  this_attempt attempts last w = (Normal (Continue attempts' last'), w') ->
  this_loop (S fuel) attempts last w = this_loop fuel attempts' last' w'.
Proof.
  intros Hle Hstep. cbn [dispatch_loop].
  apply Z.leb_le in Hle. now rewrite Hle, Hstep.
Qed.

(** When the dispatch raises, the attempt is what the [catch] block makes of
    the exception. *)
Lemma attempt_dispatch_throws (attempts : Z) (last : JsValue) (w w1 : World)
    (e : Thrown) :
  this_dispatch w = (Throw e, w1) ->
  this_attempt attempts last w = this_catch_block attempts last e w1.
Proof.
  intros Hd. unfold attempt, try_catch, try_block.
  now rewrite (bind_throw _ _ _ _ _ Hd).
Qed.

Lemma catch_block_abort (attempts : Z) (last : JsValue) (e : Thrown) (w : World) :
  isAbortError e = true ->
  this_catch_block attempts last e w
  = (Normal (Return (Failure
       (mkErrorResponse (message_object (VStr "Request timeout")) (Some 408)
          (clock w) requestId (clock w - startTime)
          (if IS_DEV env then Some (error_stack env) else None)))), w).
Proof.
  intros Habort. unfold catch_block. rewrite Habort. reflexivity.
Qed.

(** What the [catch] block returns when it does not retry. *)
Lemma catch_block_final (attempts : Z) (last : JsValue) (e : Thrown) (w : World) :
  negb (isAbortError e) && isNetworkError e && (attempts <? retries options)
  = false ->
  this_catch_block attempts last e w
  = (Normal (Return (Failure
       (mkErrorResponse
          (message_object
             (VStr (if isAbortError e then "Request timeout"
                    else if thrown_is_Error e then thrown_message e
                    else "Unknown error occurred")))
          (if isAbortError e then Some 408 else None)
          (clock w) requestId (clock w - startTime)
          (if IS_DEV env then Some (error_stack env) else None)))), w).
Proof.
  intros Hstop. unfold catch_block. rewrite Hstop.
  destruct (isAbortError e); reflexivity.
Qed.

(** The internal deadline: without an aborted controller of the caller, a
    transport that needs at least [timeout] milliseconds makes the dispatch
    raise the abort exception. *)
Lemma deadline_aborts (w : World) :
  not_aborted options ->
  (match transport env (dispatches (trace w)) (ctx_url requestContext)
           (fetch_init options requestContext) with
   | Responds latency _ | Rejects latency _ => timeout options <= latency
   end) ->
  exists w1, this_dispatch w = (Throw AbortError, w1).
Proof.
  intros Hctl Hslow. unfold dispatch, fetch, settle.
  assert (Hab : match opt_abortController options with
                | Some c => signal_aborted c
                | None => false
                end = false).
  { unfold not_aborted in Hctl.
    destruct (opt_abortController options); [exact Hctl | reflexivity]. }
  rewrite Hab.
  destruct (transport _ _ _ _) as [latency r | latency e0];
    apply Z.leb_le in Hslow; rewrite Hslow; eauto.
Qed.

End Attempts.

(** C4: in whatever state of the loop an attempt is made, if its dispatch
    ends in the abort exception (the one the internal deadline triggers), the
    call ends there and then with a Failure of status 408 and message
    "Request timeout"; the trace grows by that one dispatch only, however many
    retries remain. *)
Theorem timeout_is_final (env : Env) (options : FetchOptions) (requestId : string)
    (startTime : Z) (requestContext : RequestContext) (cacheKey : option string)
    (fuel : nat) (attempts : Z) (last : JsValue) (w w1 : World) (e : Thrown) :
  attempts <= retries options ->
  dispatch env options requestContext w = (Throw e, w1) ->
  isAbortError e = true ->
  exists failure,
    dispatch_loop env options requestId startTime requestContext cacheKey
      (S fuel) attempts last w
    = Some (Normal (Failure failure), w1)
    /\ e_code failure = Some 408
    /\ e_errors failure = message_object (VStr "Request timeout")
    /\ trace w1 = (trace w ++ [dispatched options requestContext])%list.
Proof.
  intros Hle Hd Habort.
  eexists. split; [| split; [| split]].
  - apply dispatch_loop_return; [exact Hle |].
    rewrite (attempt_dispatch_throws _ _ _ _ _ _ _ _ _ _ _ Hd).
    apply catch_block_abort. exact Habort.
  - reflexivity.
  - reflexivity.
  - eapply dispatch_effect, Hd.
Qed.

(** ** What a call may record *)

#[local] Instance grows_preorder (allowed : Event -> bool) : PreOrder (grows allowed).
Proof.
  split.
  - intros w. exists []. split; [now rewrite app_nil_r | reflexivity].
  - intros w1 w2 w3 (evs1 & H1 & Ha1) (evs2 & H2 & Ha2).
    exists (evs1 ++ evs2)%list. split.
    + now rewrite H2, H1, app_assoc.
    + now rewrite forallb_app, Ha1, Ha2.
Qed.

Section Grows.

Variable allowed : Event -> bool.

Lemma grows_same_trace (w w' : World) : trace w' = trace w -> grows allowed w w'.
Proof. intros H. exists []. split; [now rewrite app_nil_r | reflexivity]. Qed.

Lemma grows_one (w w' : World) (ev : Event) :
  trace w' = (trace w ++ [ev])%list -> allowed ev = true -> grows allowed w w'.
Proof. intros H Hev. exists [ev]. split; [exact H | simpl; now rewrite Hev]. Qed.

Lemma keeps_emit (ev : Event) :
  allowed ev = true -> keeps (grows allowed) anything (emit ev).
Proof. intros Hev w. split; [now apply (grows_one _ _ ev) | exact I]. Qed.

Lemma keeps_call {A} (ev : Event) (c : Completion A) :
  allowed ev = true -> keeps (grows allowed) anything (call ev c).
Proof. intros Hev w. split; [now apply (grows_one _ _ ev) | exact I]. Qed.

Lemma keeps_quiet {A} (m : M A) :
  (forall w, trace (snd (m w)) = trace w) -> keeps (grows allowed) anything m.
Proof. intros H w. split; [apply grows_same_trace, H | exact I]. Qed.

Lemma keeps_delay (ms : Z) :
  allowed (EvDelay ms) = true -> keeps (grows allowed) anything (delay ms).
Proof. intros Hev w. split; [now apply (grows_one _ _ (EvDelay ms)) | exact I]. Qed.

Lemma keeps_fetch (env : Env) (controller : option AbortController) (timeout : Z)
    (url : string) (init : FetchInit) :
  allowed (EvDispatch url init) = true ->
  keeps (grows allowed) anything (fetch env controller timeout url init).
Proof.
  intros Hev w. split; [| exact I].
  apply (grows_one _ _ (EvDispatch url init)); [| exact Hev].
  unfold fetch. now destruct (settle _ _ _).
Qed.

End Grows.

(** Every sub-computation is visited: binds are split on both sides, branches
    are taken apart, named steps are opened, and the primitive steps are
    closed by the lemmas above. *)
Ltac visit :=
  repeat first
    [ progress cbv zeta
    | apply keeps_ret; exact I
    | apply keeps_lift; exact I
    | apply keeps_emit
    | apply keeps_call
    | apply keeps_delay
    | apply keeps_fetch
    | apply keeps_quiet; intros ?; reflexivity
    | eapply (keeps_bind _ anything); [ | intros ? _ | intros ? _; exact I ]
    | match goal with
      | |- keeps _ _ (match ?x with _ => _ end) => destruct x eqn:?
      end
    | progress unfold createErrorResponse, createSuccessResponse, makeError,
        parseResponseBody, dispatch ].

Section CallGrows.

Variable env : Env.
Variable options : FetchOptions.

#[local] Abbreviation allowed := (allowed_events options).

Lemma allowed_transformer (raw : JsValue) :
  opt_responseGuard options = None ->
  allowed (EvResponseTransformer raw) = true.
Proof. intros H. unfold allowed_events. now rewrite H. Qed.

Lemma handle_response_grows (requestId : string) (startTime : Z)
    (requestContext : RequestContext) (cacheKey : option string) (attempts : Z)
    (response : Response) :
  keeps (grows allowed) anything
    (handle_response env options requestId startTime requestContext cacheKey
       attempts response).
Proof.
  unfold handle_response, error_branch, success_branch, finish_success.
  visit; try exact _; try reflexivity.
  all: now apply allowed_transformer.
Qed.

Lemma try_block_grows (requestId : string) (startTime : Z)
    (requestContext : RequestContext) (cacheKey : option string) (attempts : Z) :
  keeps (grows allowed) anything
    (try_block env options requestId startTime requestContext cacheKey attempts).
Proof.
  unfold try_block.
  eapply (keeps_bind _ anything).
  - apply keeps_fetch. reflexivity.
  - intros response _. apply handle_response_grows.
  - auto.
Qed.

Lemma catch_block_grows (requestId : string) (startTime : Z) (attempts : Z)
    (last : JsValue) (e : Thrown) :
  keeps (grows allowed) anything
    (catch_block env options requestId startTime attempts last e).
Proof.
  unfold catch_block.
  visit; try exact _; try reflexivity.
Qed.

Lemma attempt_grows (requestId : string) (startTime : Z)
    (requestContext : RequestContext) (cacheKey : option string) (attempts : Z)
    (last : JsValue) :
  keeps (grows allowed) anything
    (attempt env options requestId startTime requestContext cacheKey attempts last).
Proof.
  unfold attempt.
  eapply (keeps_try_catch _ anything anything).
  - apply try_block_grows.
  - auto.
  - intros e _. apply catch_block_grows.
Qed.

Lemma dispatch_loop_grows (requestId : string) (startTime : Z)
    (requestContext : RequestContext) (cacheKey : option string) (fuel : nat)
    (attempts : Z) (last : JsValue) (w w' : World)
    (c : Completion CustomFetchResult) :
  dispatch_loop env options requestId startTime requestContext cacheKey
    fuel attempts last w = Some (c, w') ->
  grows allowed w w'.
Proof.
  revert attempts last w.
  induction fuel as [|fuel IH]; intros attempts last w; cbn [dispatch_loop].
  - destruct (attempts <=? retries options); [discriminate |].
    intros [= <- <-]. apply grows_same_trace. reflexivity.
  - destruct (attempts <=? retries options).
    + pose proof (attempt_grows requestId startTime requestContext cacheKey
                    attempts last w) as [Hg _].
      destruct (attempt _ _ _ _ _ _ _ _ w) as [[[outcome | attempts' last'] | e] w1];
        simpl in Hg.
      * now intros [= <- <-].
      * intros Hrest. transitivity w1; [exact Hg | eapply IH, Hrest].
      * now intros [= <- <-].
    + intros [= <- <-]. apply grows_same_trace. reflexivity.
Qed.

(** A pass of the loop starts with the dispatch: whatever the loop records
    from there on comes after it. *)
Lemma dispatch_loop_starts (requestId : string) (startTime : Z)
    (requestContext : RequestContext) (cacheKey : option string) (fuel : nat)
    (attempts : Z) (last : JsValue) (w w' : World)
    (c : Completion CustomFetchResult) :
  attempts <= retries options ->
  dispatch_loop env options requestId startTime requestContext cacheKey
    fuel attempts last w = Some (c, w') ->
  exists evs,
    trace w' = (trace w ++ dispatched options requestContext :: evs)%list.
Proof.
  intros Hle. apply Z.leb_le in Hle.
  destruct fuel as [|fuel]; cbn [dispatch_loop]; rewrite Hle; [discriminate |].
  assert (Hafter : exists w1 w2 step,
             trace w1 = (trace w ++ [dispatched options requestContext])%list
             /\ grows allowed w1 w2
             /\ attempt env options requestId startTime requestContext cacheKey
                  attempts last w = (step, w2)).
  { unfold attempt, try_catch, try_block, bind.
    destruct (dispatch env options requestContext w) as [[response | e] w1] eqn:Hd;
      destruct (dispatch_effect _ _ _ _ _ _ Hd) as [_ Ht].
    - pose proof (handle_response_grows requestId startTime requestContext
                    cacheKey attempts response w1) as [Hg _].
      destruct (handle_response _ _ _ _ _ _ _ _ w1) as [[step | e] w2];
        simpl in Hg.
      + exists w1, w2, (Normal step). auto.
      + pose proof (catch_block_grows requestId startTime attempts last e w2)
          as [Hg' _].
        destruct (catch_block _ _ _ _ _ _ _ w2) as [step w3]; simpl in Hg'.
        exists w1, w3, step. split; [exact Ht |].
        split; [now transitivity w2 | reflexivity].
    - pose proof (catch_block_grows requestId startTime attempts last e w1)
        as [Hg _].
      destruct (catch_block _ _ _ _ _ _ _ w1) as [step w2]; simpl in Hg.
      exists w1, w2, step. auto. }
  destruct Hafter as (w1 & w2 & step & Ht & Hg & Hstep). rewrite Hstep.
  assert (Hend : grows allowed w2 w' ->
                 exists evs,
                   trace w' = (trace w ++ dispatched options requestContext :: evs)%list).
  { intros Hg2. destruct (transitivity Hg Hg2) as (evs & Hevs & _).
    exists evs. now rewrite Hevs, Ht, <- app_assoc. }
  destruct step as [[outcome | attempts' last'] | e].
  - intros [= <- <-]. apply Hend. reflexivity.
  - intros Hrest. apply Hend. eapply dispatch_loop_grows, Hrest.
  - intros [= <- <-]. apply Hend. reflexivity.
Qed.

Lemma prepare_grows : keeps (grows allowed) anything (prepare env options).
Proof.
  unfold prepare, generateRequestId, performance_now.
  visit; try exact _; try reflexivity.
Qed.

Lemma cache_probe_grows (cacheKey : option string) :
  keeps (grows allowed) anything (cache_probe options cacheKey).
Proof.
  unfold cache_probe.
  visit; try exact _; try reflexivity.
Qed.

(** Whatever a call records is allowed by its options. *)
Lemma CustomFetch_grows (w w' : World) (c : Completion CustomFetchResult) :
  CustomFetch env options w = Some (c, w') -> grows allowed w w'.
Proof.
  unfold CustomFetch.
  pose proof (prepare_grows w) as [Hp _].
  destruct (prepare env options w) as [[[[startTime requestId] requestContext] | e] w1];
    simpl in Hp; [| now intros [= <- <-]].
  pose proof (cache_probe_grows (cacheKey_of options requestContext) w1) as [Hc _].
  destruct (cache_probe _ _ w1) as [[[cached |] | e] w2]; simpl in Hc.
  - intros [= <- <-]. now transitivity w1.
  - intros Hloop. unfold run_loop in Hloop. apply dispatch_loop_grows in Hloop.
    transitivity w1; [exact Hp |]. now transitivity w2.
  - intros [= <- <-]. now transitivity w1.
Qed.

End CallGrows.

Lemma forallb_weaken {A} (f g : A -> bool) (l : list A) :
  (forall x, f x = true -> g x = true) ->
  forallb f l = true -> forallb g l = true.
Proof.
  intros Himp. induction l as [|x l IH]; simpl; [reflexivity |].
  intros H. apply andb_true_iff in H as [Hx Hl].
  now rewrite (Himp x Hx), (IH Hl).
Qed.

(** ** Paths of an attempt *)

(** Evaluation of the pipeline's primitive steps on a symbolic world. *)
Ltac evaluate :=
  unfold bind, try_catch, performance_now, Date_now, call, emit, lift, ret, delay,
    advance, cache_set, cache_get, cache_delete, createErrorResponse,
    createSuccessResponse, makeError;
  cbn.

(** Evaluation along a path: the facts at hand about the callbacks are used
    wherever the pipeline consults them. *)
Ltac drive :=
  repeat first
    [ progress cbn
    | match goal with
      | H : ?x = _ |- context [?x] => rewrite H
      end ].

Section Paths.

Variable env : Env.
Variable options : FetchOptions.
Variable requestId : string.
Variable startTime : Z.
Variable requestContext : RequestContext.
Variable cacheKey : option string.

#[local] Abbreviation this_dispatch := (dispatch env options requestContext).
#[local] Abbreviation this_attempt :=
  (attempt env options requestId startTime requestContext cacheKey).


Lemma response_guard_path (attempts : Z) (last : JsValue) (w w1 : World)
    (response : Response) (text : string)
    (responseGuard : JsValue -> Completion bool) :
  this_dispatch w = (Normal response, w1) ->
  status_verdict options response = Normal true ->
  is_binary response = false ->
  r_body response = Normal text ->
  opt_responseGuard options = Some responseGuard ->
  responseGuard (body_value env response text) = Normal false ->
  exists w',
    this_attempt attempts last w
    = (Normal (Return (Failure
         (rejection env requestId startTime "Response validation failed"
            (r_status response) w1))), w')
    /\ responseCache w' = responseCache w1
    /\ exists evs, trace w' = (trace w1 ++ evs)%list
                   /\ forallb (fun ev => negb (is_onResponse ev)) evs = true.
Proof.
  intros Hd Hstatus Hbin Hbody Hopt Hguard.
  unfold attempt, try_catch, try_block. rewrite (bind_normal _ _ _ _ _ Hd).
  unfold handle_response.
  unfold status_verdict in Hstatus. unfold is_binary, content_type in Hbin.
  unfold body_value, content_type in Hguard.
  unfold success_branch, parseResponseBody.
  destruct (opt_validateStatus options) as [validateStatus |];
    evaluate; try injection Hstatus as Hstatus;
    rewrite Hstatus; cbn; rewrite Hbin, Hbody; cbn; rewrite Hopt; cbn;
    rewrite Hguard; cbn;
    (eexists; split; [reflexivity |]; split; [reflexivity |]);
    rewrite <- ?app_assoc; eexists; split; reflexivity.
Qed.

Lemma error_guard_path (attempts : Z) (last : JsValue) (w w1 : World)
    (response : Response) (text : string) (errorData : JsValue)
    (errorGuard : JsValue -> Completion bool) :
  this_dispatch w = (Normal response, w1) ->
  status_verdict options response = Normal false ->
  r_body response = Normal text ->
  errorData_of env (body_value env response text) = Normal errorData ->
  opt_errorGuard options = Some errorGuard ->
  errorGuard errorData = Normal false ->
  exists w',
    this_attempt attempts last w
    = (Normal (Return (Failure
         (rejection env requestId startTime "Error validation failed"
            (r_status response) w1))), w')
    /\ responseCache w' = responseCache w1
    /\ exists evs, trace w' = (trace w1 ++ evs)%list
                   /\ forallb (fun ev => negb (is_onResponse ev)) evs = true.
Proof.
  intros Hd Hstatus Hbody Hdata Hopt Hguard.
  unfold attempt, try_catch, try_block. rewrite (bind_normal _ _ _ _ _ Hd).
  unfold handle_response.
  unfold status_verdict in Hstatus. unfold body_value, content_type in Hdata.
  unfold error_branch, parseResponseBody.
  destruct (opt_validateStatus options) as [validateStatus |];
    evaluate; try injection Hstatus as Hstatus;
    rewrite Hstatus; cbn; rewrite Hbody; cbn; rewrite Hdata; cbn;
    rewrite Hopt; cbn; rewrite Hguard; cbn;
    (eexists; split; [reflexivity |]; split; [reflexivity |]);
    rewrite <- ?app_assoc; eexists; split; reflexivity.
Qed.

Lemma transport_exception_path (attempts : Z) (last : JsValue) (w w1 : World)
    (e : Thrown) :
  this_dispatch w = (Throw e, w1) ->
  negb (isAbortError e) && isNetworkError e && (attempts <? retries options)
  = false ->
  exists failure,
    this_attempt attempts last w = (Normal (Return (Failure failure)), w1).
Proof.
  intros Hd Hstop.
  rewrite (attempt_dispatch_throws _ _ _ _ _ _ _ _ _ _ _ Hd).
  unfold catch_block. rewrite Hstop.
  destruct (isAbortError e); evaluate; eauto.
Qed.

Lemma body_read_path (attempts : Z) (last : JsValue) (w w1 : World)
    (response : Response) (accepted : bool) (e : Thrown) :
  this_dispatch w = (Normal response, w1) ->
  status_verdict options response = Normal accepted ->
  r_body response = Throw e ->
  negb (isAbortError e) && isNetworkError e && (attempts <? retries options)
  = false ->
  exists failure w',
    this_attempt attempts last w = (Normal (Return (Failure failure)), w')
    /\ responseCache w' = responseCache w1
    /\ exists evs, trace w' = (trace w1 ++ evs)%list
                   /\ forallb (fun ev => negb (is_onResponse ev)) evs = true.
Proof.
  intros Hd Hstatus Hbody Hstop.
  unfold attempt, try_catch, try_block. rewrite (bind_normal _ _ _ _ _ Hd).
  unfold handle_response.
  unfold status_verdict in Hstatus.
  unfold error_branch, success_branch, parseResponseBody.
  destruct (opt_validateStatus options) as [validateStatus |];
    try injection Hstatus as Hstatus;
    destruct accepted;
    evaluate; drive;
    try destruct (isBinaryContentType _);
    drive;
    rewrite (catch_block_final env options requestId startTime attempts last e _
               Hstop);
    (do 2 eexists; split; [reflexivity |]; split; [reflexivity |]);
    cbn; first [ exists []; split; [now rewrite app_nil_r | reflexivity]
               | eexists; split; reflexivity ].
Qed.

End Paths.

(** C10: in whatever state of the loop an attempt is made, if it ends by
    an error-guard rejection, a response-guard rejection or an exception of
    the transport (at the dispatch or while the body is read) that is not
    retried, the call returns the Failure directly:
    from the start of the attempt on, the response interceptor is not invoked
    and the cache is left as it was, also when a cache key is present. *)
Theorem direct_failure_bypasses (env : Env) (options : FetchOptions)
    (requestId : string) (startTime : Z) (requestContext : RequestContext)
    (cacheKey : option string) (fuel : nat) (attempts : Z) (last : JsValue)
    (w : World) :
  attempts <= retries options ->
  direct_failure env options requestContext attempts w ->
  exists failure w' evs,
    dispatch_loop env options requestId startTime requestContext cacheKey
      (S fuel) attempts last w
    = Some (Normal (Failure failure), w')
    /\ responseCache w' = responseCache w
    /\ trace w' = (trace w ++ evs)%list
    /\ forallb (fun ev => negb (is_onResponse ev)) evs = true.
Proof.
  intros Hle Hpath.
  destruct Hpath as
    [response w1 text errorData errorGuard Hd Hstatus Hbody Hdata Hopt Hguard
    | response w1 text responseGuard Hd Hstatus Hbin Hbody Hopt Hguard
    | e w1 Hd Hstop
    | response w1 accepted e Hd Hstatus Hbody Hstop];
    destruct (dispatch_effect _ _ _ _ _ _ Hd) as [Hcache Htrace].
  - destruct (error_guard_path env options requestId startTime requestContext
                cacheKey attempts last w w1 response text errorData errorGuard
                Hd Hstatus Hbody Hdata Hopt Hguard)
      as (w' & Hstep & Hc & evs & Ht & Hquiet).
    eexists. exists w', (dispatched options requestContext :: evs).
    split; [apply dispatch_loop_return; [exact Hle | exact Hstep] |].
    split; [congruence |].
    split; [rewrite Ht, Htrace, <- app_assoc; reflexivity | exact Hquiet].
  - destruct (response_guard_path env options requestId startTime requestContext
                cacheKey attempts last w w1 response text responseGuard
                Hd Hstatus Hbin Hbody Hopt Hguard)
      as (w' & Hstep & Hc & evs & Ht & Hquiet).
    eexists. exists w', (dispatched options requestContext :: evs).
    split; [apply dispatch_loop_return; [exact Hle | exact Hstep] |].
    split; [congruence |].
    split; [rewrite Ht, Htrace, <- app_assoc; reflexivity | exact Hquiet].
  - destruct (transport_exception_path env options requestId startTime
                requestContext cacheKey attempts last w w1 e Hd Hstop)
      as (failure & Hstep).
    exists failure, w1, [dispatched options requestContext].
    split; [apply dispatch_loop_return; [exact Hle | exact Hstep] |].
    split; [exact Hcache |]. split; [exact Htrace | reflexivity].
  - destruct (body_read_path env options requestId startTime requestContext
                cacheKey attempts last w w1 response accepted e
                Hd Hstatus Hbody Hstop)
      as (failure & w' & Hstep & Hc & evs & Ht & Hquiet).
    exists failure, w', (dispatched options requestContext :: evs).
    split; [apply dispatch_loop_return; [exact Hle | exact Hstep] |].
    split; [congruence |].
    split; [rewrite Ht, Htrace, <- app_assoc; reflexivity | exact Hquiet].
Qed.

(** ** The response interceptor *)

Section Interception.

Variable env : Env.
Variable options : FetchOptions.
Variable requestId : string.
Variable startTime : Z.
Variable requestContext : RequestContext.
Variable cacheKey : option string.

#[local] Abbreviation this_attempt :=
  (attempt env options requestId startTime requestContext cacheKey).

Lemma terminal_failure_path (attempts : Z) (last : JsValue) (w w1 : World)
    (response : Response) (text : string) (errorData transformedError : JsValue)
    (onResponse : ResponseContext -> Completion CustomFetchResult)
    (replaced : CustomFetchResult) :
  let original :=
    Failure (mkErrorResponse transformedError (Some (r_status response))
               (clock w1) requestId (clock w1 - startTime)
               (if IS_DEV env then Some (error_stack env) else None)) in
  dispatch env options requestContext w = (Normal response, w1) ->
  status_verdict options response = Normal false ->
  r_body response = Normal text ->
  errorData_of env (body_value env response text) = Normal errorData ->
  error_guard_verdict options errorData = Normal true ->
  error_transformed options errorData (r_status response) = Normal transformedError ->
  retryable (r_status response) && (attempts <? retries options) = false ->
  opt_onResponse options = Some onResponse ->
  onResponse (mkResponseContext requestContext original (clock w1 - startTime))
  = Normal replaced ->
  exists w',
    this_attempt attempts last w = (Normal (Return (intercepted original replaced)), w').
Proof.
  intros original Hd Hstatus Hbody Hdata Hguard Htrans Hretry Hopt Hresp.
  subst original.
  unfold attempt, try_catch, try_block. rewrite (bind_normal _ _ _ _ _ Hd).
  unfold handle_response.
  unfold status_verdict in Hstatus. unfold body_value, content_type in Hdata.
  unfold error_guard_verdict in Hguard. unfold error_transformed in Htrans.
  unfold retryable in Hretry.
  unfold error_branch, parseResponseBody.
  destruct (opt_validateStatus options) as [validateStatus |];
    destruct (opt_errorGuard options) as [errorGuard |];
    destruct (opt_errorTransformer options) as [errorTransformer |];
    destruct cacheKey as [key |];
    try injection Hstatus as Hstatus; try injection Htrans as Htrans;
    evaluate; drive;
    try destruct ((400 <=? r_status response) && (r_status response <? 500));
    cbn; destruct replaced; eexists; reflexivity.
Qed.

Lemma terminal_success_path (attempts : Z) (last : JsValue) (w w1 : World)
    (response : Response) (payload : JsValue)
    (onResponse : ResponseContext -> Completion CustomFetchResult)
    (replaced : CustomFetchResult) :
  let original :=
    Success (mkSuccessResponse payload (r_status response) (clock w1)
               (collect_headers response) requestId (clock w1 - startTime)) in
  dispatch env options requestContext w = (Normal response, w1) ->
  status_verdict options response = Normal true ->
  success_payload env options response payload ->
  opt_onResponse options = Some onResponse ->
  onResponse (mkResponseContext requestContext original (clock w1 - startTime))
  = Normal replaced ->
  exists w',
    this_attempt attempts last w = (Normal (Return (intercepted original replaced)), w').
Proof.
  intros original Hd Hstatus Hpayload Hopt Hresp.
  subst original.
  unfold attempt, try_catch, try_block. rewrite (bind_normal _ _ _ _ _ Hd).
  unfold handle_response.
  unfold status_verdict in Hstatus.
  unfold success_branch, finish_success, parseResponseBody.
  destruct Hpayload as
    [bytes Hbin Hbody
    | text responseGuard Hbin Hbody Hg Hpass
    | text responseTransformer payload Hbin Hbody Hg Ht Hobj Hpayload
    | text Hbin Hbody Hg Hplain];
    unfold is_binary, body_value, content_type in *.
  - destruct (opt_validateStatus options) as [validateStatus |];
      destruct cacheKey as [key |];
      try injection Hstatus as Hstatus;
      evaluate; drive; destruct replaced; eexists; reflexivity.
  - destruct (opt_validateStatus options) as [validateStatus |];
      destruct cacheKey as [key |];
      try injection Hstatus as Hstatus;
      evaluate; drive; destruct replaced; eexists; reflexivity.
  - destruct (opt_validateStatus options) as [validateStatus |];
      destruct cacheKey as [key |];
      try injection Hstatus as Hstatus;
      evaluate; drive; destruct replaced; eexists; reflexivity.
  - destruct (opt_validateStatus options) as [validateStatus |];
      destruct cacheKey as [key |];
      try injection Hstatus as Hstatus;
      destruct Hplain as [Ht | Hobj];
      evaluate; drive;
      try destruct (opt_responseTransformer options);
      drive; destruct replaced; eexists; reflexivity.
Qed.


End Interception.

(** ** What an attempt stores *)

Section Stores.

Variable env : Env.
Variable options : FetchOptions.
Variable requestId : string.
Variable startTime : Z.
Variable requestContext : RequestContext.
Variable cacheKey : option string.

(** An attempt that reaches a terminal outcome returns what the response
    interceptor makes of it and stores just that, under the key of the call,
    when the outcome is one the engine stores. *)
Lemma terminal_store (attempts : Z) (last : JsValue) (w : World)
    (original returned : CustomFetchResult) :
  terminal_outcome env options requestId startTime requestContext attempts w
    original ->
  interception options requestContext original = Normal returned ->
  exists w',
    attempt env options requestId startTime requestContext cacheKey attempts last w
    = (Normal (Return returned), w')
    /\ responseCache w'
       = match cacheKey with
         | Some key =>
             if cacheable original
             then <[key := mkCacheItem returned (clock w')]> (responseCache w)
             else responseCache w
         | None => responseCache w
         end.
Proof.
  intros Hterm Hresp. unfold interception in Hresp.
  destruct Hterm as
    [response w1 text errorData transformedError
       Hd Hstatus Hbody Hdata Hguard Htrans Hretry
    | response w1 payload Hd Hstatus Hpayload];
    destruct (dispatch_effect _ _ _ _ _ _ Hd) as [Hcache _];
    unfold attempt, try_catch, try_block; rewrite (bind_normal _ _ _ _ _ Hd);
    unfold handle_response; unfold status_verdict in Hstatus; cbn in Hresp.
  - unfold body_value, content_type in Hdata.
    unfold error_guard_verdict in Hguard. unfold error_transformed in Htrans.
    unfold retryable in Hretry.
    unfold error_branch, parseResponseBody.
    destruct (opt_onResponse options) as [onResponse |];
      [destruct (onResponse _) as [replaced | e] eqn:Hcall; [| discriminate] |];
      injection Hresp as <-;
      destruct (opt_validateStatus options) as [validateStatus |];
      destruct (opt_errorGuard options) as [errorGuard |];
      destruct (opt_errorTransformer options) as [errorTransformer |];
      destruct cacheKey as [key |];
      try injection Hstatus as Hstatus; try injection Htrans as Htrans;
      evaluate; drive;
      try destruct ((400 <=? r_status response) && (r_status response <? 500));
      cbn; try destruct replaced; eexists; (split; [reflexivity |]);
      cbn; rewrite ?Hcache; reflexivity.
  - unfold success_branch, finish_success, parseResponseBody.
    destruct Hpayload as
      [bytes Hbin Hbody
      | text responseGuard Hbin Hbody Hg Hpass
      | text responseTransformer payload Hbin Hbody Hg Ht Hobj Hpayload
      | text Hbin Hbody Hg Hplain];
      unfold is_binary, body_value, content_type in *;
      (destruct (opt_onResponse options) as [onResponse |];
       [destruct (onResponse _) as [replaced | e] eqn:Hcall; [| discriminate] |]);
      injection Hresp as <-;
      destruct (opt_validateStatus options) as [validateStatus |];
      destruct cacheKey as [key |];
      try injection Hstatus as Hstatus;
      try (destruct Hplain as [Ht | Hobj]);
      evaluate; drive;
      try destruct (opt_responseTransformer options);
      drive; try destruct replaced; eexists; (split; [reflexivity |]);
      cbn; rewrite ?Hcache; reflexivity.
Qed.

End Stores.

(** ** The response guard *)

(** C7: with a response guard configured, in whatever state of the loop
    an attempt is made, if its dispatch brings a response whose status is
    accepted and that is not binary, then (1) if the guard returns false on
    the parsed body, the call returns a Failure with message "Response
    validation failed" and the status code of the response; (2) if the guard
    returns true, the outcome of the attempt is the Success whose payload is
    the parsed body as it is: that Success is what the response interceptor
    is given, and the call returns what the interceptor leaves of it (the
    Success itself without an interceptor); and (3) no call applies the
    response transformer. *)
Theorem response_guard_decides (env : Env) (options : FetchOptions)
    (responseGuard : JsValue -> Completion bool) :
  opt_responseGuard options = Some responseGuard ->
  (forall requestId startTime requestContext cacheKey fuel attempts last w w1
          response text,
      attempts <= retries options ->
      dispatch env options requestContext w = (Normal response, w1) ->
      status_verdict options response = Normal true ->
      is_binary response = false ->
      r_body response = Normal text ->
      responseGuard (body_value env response text) = Normal false ->
      exists failure w',
        dispatch_loop env options requestId startTime requestContext cacheKey
          (S fuel) attempts last w
        = Some (Normal (Failure failure), w')
        /\ e_errors failure = message_object (VStr "Response validation failed")
        /\ e_code failure = Some (r_status response))
  /\ (forall requestId startTime requestContext cacheKey fuel attempts last w w1
             response text returned,
        attempts <= retries options ->
        dispatch env options requestContext w = (Normal response, w1) ->
        status_verdict options response = Normal true ->
        is_binary response = false ->
        r_body response = Normal text ->
        responseGuard (body_value env response text) = Normal true ->
        interception options requestContext
          (Success (mkSuccessResponse (body_value env response text)
                      (r_status response) (clock w1) (collect_headers response)
                      requestId (clock w1 - startTime)))
        = Normal returned ->
        exists w' evs,
          dispatch_loop env options requestId startTime requestContext cacheKey
            (S fuel) attempts last w
          = Some (Normal returned, w')
          /\ trace w' = (trace w ++ evs)%list
          /\ forallb (fun ev => negb (is_responseTransformer ev)) evs = true)
  /\ (forall w c w',
        CustomFetch env options w = Some (c, w') ->
        exists evs,
          trace w' = (trace w ++ evs)%list
          /\ forallb (fun ev => negb (is_responseTransformer ev)) evs = true).
Proof.
  intros Hopt.
  assert (Hidle : forall evs,
             forallb (allowed_events options) evs = true ->
             forallb (fun ev => negb (is_responseTransformer ev)) evs = true).
  { intros evs. apply forallb_weaken. intros ev. destruct ev; try reflexivity.
    unfold allowed_events. now rewrite Hopt. }
  split; [| split].
  - intros requestId startTime requestContext cacheKey fuel attempts last w w1
      response text Hle Hd Hstatus Hbin Hbody Hguard.
    destruct (response_guard_path env options requestId startTime requestContext
                cacheKey attempts last w w1 response text responseGuard
                Hd Hstatus Hbin Hbody Hopt Hguard) as (w' & Hstep & _).
    eexists. exists w'. split; [| split].
    + apply dispatch_loop_return; [exact Hle | exact Hstep].
    + reflexivity.
    + reflexivity.
  - intros requestId startTime requestContext cacheKey fuel attempts last w w1
      response text returned Hle Hd Hstatus Hbin Hbody Hguard Hresp.
    destruct (terminal_store env options requestId startTime requestContext
                cacheKey attempts last w _ returned
                (terminal_success env options requestId startTime requestContext
                   attempts w response w1 (body_value env response text)
                   Hd Hstatus
                   (payload_guarded env options response text responseGuard
                      Hbin Hbody Hopt Hguard))
                Hresp)
      as (w' & Hstep & _).
    assert (Hloop : dispatch_loop env options requestId startTime requestContext
                      cacheKey (S fuel) attempts last w
                    = Some (Normal returned, w'))
      by (apply dispatch_loop_return; [exact Hle | exact Hstep]).
    destruct (dispatch_loop_grows env options requestId startTime requestContext
                cacheKey (S fuel) attempts last w w' _ Hloop)
      as (evs & Htrace & Hall).
    exists w', evs. auto.
  - intros w c w' Hcall.
    destruct (CustomFetch_grows env options w w' c Hcall) as (evs & Htrace & Hall).
    exists evs. auto.
Qed.


(** C2 (as amended): in whatever state of the loop an attempt reaches a
    terminal outcome with a response interceptor configured, the call's result
    is the outcome the interceptor returns when that outcome is of the same
    variant as the terminal one; an outcome of the opposite variant is
    dropped and the terminal outcome itself is the result. *)
Theorem interceptor_keeps_variant (env : Env) (options : FetchOptions)
    (requestId : string) (startTime : Z) (requestContext : RequestContext)
    (cacheKey : option string) (fuel : nat) (attempts : Z) (last : JsValue)
    (w : World) (original replaced : CustomFetchResult)
    (onResponse : ResponseContext -> Completion CustomFetchResult) :
  attempts <= retries options ->
  terminal_outcome env options requestId startTime requestContext attempts w
    original ->
  opt_onResponse options = Some onResponse ->
  onResponse (mkResponseContext requestContext original (durationMs_of original))
  = Normal replaced ->
  exists w',
    dispatch_loop env options requestId startTime requestContext cacheKey
      (S fuel) attempts last w
    = Some (Normal (intercepted original replaced), w').
Proof.
  intros Hle Hterminal Hopt Hresp.
  destruct Hterminal as
    [response w1 text errorData transformedError Hd Hstatus Hbody Hdata Hguard
       Htrans Hretry
    | response w1 payload Hd Hstatus Hpayload]; simpl in Hresp.
  - destruct (terminal_failure_path env options requestId startTime requestContext
                cacheKey attempts last w w1 response text errorData
                transformedError onResponse replaced
                Hd Hstatus Hbody Hdata Hguard Htrans Hretry Hopt Hresp)
      as (w' & Hstep).
    exists w'. apply dispatch_loop_return; [exact Hle | exact Hstep].
  - destruct (terminal_success_path env options requestId startTime requestContext
                cacheKey attempts last w w1 response payload onResponse replaced
                Hd Hstatus Hpayload Hopt Hresp)
      as (w' & Hstep).
    exists w'. apply dispatch_loop_return; [exact Hle | exact Hstep].
Qed.

(** ** Exceptions of the interceptors *)




(** ** The cache probe *)

Section Probe.

Variable env : Env.
Variable options : FetchOptions.

(** The request phase leaves the cache alone and records at most the call
    of the request interceptor. *)
Lemma prepare_effect (w w1 : World) (c : Completion (Z * string * RequestContext)) :
  prepare env options w = (c, w1) ->
  responseCache w1 = responseCache w
  /\ exists evs, trace w1 = (trace w ++ evs)%list /\ forallb is_onRequest evs = true.
Proof.
  rewrite prepare_unfold. cbv zeta.
  destruct (opt_onRequest options) as [onRequest |].
  - destruct (onRequest _); intros [= <- <-];
      (split; [reflexivity |]); eexists; split; reflexivity.
  - intros [= <- <-]. split; [reflexivity |].
    exists []. split; [simpl; now rewrite app_nil_r | reflexivity].
Qed.

Lemma cache_probe_live (key : string) (item : CacheItem) (w : World) :
  responseCache w !! key = Some item ->
  clock w - ci_timestamp item < cacheTime options ->
  cache_probe options (Some key) w = (Normal (Some (ci_data item)), w).
Proof.
  intros Hitem Hlive. unfold cache_probe, bind, cache_get, Date_now, ret.
  rewrite Hitem. apply Z.ltb_lt in Hlive. now rewrite Hlive.
Qed.

Lemma cache_probe_stale (key : string) (item : CacheItem) (w : World) :
  responseCache w !! key = Some item ->
  cacheTime options <= clock w - ci_timestamp item ->
  cache_probe options (Some key) w = (Normal None, evicted key w).
Proof.
  intros Hitem Hstale. unfold cache_probe, bind, cache_get, Date_now, ret.
  rewrite Hitem. apply Z.ltb_ge in Hstale. now rewrite Hstale.
Qed.

End Probe.

(** C6: take a call with caching enabled whose request phase has
    completed and whose cache key has a stored entry. If the entry is younger
    than [cacheTime], the call returns the stored outcome at once: since the
    call began nothing but the request interceptor was invoked (no dispatch,
    no sleep, no response interceptor) and the cache is as it was. If the
    entry is at least [cacheTime] old, it is deleted from the cache and the
    call goes on with the dispatch loop in that world; with a retry budget
    that is not negative, the next effect is the dispatch. *)
Theorem cache_probe_decides (env : Env) (options : FetchOptions) (w w1 : World)
    (startTime : Z) (requestId : string) (requestContext : RequestContext)
    (key : string) (item : CacheItem) :
  prepare env options w = (Normal (startTime, requestId, requestContext), w1) ->
  cacheKey_of options requestContext = Some key ->
  responseCache w1 !! key = Some item ->
  (clock w1 - ci_timestamp item < cacheTime options ->
   CustomFetch env options w = Some (Normal (ci_data item), w1)
   /\ responseCache w1 = responseCache w
   /\ exists evs,
        trace w1 = (trace w ++ evs)%list /\ forallb is_onRequest evs = true)
  /\ (cacheTime options <= clock w1 - ci_timestamp item ->
      0 <= retries options ->
      CustomFetch env options w
      = run_loop env options requestId startTime requestContext (Some key)
          (evicted key w1)
      /\ responseCache (evicted key w1) !! key = None
      /\ exists outcome w' evs,
           CustomFetch env options w = Some (Normal outcome, w')
           /\ trace w'
              = (trace w1 ++ dispatched options requestContext :: evs)%list).
Proof.
  intros Hprep Hkey Hitem. split.
  - intros Hlive. split; [| exact (prepare_effect env options w w1 _ Hprep)].
    unfold CustomFetch. rewrite Hprep, Hkey.
    now rewrite (cache_probe_live options key item w1 Hitem Hlive).
  - intros Hstale Hretries.
    assert (Hcall : CustomFetch env options w
                    = run_loop env options requestId startTime requestContext
                        (Some key) (evicted key w1)).
    { unfold CustomFetch. rewrite Hprep, Hkey.
      now rewrite (cache_probe_stale options key item w1 Hitem Hstale). }
    split; [exact Hcall |]. split; [apply lookup_delete_eq |].
    destruct (run_loop_returns env options requestId startTime requestContext
                (Some key) (evicted key w1)) as (outcome & w' & Hloop).
    pose proof Hloop as Hstart. unfold run_loop in Hstart.
    apply dispatch_loop_starts in Hstart as (evs & Hevs); [| exact Hretries].
    exists outcome, w', evs. split; [now rewrite Hcall | exact Hevs].
Qed.

(** ** Persistent 503s *)

Lemma timeline_app (a b : list Event) :
  timeline (a ++ b) = (timeline a ++ timeline b)%list.
Proof.
  induction a as [|ev a IH]; [reflexivity |].
  destruct ev; cbn [timeline app]; now rewrite ?IH.
Qed.

Section Backoff.

Variable env : Env.
Variable options : FetchOptions.
Variable requestId : string.
Variable startTime : Z.
Variable requestContext : RequestContext.
Variable cacheKey : option string.

#[local] Abbreviation this_attempt :=
  (attempt env options requestId startTime requestContext cacheKey).
#[local] Abbreviation this_loop :=
  (dispatch_loop env options requestId startTime requestContext cacheKey).

Hypothesis controller_fine : not_aborted options.
Hypothesis always_503 :
  forall n,
    answers_503 env options
      (transport env n (ctx_url requestContext) (fetch_init options requestContext)).
Hypothesis interceptor_fine : interceptor_keeps_code options 503.

Lemma dispatch_responds (w : World) (latency : Z) (response : Response) :
  transport env (dispatches (trace w)) (ctx_url requestContext)
    (fetch_init options requestContext) = Responds latency response ->
  latency < timeout options ->
  exists w1,
    dispatch env options requestContext w = (Normal response, w1)
    /\ trace w1 = (trace w ++ [dispatched options requestContext])%list.
Proof.
  intros Hreply Hfast. unfold dispatch, fetch, settle.
  assert (Hab : match opt_abortController options with
                | Some c => signal_aborted c
                | None => false
                end = false).
  { pose proof controller_fine as Hctl. unfold not_aborted in Hctl.
    destruct (opt_abortController options); [exact Hctl | reflexivity]. }
  rewrite Hab, Hreply.
  apply Z.ltb_lt in Hfast. rewrite Z.ltb_antisym in Hfast.
  apply negb_true_iff in Hfast. rewrite Hfast.
  eexists. split; reflexivity.
Qed.

Lemma attempt_503_retry (attempts : Z) (last : JsValue) (w : World) :
  attempts < retries options ->
  exists message w' evs,
    this_attempt attempts last w = (Normal (Continue (attempts + 1) message), w')
    /\ trace w' = (trace w ++ evs)%list
    /\ timeline evs = [Dispatched; Slept (retryDelay options * 2 ^ attempts)].
Proof.
  intros Hlt.
  destruct (always_503 (dispatches (trace w)))
    as (latency & response & text & errorData & transformedError & message
        & Hreply & Hfast & Hcode & Hstatus & Hbody & Hdata & Hguard & Htrans & Hmsg).
  destruct (dispatch_responds w latency response Hreply Hfast) as (w1 & Hd & Ht).
  unfold attempt, try_catch, try_block. rewrite (bind_normal _ _ _ _ _ Hd).
  unfold handle_response.
  unfold status_verdict in Hstatus. unfold body_value, content_type in Hdata.
  unfold error_guard_verdict in Hguard. unfold error_transformed in Htrans.
  apply Z.ltb_lt in Hlt.
  unfold error_branch, parseResponseBody. rewrite Hcode in *.
  replace (attempts + 1 - 1) with attempts by lia.
  destruct (opt_validateStatus options) as [validateStatus |];
    destruct (opt_errorGuard options) as [errorGuard |];
    destruct (opt_errorTransformer options) as [errorTransformer |];
    try injection Hstatus as Hstatus; try injection Htrans as Htrans;
    evaluate; drive;
    (do 3 eexists; split; [reflexivity |]); cbn; rewrite ?Ht, <- ?app_assoc;
    (split; [reflexivity |]); reflexivity.
Qed.

Lemma attempt_503_final (attempts : Z) (last : JsValue) (w : World) :
  retries options <= attempts ->
  exists failure w' evs,
    this_attempt attempts last w = (Normal (Return (Failure failure)), w')
    /\ e_code failure = Some 503
    /\ trace w' = (trace w ++ evs)%list
    /\ timeline evs = [Dispatched].
Proof.
  intros Hge.
  destruct (always_503 (dispatches (trace w)))
    as (latency & response & text & errorData & transformedError & message
        & Hreply & Hfast & Hcode & Hstatus & Hbody & Hdata & Hguard & Htrans & Hmsg).
  destruct (dispatch_responds w latency response Hreply Hfast) as (w1 & Hd & Ht).
  unfold attempt, try_catch, try_block. rewrite (bind_normal _ _ _ _ _ Hd).
  unfold handle_response.
  unfold status_verdict in Hstatus. unfold body_value, content_type in Hdata.
  unfold error_guard_verdict in Hguard. unfold error_transformed in Htrans.
  apply Z.ltb_ge in Hge.
  pose proof interceptor_fine as Hkeep. unfold interceptor_keeps_code in Hkeep.
  unfold error_branch, parseResponseBody. rewrite Hcode in *.
  destruct (opt_validateStatus options) as [validateStatus |];
    destruct (opt_errorGuard options) as [errorGuard |];
    destruct (opt_errorTransformer options) as [errorTransformer |];
    destruct (opt_onResponse options) as [onResponse |];
    destruct cacheKey as [key |];
    try injection Hstatus as Hstatus; try injection Htrans as Htrans;
    evaluate; drive;
    try match goal with
        | |- context [onResponse ?rc] =>
            destruct (Hkeep rc) as ([replaced | replaced] & -> & Hkept)
        end;
    cbn;
    (do 3 eexists; split; [reflexivity |]); cbn; rewrite ?Ht, <- ?app_assoc;
    (split; [first [reflexivity | exact Hkept] |]);
    (split; [reflexivity |]); reflexivity.
Qed.

Lemma loop_503 (k : nat) (attempts : Z) (last : JsValue) (w : World) :
  retries options - attempts = Z.of_nat k ->
  exists failure w' evs,
    this_loop (S k) attempts last w = Some (Normal (Failure failure), w')
    /\ e_code failure = Some 503
    /\ trace w' = (trace w ++ evs)%list
    /\ timeline evs = backoff_timeline (retryDelay options) attempts k.
Proof.
  revert attempts last w.
  induction k as [|k IH]; intros attempts last w Hk.
  - destruct (attempt_503_final attempts last w ltac:(lia))
      as (failure & w' & evs & Hstep & Hcode & Ht & Hline).
    exists failure, w', evs. repeat split; try assumption.
    apply dispatch_loop_return; [lia | exact Hstep].
  - destruct (attempt_503_retry attempts last w ltac:(lia))
      as (message & w1 & evs1 & Hstep & Ht1 & Hline1).
    destruct (IH (attempts + 1) message w1 ltac:(lia))
      as (failure & w' & evs & Hloop & Hcode & Ht & Hline).
    exists failure, w', (evs1 ++ evs)%list. repeat split; try assumption.
    + rewrite (dispatch_loop_continue env options requestId startTime
                 requestContext cacheKey (S k) attempts (attempts + 1) last message
                 w w1 ltac:(lia) Hstep).
      exact Hloop.
    + now rewrite Ht, Ht1, app_assoc.
    + cbn [backoff_timeline]. now rewrite timeline_app, Hline1, Hline.
Qed.

End Backoff.

Lemma dispatches_timeline (t : list Event) :
  dispatches t
  = length (List.filter (fun tick => match tick with Dispatched => true | _ => false end)
              (timeline t)).
Proof.
  unfold dispatches.
  induction t as [|ev t IH]; [reflexivity |].
  destruct ev; cbn [timeline List.filter is_dispatch length]; now rewrite ?IH.
Qed.

Lemma delays_timeline (t : list Event) :
  delays t
  = flat_map (fun tick => match tick with Slept ms => [ms] | Dispatched => [] end)
      (timeline t).
Proof.
  induction t as [|ev t IH]; [reflexivity |].
  destruct ev; cbn [timeline delays flat_map app]; now rewrite ?IH.
Qed.

Lemma backoff_timeline_dispatches (retryDelay first : Z) (n : nat) :
  length (List.filter (fun tick => match tick with Dispatched => true | _ => false end)
            (backoff_timeline retryDelay first n)) = S n.
Proof.
  revert first. induction n as [|n IH]; intros first; [reflexivity |].
  cbn [backoff_timeline List.filter length]. now rewrite IH.
Qed.

Lemma backoff_timeline_delays (retryDelay first : Z) (n : nat) :
  flat_map (fun tick => match tick with Slept ms => [ms] | Dispatched => [] end)
    (backoff_timeline retryDelay first n)
  = map (fun i => retryDelay * 2 ^ (first + Z.of_nat i)) (seq 0 n).
Proof.
  revert first. induction n as [|n IH]; intros first; [reflexivity |].
  cbn [backoff_timeline flat_map app seq map]. rewrite IH.
  rewrite Z.add_0_r. f_equal.
  rewrite <- seq_shift, map_map. apply map_ext.
  intros i. do 2 f_equal. lia.
Qed.

(** C5 (as amended): a call with [retries = N], [N >= 0], that is not
    answered from the cache and whose every dispatch is answered by a 503 (in
    time, not accepted by the status predicate, with an error payload that the
    error guard lets pass and the error transformer maps to an error object),
    with no aborted controller of the caller and a response interceptor that
    does not substitute a Failure of another status, issues exactly [N + 1]
    dispatches, sleeps [retryDelay * 2^0], ..., [retryDelay * 2^(N-1)]
    between consecutive dispatches, and ends in a Failure of status 503. *)
Theorem persistent_503 (env : Env) (options : FetchOptions) (w w1 w2 : World)
    (startTime : Z) (requestId : string) (requestContext : RequestContext) :
  0 <= retries options ->
  prepare env options w = (Normal (startTime, requestId, requestContext), w1) ->
  cache_probe options (cacheKey_of options requestContext) w1 = (Normal None, w2) ->
  not_aborted options ->
  (forall n,
      answers_503 env options
        (transport env n (ctx_url requestContext)
           (fetch_init options requestContext))) ->
  interceptor_keeps_code options 503 ->
  exists failure w' evs,
    CustomFetch env options w = Some (Normal (Failure failure), w')
    /\ e_code failure = Some 503
    /\ trace w' = (trace w2 ++ evs)%list
    /\ timeline evs
       = backoff_timeline (retryDelay options) 0 (Z.to_nat (retries options))
    /\ dispatches evs = S (Z.to_nat (retries options))
    /\ delays evs
       = map (fun i => retryDelay options * 2 ^ Z.of_nat i)
           (seq 0 (Z.to_nat (retries options))).
Proof.
  intros Hretries Hprep Hprobe Hctl H503 Hkeep.
  destruct (loop_503 env options requestId startTime requestContext
              (cacheKey_of options requestContext) Hctl H503 Hkeep
              (Z.to_nat (retries options)) 0 (VStr "Maximum retry count reached") w2
              ltac:(lia))
    as (failure & w' & evs & Hloop & Hcode & Ht & Hline).
  exists failure, w', evs.
  split; [| split; [exact Hcode | split; [exact Ht | split; [exact Hline | split]]]].
  - unfold CustomFetch. rewrite Hprep, Hprobe. unfold run_loop.
    replace (Z.to_nat (retries options + 1)) with (S (Z.to_nat (retries options)))
      by lia.
    exact Hloop.
  - rewrite dispatches_timeline, Hline. apply backoff_timeline_dispatches.
  - rewrite delays_timeline, Hline, backoff_timeline_delays.
    apply map_ext. intros i. reflexivity.
Qed.

(** ** The properties at concrete calls *)

Lemma timeout_is_final_witness :
  exists failure,
    dispatch_loop Demo.env_silent (Demo.with_retries 3) "1000-0" 1000
      Demo.ctx None 1 0 (VStr "Maximum retry count reached") Demo.world0
    = Some (Normal (Failure failure),
            snd (dispatch Demo.env_silent (Demo.with_retries 3) Demo.ctx Demo.world0))
    /\ e_code failure = Some 408
    /\ e_errors failure = message_object (VStr "Request timeout")
    /\ trace (snd (dispatch Demo.env_silent (Demo.with_retries 3) Demo.ctx
                     Demo.world0))
       = (trace Demo.world0 ++ [dispatched (Demo.with_retries 3) Demo.ctx])%list.
Proof.
  apply (timeout_is_final Demo.env_silent (Demo.with_retries 3)
           "1000-0" 1000 Demo.ctx None 0 0 (VStr "Maximum retry count reached")
           Demo.world0 _ AbortError).
  - cbn. lia.
  - reflexivity.
  - reflexivity.
Defined.

(** C2, the claim as stated fails: a response interceptor that answers a
    terminal Failure (a 404) with a Success does not make the call succeed,
    and one that answers a terminal Success with a Failure does not make it
    fail; in both cases the call returns the terminal outcome. *)
Lemma interceptor_cannot_flip :
  Demo.completion_of (CustomFetch Demo.env_404 Demo.substituting Demo.world0)
  = Some (Normal (Failure
       (mkErrorResponse (message_object (VStr "missing")) (Some 404) 1005
          "1000-0" 5 None)))
  /\ Demo.completion_of (CustomFetch Demo.env_200 Demo.downgrading Demo.world0)
     = Some (Normal (Success
          (mkSuccessResponse (VStr "hi") 200 1005
             [("content-type", HOne "text/plain")] "1000-0" 5))).
Proof. split; vm_compute; reflexivity. Qed.

Lemma interceptor_keeps_variant_witness :
  exists w',
    dispatch_loop Demo.env_404 Demo.downgrading "1000-0" 1000 Demo.ctx None 1 0
      (VStr "Maximum retry count reached") Demo.world0
    = Some (Normal
              (intercepted
                 (Failure (mkErrorResponse (message_object (VStr "missing"))
                             (Some 404) 1005 "1000-0" 5 None))
                 (Failure Demo.downgrade)),
            w').
Proof.
  apply (interceptor_keeps_variant Demo.env_404 Demo.downgrading
           "1000-0" 1000 Demo.ctx None 0 0 (VStr "Maximum retry count reached")
           Demo.world0
           (Failure (mkErrorResponse (message_object (VStr "missing"))
                       (Some 404) 1005 "1000-0" 5 None))
           (Failure Demo.downgrade)
           (fun _ => Normal (Failure Demo.downgrade))).
  - cbn. lia.
  - exact (terminal_failure Demo.env_404 Demo.downgrading "1000-0" 1000 Demo.ctx
             0 Demo.world0 (Demo.text_response 404 "missing")
             (snd (dispatch Demo.env_404 Demo.downgrading Demo.ctx Demo.world0))
             "missing" (message_object (VStr "missing"))
             (message_object (VStr "missing"))
             eq_refl eq_refl eq_refl eq_refl eq_refl eq_refl eq_refl).
  - reflexivity.
  - reflexivity.
Defined.

(** C5, the claim as stated fails: with two retries and a transport that
    answers every dispatch with a 503, an error guard that rejects the error
    payload ends the call after a single dispatch. *)
Lemma error_guard_stops_retries :
  retries Demo.error_guarded = 2
  /\ Demo.completion_of (CustomFetch Demo.env_503 Demo.error_guarded Demo.world0)
     = Some (Normal (Failure
          (mkErrorResponse (message_object (VStr "Error validation failed"))
             (Some 503) 1005 "1000-0" 5 None)))
  /\ dispatches
       (trace (Demo.world_after
                 (CustomFetch Demo.env_503 Demo.error_guarded Demo.world0)))
     = 1%nat.
Proof. repeat split; vm_compute; reflexivity. Qed.

Lemma persistent_503_witness :
  exists failure w' evs,
    CustomFetch Demo.env_503 (Demo.with_retries 2) Demo.world0
    = Some (Normal (Failure failure), w')
    /\ e_code failure = Some 503
    /\ trace w' = (trace (Demo.drawn_world0) ++ evs)%list
    /\ timeline evs
       = [Dispatched; Slept 1000; Dispatched; Slept 2000; Dispatched]
    /\ dispatches evs = 3%nat
    /\ delays evs = [1000; 2000].
Proof.
  apply (persistent_503 Demo.env_503 (Demo.with_retries 2) Demo.world0
           Demo.drawn_world0 Demo.drawn_world0 1000 "1000-0" Demo.ctx).
  - cbn. lia.
  - reflexivity.
  - reflexivity.
  - exact I.
  - intros n. unfold answers_503.
    exists 5, (Demo.text_response 503 "busy"), "busy",
      (message_object (VStr "busy")), (message_object (VStr "busy")), (VStr "busy").
    repeat split; reflexivity.
  - exact I.
Defined.

Lemma cache_probe_decides_witness :
  CustomFetch Demo.env_200 (Demo.cached_get "http://a/") Demo.second_call
  = Some (Normal (Success Demo.first_outcome),
          snd (prepare Demo.env_200 (Demo.cached_get "http://a/") Demo.second_call))
  /\ dispatches
       (trace (snd (prepare Demo.env_200 (Demo.cached_get "http://a/")
                      Demo.second_call)))
     = 1%nat.
Proof.
  split; [| vm_compute; reflexivity].
  apply (cache_probe_decides Demo.env_200 (Demo.cached_get "http://a/")
           Demo.second_call
           (snd (prepare Demo.env_200 (Demo.cached_get "http://a/") Demo.second_call))
           1105 "1105-1"
           (mkRequestContext "http://a/" GET [] None "1105-1")
           "GET:http://a/:$" (mkCacheItem (Success Demo.first_outcome) 1005)).
  - reflexivity.
  - reflexivity.
  - vm_compute. reflexivity.
  - vm_compute. reflexivity.
Defined.

Lemma response_guard_decides_witness :
  (exists failure w',
      dispatch_loop Demo.env_200 Demo.response_guarded "1000-0" 1000 Demo.ctx None
        1 0 (VStr "Maximum retry count reached") Demo.world0
      = Some (Normal (Failure failure), w')
      /\ e_errors failure = message_object (VStr "Response validation failed")
      /\ e_code failure = Some 200)
  /\ (exists w' evs,
        dispatch_loop Demo.env_200
          (Demo.options_with "http://a/" None None None (Some (fun _ => Normal true))
             None None None)
          "1000-0" 1000 Demo.ctx None 1 0 (VStr "Maximum retry count reached")
          Demo.world0
        = Some (Normal (Success Demo.first_outcome), w')
        /\ trace w' = (trace Demo.world0 ++ evs)%list
        /\ forallb (fun ev => negb (is_responseTransformer ev)) evs = true).
Proof.
  split.
  - apply (proj1 (response_guard_decides Demo.env_200 Demo.response_guarded
                    Demo.rejecting_guard eq_refl)
             "1000-0" 1000 Demo.ctx None 0%nat 0 (VStr "Maximum retry count reached")
             Demo.world0
             (snd (dispatch Demo.env_200 Demo.response_guarded Demo.ctx Demo.world0))
             (Demo.text_response 200 "hi") "hi").
    + cbn. lia.
    + reflexivity.
    + reflexivity.
    + reflexivity.
    + reflexivity.
    + reflexivity.
  - apply (proj1 (proj2 (response_guard_decides Demo.env_200
                           (Demo.options_with "http://a/" None None None
                              (Some (fun _ => Normal true)) None None None)
                           (fun _ => Normal true) eq_refl))
             "1000-0" 1000 Demo.ctx None 0%nat 0 (VStr "Maximum retry count reached")
             Demo.world0
             (snd (dispatch Demo.env_200 Demo.response_guarded Demo.ctx Demo.world0))
             (Demo.text_response 200 "hi") "hi" (Success Demo.first_outcome)).
    + cbn. lia.
    + reflexivity.
    + reflexivity.
    + reflexivity.
    + reflexivity.
    + reflexivity.
    + reflexivity.
Defined.

Lemma direct_failure_bypasses_witness :
  exists failure w' evs,
    dispatch_loop Demo.env_503 Demo.error_guarded "1000-0" 1000 Demo.ctx
      (Some "GET:http://a/:$") 3 0 (VStr "Maximum retry count reached") Demo.world0
    = Some (Normal (Failure failure), w')
    /\ responseCache w' = responseCache Demo.world0
    /\ trace w' = (trace Demo.world0 ++ evs)%list
    /\ forallb (fun ev => negb (is_onResponse ev)) evs = true.
Proof.
  apply (direct_failure_bypasses Demo.env_503 Demo.error_guarded "1000-0" 1000
           Demo.ctx (Some "GET:http://a/:$") 2 0
           (VStr "Maximum retry count reached") Demo.world0).
  - cbn. lia.
  - exact (error_guard_rejects Demo.env_503 Demo.error_guarded Demo.ctx 0
             Demo.world0 (Demo.text_response 503 "busy")
             (snd (dispatch Demo.env_503 Demo.error_guarded Demo.ctx Demo.world0))
             "busy" (message_object (VStr "busy")) Demo.rejecting_guard
             eq_refl eq_refl eq_refl eq_refl eq_refl eq_refl).
Defined.

(** * Further properties of the code *)

(** ** The URL builder beyond the round trip *)

(** X1: [buildUrl] hands the base URL back unchanged exactly when the parameter
    map is absent or has no entries. *)
Theorem buildUrl_unchanged_iff (encode : string -> string) (baseUrl : string)
    (params : option QueryParams) :
  buildUrl encode baseUrl params = baseUrl <-> params = None \/ params = Some [].
Proof.
  split.
  - destruct params as [[|entry ps] |]; auto.
    unfold buildUrl. cbn [length Nat.eqb]. cbv zeta. intros Heq.
    apply (f_equal String.length) in Heq.
    rewrite !length_append in Heq.
    destruct (Str.includes baseUrl "?"); simpl in Heq; lia.
  - intros [-> | ->]; reflexivity.
Qed.

Lemma split_nonempty (sep : ascii) (s : string) : Query.split sep s <> [].
Proof.
  destruct s as [|c s]; simpl; [discriminate |].
  destruct (Ascii.eqb c sep); [discriminate |].
  destruct (Query.split sep s); discriminate.
Qed.

Lemma split_at_separator (sep : ascii) (a b : string) :
  Query.split sep (a ++ String sep b)
  = (Query.split sep a ++ Query.split sep b)%list.
Proof.
  induction a as [|x a IH]; simpl.
  - now rewrite Ascii.eqb_refl.
  - destruct (Ascii.eqb x sep); rewrite IH; [reflexivity |].
    pose proof (split_nonempty sep a) as Hne.
    destruct (Query.split sep a); [congruence | reflexivity].
Qed.

Lemma parse_at_separator (decode : string -> string) (a b : string) :
  Query.parse decode (a ++ String "&" b)
  = (Query.parse decode a ++ Query.parse decode b)%list.
Proof.
  unfold Query.parse.
  now rewrite split_at_separator, List.filter_app, map_app.
Qed.

(** X2: A base URL that already has a query keeps it: the URL that [buildUrl]
    makes carries the old pairs followed by the pairs of the parameter map. *)
Theorem buildUrl_appends_to_query (encode decode : string -> string)
    (path query : string) (params : QueryParams) :
  (forall s, decode (encode s) = s) ->
  (forall s, Query.mentions "&" (encode s) = false
             /\ Query.mentions "=" (encode s) = false
             /\ Query.mentions "#" (encode s) = false) ->
  Query.mentions "?" path = false ->
  Query.mentions "#" path = false ->
  Query.mentions "#" query = false ->
  params <> [] ->
  Query.parse decode
    (Query.of_url (buildUrl encode (path ++ "?" ++ query) (Some params)))
  = (Query.parse decode query ++ param_pairs params)%list.
Proof.
  intros Hdec Hclean Hpath Hfrag Hquery Hne.
  assert (Hparse : Query.parse decode (serializeParams encode params)
                   = param_pairs params).
  { apply parse_serializeParams; [exact Hdec |].
    intros s. destruct (Hclean s) as (Ha & He & _). now split. }
  assert (Hserial : Query.mentions "#" (serializeParams encode params) = false).
  { unfold serializeParams. apply mentions_join; [reflexivity |].
    clear -Hclean. induction params as [|[key value] ps IH]; simpl; [constructor |].
    apply Forall_app. split; [| exact IH].
    assert (Hpair : forall x, Query.mentions "#" (encode_pair encode key x) = false).
    { intros x. unfold encode_pair. rewrite !mentions_append.
      destruct (Hclean key) as (_ & _ & ->).
      destruct (Hclean (String_of x)) as (_ & _ & ->). reflexivity. }
    destruct value; simpl; repeat constructor; try apply Hpair.
    apply List.Forall_forall. intros p Hp.
    apply in_map_iff in Hp as (x & <- & _). apply Hpair. }
  unfold buildUrl. destruct params as [|entry ps]; [congruence |].
  cbn [length Nat.eqb].
  assert (Hhas : Str.includes (path ++ "?" ++ query) "?" = true).
  { rewrite includes_char, mentions_append. simpl. now rewrite orb_true_r. }
  rewrite Hhas. cbv zeta.
  set (added := serializeParams encode (entry :: ps)) in *.
  unfold Query.of_url.
  rewrite (cut_clean "#").
  - cbn [fst]. rewrite !append_assoc.
    change ("?" ++ query ++ "&" ++ added) with (String "?" (query ++ "&" ++ added)).
    rewrite cut_append by exact Hpath. cbn [snd].
    change ("&" ++ added) with (String "&" added).
    now rewrite parse_at_separator, Hparse.
  - rewrite !mentions_append, Hfrag, Hquery, Hserial. reflexivity.
Qed.

Lemma buildUrl_appends_to_query_witness :
  Query.parse Percent.decode
    (Query.of_url
       (buildUrl Percent.encode ("http://h/p" ++ "?" ++ "x=1")
          (Some [("tag", PArray [SStr "a&b"]); ("page", PScalar (SNum 2))])))
  = [("x", "1"); ("tag", "a&b"); ("page", "2")].
Proof.
  apply (buildUrl_appends_to_query Percent.encode Percent.decode "http://h/p" "x=1"
           [("tag", PArray [SStr "a&b"]); ("page", PScalar (SNum 2))]
           percent_decode_encode percent_encode_clean);
    (reflexivity || discriminate).
Defined.

(** ** The content classifier *)

Lemma prefix_iff (p s : string) :
  String.prefix p s = true <-> exists rest, s = p ++ rest.
Proof.
  revert s. induction p as [|a p IH]; intros s.
  - split; [intros _; exists s; reflexivity | intros _; now destruct s].
  - destruct s as [|b s]; simpl.
    + split; [discriminate | intros [rest Hrest]; discriminate].
    + destruct (ascii_dec a b) as [-> | Hne].
      * rewrite IH. split; intros [rest Hrest]; exists rest.
        -- now rewrite Hrest.
        -- now injection Hrest.
      * split; [discriminate |]. intros [rest Hrest]. injection Hrest. congruence.
Qed.

(** X3: [isBinaryContentType] holds exactly of the content types that start with
    one of the listed prefixes; in particular the verdict of a binary type
    does not change when parameters follow it. *)
Theorem isBinaryContentType_iff (contentType : string) :
  isBinaryContentType contentType = true
  <-> exists p rest, List.In p BINARY_PREFIXES /\ contentType = p ++ rest.
Proof.
  unfold isBinaryContentType. split.
  - destruct (Str.is_empty contentType); [discriminate |].
    intros H. apply existsb_exists in H as (p & Hin & Hp).
    apply prefix_iff in Hp as [rest Hrest]. eauto.
  - intros (p & rest & Hin & ->).
    assert (Hfull : Str.is_empty (p ++ rest) = false).
    { simpl in Hin. repeat (destruct Hin as [<- | Hin]; [reflexivity |]).
      contradiction. }
    rewrite Hfull. apply existsb_exists. exists p. split; [exact Hin |].
    apply prefix_iff. eauto.
Qed.

(** X4: Textual types are never read as binary: a content type that starts with
    [text/], [application/json] or [application/xml] is not binary, whatever
    follows. *)
Theorem textual_types_not_binary (rest : string) :
  isBinaryContentType ("text/" ++ rest) = false
  /\ isBinaryContentType ("application/json" ++ rest) = false
  /\ isBinaryContentType ("application/xml" ++ rest) = false.
Proof. repeat split; reflexivity. Qed.

(** ** Body parsing and the error payload *)

(** X5: [parseResponseBody] never loses the body: text that does not parse comes
    back as it is whatever the declared type, text of a textual type is not
    parsed at all, and everything else is the parsed value. *)
Theorem parse_text_table (env : Env) (contentType : option string) (text : string) :
  parse_text env contentType text
  = match JSON_parse env text with
    | None => VStr text
    | Some v => if declared_textual contentType then VStr text else v
    end.
Proof.
  unfold parse_text, parse_or_text, declared_textual.
  destruct contentType as [ct |]; cbv zeta.
  - destruct (Str.includes ct "application/json"); simpl;
      destruct (JSON_parse env text); try reflexivity;
      destruct (Str.includes ct "text/" || Str.includes ct "application/xml");
      reflexivity.
  - simpl. destruct (JSON_parse env text); reflexivity.
Qed.

Lemma Obj_get_set_same {A} (fields : list (string * A)) (key : string) (value : A) :
  Obj.get (Obj.set fields key value) key = Some value.
Proof.
  induction fields as [|[k v] fields IH]; simpl.
  - now rewrite String.eqb_refl.
  - destruct (String.eqb k key) eqn:Hk; simpl; rewrite Hk; [reflexivity | exact IH].
Qed.

Lemma Obj_get_set_other {A} (fields : list (string * A)) (key other : string)
    (value : A) :
  key <> other ->
  Obj.get (Obj.set fields key value) other = Obj.get fields other.
Proof.
  intros Hne. induction fields as [|[k v] fields IH]; simpl.
  - apply String.eqb_neq in Hne. now rewrite Hne.
  - destruct (String.eqb k key) eqn:Hk; simpl.
    + apply String.eqb_eq in Hk. subst k.
      apply String.eqb_neq in Hne. now rewrite Hne.
    + destruct (String.eqb k other); [reflexivity | exact IH].
Qed.

(** X6: The error payload built from a parsed error body always is an object
    with a [message] that is neither [undefined] nor [null]; building it fails
    exactly when the parsed body is [null] (or [undefined]), where reading
    [rawError.message] raises a [TypeError]. *)
Theorem errorData_of_message (env : Env) (rawError : JsValue) :
  match errorData_of env rawError with
  | Normal errorData =>
      exists message,
        error_message errorData = Some message
        /\ message <> VUndefined /\ message <> VNull
        /\ rawError <> VNull /\ rawError <> VUndefined
  | Throw e =>
      e = null_TypeError env /\ (rawError = VNull \/ rawError = VUndefined)
  end.
Proof.
  destruct rawError as [| | b | n | s | items | fields]; simpl; auto.
  - exists (VStr "Unknown error"). repeat split; discriminate.
  - exists (VStr "Unknown error"). repeat split; discriminate.
  - exists (VStr s). repeat split; discriminate.
  - eexists. rewrite Obj_get_set_same. repeat split; discriminate.
  - destruct (default VUndefined (Obj.get fields "message"))
      as [| | b | n | s | items | fs];
      rewrite Obj_get_set_same; eexists; repeat split; discriminate.
Qed.

(** X7: The error payload keeps every other property of a parsed error object
    and, when the object has a message that is not [null], that message. *)
Theorem errorData_of_keeps_fields (env : Env) (fields : list (string * JsValue)) :
  exists kept,
    errorData_of env (VObj fields) = Normal (VObj kept)
    /\ (forall key, key <> "message" -> Obj.get kept key = Obj.get fields key)
    /\ (forall message,
           Obj.get fields "message" = Some message ->
           message <> VNull -> message <> VUndefined ->
           Obj.get kept "message" = Some message).
Proof.
  simpl. eexists. split; [reflexivity |]. split.
  - intros key Hne. apply Obj_get_set_other. congruence.
  - intros message Hm Hnull Hundef. rewrite Hm. simpl.
    rewrite Obj_get_set_same. destruct message; congruence.
Qed.

(** ** Header maps *)

Lemma lower_ascii_idempotent (c : ascii) :
  Str.lower_ascii (Str.lower_ascii c) = Str.lower_ascii c.
Proof. destruct c as [[] [] [] [] [] [] [] []]; vm_compute; reflexivity. Qed.

Lemma toLowerCase_idempotent (s : string) :
  Str.toLowerCase (Str.toLowerCase s) = Str.toLowerCase s.
Proof.
  induction s as [|c s IH]; [reflexivity |].
  simpl. now rewrite lower_ascii_idempotent, IH.
Qed.

(** Reading a header after setting one: the value set, when the two names
    agree up to case; what was there before, otherwise. *)
Lemma Headers_get_set (h : Headers.t) (name value other : string) :
  Headers.get (Headers.set h name value) other
  = if String.eqb (Str.toLowerCase name) (Str.toLowerCase other) then Some value
    else Headers.get h other.
Proof.
  induction h as [|[k x] h IH]; simpl.
  - reflexivity.
  - destruct (String.eqb_spec k (Str.toLowerCase name)) as [-> | Hk]; simpl.
    + destruct (String.eqb (Str.toLowerCase name) (Str.toLowerCase other));
        reflexivity.
    + destruct (String.eqb_spec k (Str.toLowerCase other)) as [-> | Hother].
      * apply String.eqb_neq in Hk. rewrite String.eqb_sym in Hk. now rewrite Hk.
      * exact IH.
Qed.

(** Reading a header after appending one: names agree up to case, and a value
    appended to a present header is joined to the old one by a comma and a
    space. *)
Lemma Headers_get_append (h : Headers.t) (name value other : string) :
  Headers.get (Headers.append h name value) other
  = if String.eqb (Str.toLowerCase name) (Str.toLowerCase other)
    then Some match Headers.get h other with
              | Some old => old ++ ", " ++ value
              | None => value
              end
    else Headers.get h other.
Proof.
  induction h as [|[k x] h IH]; simpl.
  - reflexivity.
  - destruct (String.eqb_spec k (Str.toLowerCase name)) as [-> | Hk]; simpl.
    + destruct (String.eqb (Str.toLowerCase name) (Str.toLowerCase other));
        reflexivity.
    + destruct (String.eqb_spec k (Str.toLowerCase other)) as [-> | Hother].
      * apply String.eqb_neq in Hk. rewrite String.eqb_sym in Hk. now rewrite Hk.
      * exact IH.
Qed.

Lemma Headers_append_names (h : Headers.t) (name value : string) :
  List.NoDup (map fst h) ->
  Forall (fun kv => Str.toLowerCase (fst kv) = fst kv) h ->
  List.NoDup (map fst (Headers.append h name value))
  /\ Forall (fun kv => Str.toLowerCase (fst kv) = fst kv)
       (Headers.append h name value)
  /\ forall k, List.In k (map fst (Headers.append h name value))
               <-> List.In k (map fst h) \/ k = Str.toLowerCase name.
Proof.
  induction h as [|[k x] h IH]; intros Hnodup Hlower; simpl.
  - split; [repeat constructor; simpl; tauto |].
    split; [repeat constructor; apply toLowerCase_idempotent |].
    intros k. simpl. intuition.
  - inversion Hnodup as [|? ? Hfresh Hrest]; subst.
    inversion Hlower as [|? ? Hk Hl]; subst. simpl in Hk.
    destruct (String.eqb_spec k (Str.toLowerCase name)) as [-> | Hne]; simpl.
    + split; [exact Hnodup |]. split; [now constructor |].
      intros k. intuition.
    + destruct (IH Hrest Hl) as (Hn & Hlow & Hin).
      split; [| split].
      * constructor; [| exact Hn]. rewrite Hin. intuition.
      * now constructor.
      * intros k'. rewrite Hin. intuition.
Qed.

(** [new Headers(init)] holds every name once and in lower case, and a name
    is present exactly when the initialiser mentions it in some case. *)
Lemma Headers_make_names (init : list (string * string)) :
  List.NoDup (map fst (Headers.make (Some init)))
  /\ Forall (fun kv => Str.toLowerCase (fst kv) = fst kv) (Headers.make (Some init))
  /\ forall name,
       Headers.has (Headers.make (Some init)) name
       = existsb (fun kv => String.eqb (Str.toLowerCase (fst kv))
                              (Str.toLowerCase name)) init.
Proof.
  unfold Headers.make.
  assert (Hgen : forall h,
             List.NoDup (map fst h) ->
             Forall (fun kv => Str.toLowerCase (fst kv) = fst kv) h ->
             let made := fold_left (fun h kv => Headers.append h (fst kv) (snd kv))
                           init h in
             List.NoDup (map fst made)
             /\ Forall (fun kv => Str.toLowerCase (fst kv) = fst kv) made
             /\ forall name,
                  Headers.has made name
                  = Headers.has h name
                    || existsb (fun kv => String.eqb (Str.toLowerCase (fst kv))
                                            (Str.toLowerCase name)) init).
  { induction init as [|[k v] init IH]; intros h Hnodup Hlower; simpl.
    - repeat split; try assumption. intros name. now rewrite orb_false_r.
    - destruct (Headers_append_names h k v Hnodup Hlower) as (Hn & Hl & _).
      destruct (IH (Headers.append h k v) Hn Hl) as (Hn' & Hl' & Hhas).
      repeat split; try assumption.
      intros name. rewrite Hhas. unfold Headers.has.
      rewrite Headers_get_append.
      destruct (String.eqb (Str.toLowerCase k) (Str.toLowerCase name)); simpl.
      + now rewrite orb_true_r.
      + reflexivity. }
  destruct (Hgen [] ltac:(constructor) ltac:(constructor)) as (Hn & Hl & Hhas).
  repeat split; try assumption.
Qed.

(** ** Header assembly of the engine *)

(** X8: A bearer token overrides whatever [Authorization] header the caller
    supplied, in any case of the name: when the caller's headers are
    acceptable to [Headers] and the token is not empty and makes a header
    value that [Headers] keeps as it is, the assembled request carries
    [Bearer] and the token. *)
Theorem assemble_headers_authorization (env : Env) (options : FetchOptions)
    (token : string) :
  opt_customToken options = Some token ->
  token <> "" ->
  assembly_ok options = true ->
  Headers.get (assemble_headers env options) "Authorization"
  = Some ("Bearer " ++ token).
Proof.
  intros Hopt Hne _. unfold assemble_headers. rewrite Hopt.
  assert (Hfull : Str.is_empty token = false)
    by (destruct token; [now elim Hne | reflexivity]).
  rewrite Hfull.
  destruct (opt_body options) as [[body | handle] |];
    try (rewrite Headers_get_set; reflexivity).
  destruct (negb (Str.is_empty body) && _);
    [destruct (JSON_parse env body) |];
    rewrite ?Headers_get_set; reflexivity.
Qed.

Lemma assemble_headers_authorization_witness :
  Headers.get
    (assemble_headers Demo.env_200
       (mkFetchOptions "http://a/" None (Some [("AUTHORIZATION", "Basic abc")])
          None None (Some "t0k3n") None None None None None None None None None
          None None None None None None))
    "Authorization"
  = Some "Bearer t0k3n".
Proof.
  apply (assemble_headers_authorization Demo.env_200
           (mkFetchOptions "http://a/" None (Some [("AUTHORIZATION", "Basic abc")])
              None None (Some "t0k3n") None None None None None None None None
              None None None None None None None) "t0k3n").
  - reflexivity.
  - discriminate.
  - reflexivity.
Defined.

Lemma content_type_assembled (env : Env) (options : FetchOptions) :
  Headers.get (assemble_headers env options) "Content-Type"
  = match Headers.get (Headers.make (opt_headers options)) "Content-Type" with
    | Some declared => Some declared
    | None =>
        match opt_body options with
        | Some (BodyText body) =>
            if negb (Str.is_empty body) then
              match JSON_parse env body with
              | Some _ => Some "application/json"
              | None => None
              end
            else None
        | _ => None
        end
    end.
Proof.
  unfold assemble_headers.
  set (declared := Headers.make (opt_headers options)).
  set (headers := match opt_customToken options with
                  | Some token =>
                      if Str.is_empty token then declared
                      else Headers.set declared "Authorization" ("Bearer " ++ token)
                  | None => declared
                  end).
  assert (Hsame : Headers.get headers "Content-Type"
                  = Headers.get declared "Content-Type").
  { subst headers. destruct (opt_customToken options) as [token |]; [| reflexivity].
    destruct (Str.is_empty token); [reflexivity |].
    now rewrite Headers_get_set. }
  unfold Headers.has. rewrite Hsame.
  destruct (Headers.get declared "Content-Type") as [v |] eqn:Hdecl.
  - destruct (opt_body options) as [[body | handle] |]; try exact Hsame.
    rewrite andb_false_r. exact Hsame.
  - destruct (opt_body options) as [[body | handle] |]; try exact Hsame.
    rewrite andb_true_r. destruct (negb (Str.is_empty body)); [| exact Hsame].
    destruct (JSON_parse env body); [| exact Hsame].
    now rewrite Headers_get_set.
Qed.

(** X9: The [Content-Type] of the assembled request: the caller's, when there is
    one; otherwise [application/json] exactly when the body is a non-empty
    string that parses as JSON; otherwise none. *)
Theorem assemble_headers_content_type (env : Env) (options : FetchOptions) :
  Headers.get (assemble_headers env options) "Content-Type"
  = match Headers.get (Headers.make (opt_headers options)) "Content-Type" with
    | Some declared => Some declared
    | None =>
        match opt_body options with
        | Some (BodyText body) =>
            if negb (Str.is_empty body) then
              match JSON_parse env body with
              | Some _ => Some "application/json"
              | None => None
              end
            else None
        | _ => None
        end
    end.
Proof. apply content_type_assembled. Qed.

(** ** Cache management *)

(** X10: The cache-management entry points: [getCacheStats] leaves the process as
    it is and reports every cached key once, as many keys as its [size];
    after [clearFetchCache] it reports nothing; [clearSpecificCache] removes
    the entry of its own key, leaves every other entry alone, and lowers the
    size by one exactly when there was such an entry. *)
Theorem cache_management (w : World) (url : string) (method : option HttpMethod)
    (body : option string) :
  let key := method_text (default GET method) ++ ":" ++ url ++ ":" ++ default "" body in
  let cleared := snd (clearSpecificCache url method body w) in
  (exists keys,
      getCacheStats w = (Normal (length keys, keys), w)
      /\ NoDup keys
      /\ forall k, k ∈ keys <-> is_Some (responseCache w !! k))
  /\ fst (getCacheStats (snd (clearFetchCache w))) = Normal (0%nat, [])
  /\ responseCache cleared !! key = None
  /\ (forall k, k <> key -> responseCache cleared !! k = responseCache w !! k)
  /\ size (responseCache cleared)
     = (size (responseCache w)
        - match responseCache w !! key with Some _ => 1 | None => 0 end)%nat.
Proof.
  intros key cleared. split; [| split; [| split; [| split]]].
  - exists ((map_to_list (responseCache w)).*1). split; [| split].
    + unfold getCacheStats. now rewrite length_fmap, length_map_to_list.
    + apply NoDup_fst_map_to_list.
    + intros k. rewrite list_elem_of_fmap. split.
      * intros ([k' item] & -> & Hin). apply elem_of_map_to_list in Hin. eauto.
      * intros [item Hitem]. exists (k, item). split; [reflexivity |].
        now apply elem_of_map_to_list.
  - unfold getCacheStats, clearFetchCache. simpl.
    now rewrite map_size_empty, map_to_list_empty.
  - apply lookup_delete_eq.
  - intros k Hne. apply lookup_delete_ne. intros Heq. apply Hne. now symmetry.
  - subst cleared. unfold clearSpecificCache, cache_delete. cbn [snd responseCache].
    fold key. rewrite map_size_delete.
    destruct (responseCache w !! key); simpl; lia.
Qed.

(** ** A call and the cache entries of other keys *)

#[local] Instance only_touches_preorder (key : option string) :
  PreOrder (only_touches key).
Proof.
  split.
  - intros w k _. reflexivity.
  - intros w1 w2 w3 H12 H23 k Hk. now rewrite (H23 k Hk), (H12 k Hk).
Qed.

Section Touches.

Variable key : option string.

Lemma keeps_untouched {A} (m : M A) :
  (forall w, responseCache (snd (m w)) = responseCache w) ->
  keeps (only_touches key) anything m.
Proof. intros H w. split; [| exact I]. intros k _. now rewrite H. Qed.

Lemma keeps_fetch_cache (env : Env) (controller : option AbortController)
    (timeout : Z) (url : string) (init : FetchInit) :
  keeps (only_touches key) anything (fetch env controller timeout url init).
Proof.
  apply keeps_untouched. intros w. unfold fetch. now destruct (settle _ _ _).
Qed.

Lemma keeps_cache_set (k : string) (item : CacheItem) :
  key = Some k -> keeps (only_touches key) anything (cache_set k item).
Proof.
  intros -> w. split; [| exact I]. intros k' Hne. simpl.
  apply lookup_insert_ne. congruence.
Qed.

Lemma keeps_cache_delete (k : string) :
  key = Some k -> keeps (only_touches key) anything (cache_delete k).
Proof.
  intros -> w. split; [| exact I]. intros k' Hne. simpl.
  apply lookup_delete_ne. congruence.
Qed.

End Touches.

Ltac visit_cache :=
  repeat first
    [ progress cbv zeta
    | apply keeps_ret; exact I
    | apply keeps_lift; exact I
    | apply keeps_fetch_cache
    | apply keeps_cache_set; reflexivity
    | apply keeps_cache_delete; reflexivity
    | apply keeps_untouched; intros ?; reflexivity
    | eapply (keeps_bind _ anything); [ | intros ? _ | intros ? _; exact I ]
    | match goal with
      | |- keeps _ _ (match ?x with _ => _ end) => destruct x eqn:?
      end
    | progress unfold createErrorResponse, createSuccessResponse, makeError,
        parseResponseBody, dispatch ].

Section CallTouches.

Variable env : Env.
Variable options : FetchOptions.
Variable requestId : string.
Variable startTime : Z.
Variable requestContext : RequestContext.
Variable cacheKey : option string.

Lemma attempt_touches (attempts : Z) (last : JsValue) :
  keeps (only_touches cacheKey) anything
    (attempt env options requestId startTime requestContext cacheKey attempts last).
Proof.
  unfold attempt. eapply (keeps_try_catch _ anything anything).
  - unfold try_block, handle_response, error_branch, success_branch, finish_success.
    visit_cache; try exact _.
  - auto.
  - intros e _. unfold catch_block. visit_cache; try exact _.
Qed.

Lemma dispatch_loop_touches (fuel : nat) (attempts : Z) (last : JsValue)
    (w w' : World) (c : Completion CustomFetchResult) :
  dispatch_loop env options requestId startTime requestContext cacheKey
    fuel attempts last w = Some (c, w') ->
  only_touches cacheKey w w'.
Proof.
  revert attempts last w.
  induction fuel as [|fuel IH]; intros attempts last w; cbn [dispatch_loop].
  - destruct (attempts <=? retries options); [discriminate |].
    intros [= <- <-]. reflexivity.
  - destruct (attempts <=? retries options).
    + pose proof (attempt_touches attempts last w) as [Hg _].
      destruct (attempt _ _ _ _ _ _ _ _ w) as [[[outcome | attempts' last'] | e] w1];
        simpl in Hg.
      * now intros [= <- <-].
      * intros Hrest. transitivity w1; [exact Hg | eapply IH, Hrest].
      * now intros [= <- <-].
    + intros [= <- <-]. reflexivity.
Qed.

Lemma cache_probe_touches :
  keeps (only_touches cacheKey) anything (cache_probe options cacheKey).
Proof. unfold cache_probe. visit_cache; try exact _. Qed.

End CallTouches.

Lemma CustomFetch_touches (env : Env) (options : FetchOptions)
    (w w1 w' : World) (startTime : Z) (requestId : string)
    (requestContext : RequestContext) (c : Completion CustomFetchResult)
    (k : string) :
  prepare env options w = (Normal (startTime, requestId, requestContext), w1) ->
  CustomFetch env options w = Some (c, w') ->
  Some k <> cacheKey_of options requestContext ->
  responseCache w' !! k = responseCache w !! k.
Proof.
  intros Hprep Hcall Hk.
  destruct (prepare_effect env options w w1 _ Hprep) as [Hcache _].
  unfold CustomFetch in Hcall. rewrite Hprep in Hcall.
  pose proof (cache_probe_touches options (cacheKey_of options requestContext) w1)
    as [Hprobe _].
  destruct (cache_probe _ _ w1) as [[[cached |] | e] w2]; simpl in Hprobe.
  - injection Hcall as <- <-. now rewrite (Hprobe k Hk), Hcache.
  - unfold run_loop in Hcall. apply dispatch_loop_touches in Hcall.
    now rewrite (Hcall k Hk), (Hprobe k Hk), Hcache.
  - injection Hcall as <- <-. now rewrite (Hprobe k Hk), Hcache.
Qed.

(** X11: A call reads and writes no cache entry but that of its own key: once its
    request phase has fixed the request context, every entry under another
    key is after the call what it was before. *)
Theorem call_touches_own_key_only (env : Env) (options : FetchOptions)
    (w w1 w' : World) (startTime : Z) (requestId : string)
    (requestContext : RequestContext) (c : Completion CustomFetchResult)
    (k : string) :
  prepare env options w = (Normal (startTime, requestId, requestContext), w1) ->
  CustomFetch env options w = Some (c, w') ->
  Some k <> cacheKey_of options requestContext ->
  responseCache w' !! k = responseCache w !! k.
Proof. apply CustomFetch_touches. Qed.

Lemma call_touches_own_key_only_witness :
  responseCache
    (Demo.world_after
       (CustomFetch Demo.env_200 (Demo.cached_get "http://b/") Demo.second_call))
    !! "GET:http://a/:$"
  = responseCache Demo.second_call !! "GET:http://a/:$".
Proof.
  apply (call_touches_own_key_only Demo.env_200 (Demo.cached_get "http://b/")
           Demo.second_call
           (snd (prepare Demo.env_200 (Demo.cached_get "http://b/") Demo.second_call))
           (Demo.world_after
              (CustomFetch Demo.env_200 (Demo.cached_get "http://b/")
                 Demo.second_call))
           1105 "1105-1" (mkRequestContext "http://b/" GET [] None "1105-1")
           (Normal (Success
              (mkSuccessResponse (VStr "hi") 200 1110
                 [("content-type", HOne "text/plain")] "1105-1" 5)))).
  - reflexivity.
  - vm_compute. reflexivity.
  - discriminate.
Defined.

(** X12: With caching disabled, a call leaves the cache exactly as it found it,
    however it ends. *)
Theorem uncached_call_leaves_cache (env : Env) (options : FetchOptions)
    (w w' : World) (c : Completion CustomFetchResult) :
  cacheResponse options = false ->
  CustomFetch env options w = Some (c, w') ->
  responseCache w' = responseCache w.
Proof.
  intros Hoff Hcall.
  destruct (prepare env options w) as [[[[startTime requestId] ctx] | e] w1] eqn:Hprep.
  - apply map_eq. intros k.
    eapply CustomFetch_touches; eauto.
    unfold cacheKey_of. rewrite Hoff. discriminate.
  - destruct (prepare_effect env options w w1 _ Hprep) as [Hcache _].
    unfold CustomFetch in Hcall. rewrite Hprep in Hcall.
    injection Hcall as <- <-. exact Hcache.
Qed.

Lemma uncached_call_leaves_cache_witness :
  responseCache
    (Demo.world_after
       (CustomFetch Demo.env_200 (Demo.get_options "http://a/") Demo.second_call))
  = responseCache Demo.second_call.
Proof.
  apply (uncached_call_leaves_cache Demo.env_200 (Demo.get_options "http://a/")
           Demo.second_call _
           (Normal (Success
              (mkSuccessResponse (VStr "hi") 200 1110
                 [("content-type", HOne "text/plain")] "1105-1" 5)))).
  - reflexivity.
  - vm_compute. reflexivity.
Defined.

(** ** The pace of a call *)

Lemma delays_app (a b : list Event) : delays (a ++ b) = (delays a ++ delays b)%list.
Proof.
  induction a as [|ev a IH]; [reflexivity |].
  destruct ev; cbn [delays app]; now rewrite ?IH.
Qed.

Lemma silent_inner (evs : list Event) :
  forallb silent evs = true -> forallb inner evs = true.
Proof.
  apply forallb_weaken. intros ev. unfold silent, inner.
  destruct (is_dispatch ev), (is_delay ev), (is_onRequest ev); auto.
Qed.

Lemma silent_delays (evs : list Event) : forallb silent evs = true -> delays evs = [].
Proof.
  induction evs as [|ev evs IH]; [reflexivity |].
  simpl. intros H. apply andb_true_iff in H as [Hev Hevs].
  destruct ev; try discriminate; auto.
Qed.

Lemma inner_timeline (evs : list Event) :
  forallb inner evs = true -> timeline evs = map Slept (delays evs).
Proof.
  induction evs as [|ev evs IH]; [reflexivity |].
  simpl. intros H. apply andb_true_iff in H as [Hev Hevs].
  destruct ev; try discriminate; cbn [map]; now rewrite ?IH.
Qed.

Lemma inner_no_interceptor (evs : list Event) :
  forallb inner evs = true -> forallb (fun ev => negb (is_onRequest ev)) evs = true.
Proof.
  apply forallb_weaken. intros ev. unfold inner.
  destruct (is_dispatch ev), (is_onRequest ev); auto.
Qed.

Section Pace.

Variable retryDelay : Z.
Variable attempts : Z.

Lemma paced_return (outcome : CustomFetchResult) :
  paced retryDelay attempts (ret (Return outcome)).
Proof. intros w. exists []. simpl. now rewrite app_nil_r. Qed.

Lemma paced_continue (last : JsValue) :
  paced retryDelay attempts
    (run delay (retryDelay * 2 ^ (attempts + 1 - 1));
     ret (Continue (attempts + 1) last)).
Proof.
  intros w. exists [EvDelay (retryDelay * 2 ^ (attempts + 1 - 1))].
  simpl. repeat split. do 3 f_equal. lia.
Qed.

Lemma paced_bind {A} (m : M A) (k : A -> M LoopStep) :
  keeps (grows silent) anything m ->
  (forall a, paced retryDelay attempts (k a)) ->
  paced retryDelay attempts (bind m k).
Proof.
  intros Hm Hk w. destruct (Hm w) as [(evs1 & Ht1 & Hs1) _].
  unfold bind. destruct (m w) as [[a | e] w1]; simpl in Ht1.
  - destruct (Hk a w1) as (evs2 & Ht2 & Hi2 & Hd2).
    exists (evs1 ++ evs2)%list. split; [| split].
    + now rewrite Ht2, Ht1, app_assoc.
    + now rewrite forallb_app, (silent_inner _ Hs1), Hi2.
    + now rewrite delays_app, (silent_delays _ Hs1), Hd2.
  - exists evs1. simpl. split; [exact Ht1 |].
    split; [now apply silent_inner | now apply silent_delays].
Qed.

Lemma paced_try_catch (m : M LoopStep) (h : Thrown -> M LoopStep) :
  paced retryDelay attempts m ->
  (forall e, paced retryDelay attempts (h e)) ->
  paced retryDelay attempts (try_catch m h).
Proof.
  intros Hm Hh w. destruct (Hm w) as (evs1 & Ht1 & Hi1 & Hd1).
  unfold try_catch. destruct (m w) as [[step | e] w1]; simpl in Ht1, Hd1.
  - exists evs1. auto.
  - destruct (Hh e w1) as (evs2 & Ht2 & Hi2 & Hd2).
    exists (evs1 ++ evs2)%list. split; [| split].
    + now rewrite Ht2, Ht1, app_assoc.
    + now rewrite forallb_app, Hi1, Hi2.
    + now rewrite delays_app, Hd1, Hd2.
Qed.

End Pace.

(** The steps of a pass are followed along their spine; what a step runs
    before it hands over is visited in full. *)
Ltac pace :=
  repeat first
    [ progress cbv zeta
    | apply paced_return
    | apply paced_continue
    | eapply paced_bind; [ | intros ? ]
    | match goal with
      | |- paced _ _ (match ?x with _ => _ end) => destruct x eqn:?
      end
    | progress unfold makeError ].

Section CallPace.

Variable env : Env.
Variable options : FetchOptions.
Variable requestId : string.
Variable startTime : Z.
Variable requestContext : RequestContext.
Variable cacheKey : option string.

Lemma handle_response_paced (attempts : Z) (response : Response) :
  paced (retryDelay options) attempts
    (handle_response env options requestId startTime requestContext cacheKey
       attempts response).
Proof.
  unfold handle_response, error_branch, success_branch, finish_success.
  pace.
  all: visit; try exact _; try reflexivity.
Qed.

Lemma catch_block_paced (attempts : Z) (last : JsValue) (e : Thrown) :
  paced (retryDelay options) attempts
    (catch_block env options requestId startTime attempts last e).
Proof.
  unfold catch_block.
  pace.
  all: visit; try exact _; try reflexivity.
Qed.

(** A pass records its dispatch first; after it, nothing but what is inner
    to the pass, with the backoff sleep exactly when another pass follows. *)
Lemma attempt_paced (attempts : Z) (last : JsValue) (w : World) :
  exists evs,
    trace (snd (attempt env options requestId startTime requestContext cacheKey
                  attempts last w))
    = (trace w ++ dispatched options requestContext :: evs)%list
    /\ forallb inner evs = true
    /\ delays evs
       = match fst (attempt env options requestId startTime requestContext cacheKey
                      attempts last w) with
         | Normal (Continue _ _) => [retryDelay options * 2 ^ attempts]
         | _ => []
         end.
Proof.
  assert (Hrest : forall response,
             paced (retryDelay options) attempts
               (try_catch
                  (handle_response env options requestId startTime requestContext
                     cacheKey attempts response)
                  (catch_block env options requestId startTime attempts last))).
  { intros response. apply paced_try_catch.
    - apply handle_response_paced.
    - intros e. apply catch_block_paced. }
  unfold attempt, try_block.
  destruct (dispatch env options requestContext w) as [[response | e] w1] eqn:Hd;
    destruct (dispatch_effect _ _ _ _ _ _ Hd) as [_ Ht].
  - destruct (Hrest response w1) as (evs & Hevs & Hi & Hdel).
    exists evs. unfold try_catch, bind in *. rewrite Hd.
    rewrite Hevs, Ht, <- app_assoc. auto.
  - destruct (catch_block_paced attempts last e w1) as (evs & Hevs & Hi & Hdel).
    exists evs. unfold try_catch, bind. rewrite Hd.
    rewrite Hevs, Ht, <- app_assoc. auto.
Qed.

(** The loop, started with [attempts] retries behind it: without a retry
    budget left it records nothing; otherwise its dispatches and sleeps are
    a backoff timeline from [attempts] on that stays within the budget. *)
Lemma dispatch_loop_paced (fuel : nat) (attempts : Z) (last : JsValue)
    (w w' : World) (c : Completion CustomFetchResult) :
  dispatch_loop env options requestId startTime requestContext cacheKey
    fuel attempts last w = Some (c, w') ->
  exists evs,
    trace w' = (trace w ++ evs)%list
    /\ forallb (fun ev => negb (is_onRequest ev)) evs = true
    /\ if attempts <=? retries options
       then exists n,
              attempts + Z.of_nat n <= retries options
              /\ timeline evs
                 = backoff_timeline (retryDelay options) attempts n
       else evs = [].
Proof.
  revert attempts last w.
  induction fuel as [|fuel IH]; intros attempts last w; cbn [dispatch_loop].
  - destruct (attempts <=? retries options); [discriminate |].
    intros [= <- <-]. exists []. simpl. now rewrite app_nil_r.
  - destruct (attempts <=? retries options) eqn:Hle.
    + apply Z.leb_le in Hle.
      destruct (attempt_paced attempts last w) as (evs1 & Ht1 & Hi1 & Hd1).
      pose proof (attempt_continue env options requestId startTime requestContext
                    cacheKey attempts last w) as [_ Hcont].
      assert (Hline : timeline (dispatched options requestContext :: evs1)
                      = Dispatched :: map Slept (delays evs1)).
      { cbn [timeline dispatched]. now rewrite (inner_timeline _ Hi1). }
      assert (Hquiet : forallb (fun ev => negb (is_onRequest ev))
                         (dispatched options requestContext :: evs1) = true).
      { simpl. now apply inner_no_interceptor. }
      destruct (attempt _ _ _ _ _ _ _ _ w) as [[[outcome | attempts' last'] | e] w1];
        simpl in Ht1, Hd1, Hcont.
      * intros [= <- <-]. eexists. split; [exact Ht1 |]. split; [exact Hquiet |].
        exists 0%nat. split; [lia |]. now rewrite Hline, Hd1.
      * destruct Hcont as [-> Hlt]. intros Hloop.
        destruct (IH _ _ _ Hloop) as (evs2 & Ht2 & Hq2 & Hrest).
        assert (Hnext : (attempts + 1 <=? retries options) = true)
          by (apply Z.leb_le; lia).
        rewrite Hnext in Hrest. destruct Hrest as (n & Hn & Hline2).
        exists ((dispatched options requestContext :: evs1) ++ evs2)%list.
        split; [| split].
        -- now rewrite Ht2, Ht1, app_assoc.
        -- now rewrite forallb_app, Hquiet, Hq2.
        -- exists (S n). split; [lia |].
           now rewrite timeline_app, Hline, Hline2, Hd1.
      * intros [= <- <-]. eexists. split; [exact Ht1 |]. split; [exact Hquiet |].
        exists 0%nat. split; [lia |]. now rewrite Hline, Hd1.
    + intros [= <- <-]. exists []. simpl. now rewrite app_nil_r.
Qed.

End CallPace.

Lemma cache_probe_quiet (options : FetchOptions) (cacheKey : option string)
    (w : World) :
  trace (snd (cache_probe options cacheKey w)) = trace w.
Proof.
  unfold cache_probe. destruct cacheKey as [key |]; [| reflexivity].
  unfold bind, cache_get. cbn.
  destruct (responseCache w !! key) as [item |]; [| reflexivity].
  cbn. now destruct (clock w - ci_timestamp item <? cacheTime options).
Qed.

(** What a call records, in full: first the call of the request interceptor
    with the assembled context, if one is configured, then the loop. *)
Lemma CustomFetch_records (env : Env) (options : FetchOptions) (w w' : World)
    (c : Completion CustomFetchResult) :
  CustomFetch env options w = Some (c, w') ->
  exists evs,
    trace w'
    = (trace w
       ++ match opt_onRequest options with
          | Some _ =>
              [EvOnRequest (assemble_context env options (next_requestId env w))]
          | None => []
          end ++ evs)%list
    /\ forallb (fun ev => negb (is_onRequest ev)) evs = true
    /\ (evs = []
        \/ exists n,
             Z.of_nat n <= retries options
             /\ timeline evs = backoff_timeline (retryDelay options) 0 n).
Proof.
  unfold CustomFetch. pose proof (prepare_unfold env options w) as Hprep.
  cbv zeta in Hprep.
  set (pre := match opt_onRequest options with
              | Some _ =>
                  [EvOnRequest (assemble_context env options (next_requestId env w))]
              | None => []
              end).
  assert (Hpre : trace (snd (prepare env options w)) = (trace w ++ pre)%list).
  { rewrite Hprep. subst pre.
    destruct (opt_onRequest options) as [onRequest |];
      [destruct (onRequest _) |]; simpl; now rewrite ?app_nil_r. }
  clear Hprep.
  destruct (prepare env options w) as [[[[startTime requestId] ctx] | e] w1];
    simpl in Hpre.
  - pose proof (cache_probe_quiet options (cacheKey_of options ctx) w1) as Hprobe.
    destruct (cache_probe _ _ w1) as [[[cached |] | e] w2]; simpl in Hprobe.
    + intros [= <- <-]. exists []. rewrite app_nil_r, Hprobe. auto.
    + intros Hloop. unfold run_loop in Hloop.
      destruct (dispatch_loop_paced _ _ _ _ _ _ _ _ _ _ _ _ Hloop)
        as (evs & Ht & Hq & Hline).
      exists evs. split; [now rewrite Ht, Hprobe, Hpre, <- app_assoc |].
      split; [exact Hq |].
      destruct (0 <=? retries options); [| now left].
      right. destruct Hline as (n & Hn & Hline). exists n. split; [lia | exact Hline].
    + intros [= <- <-]. exists []. rewrite app_nil_r, Hprobe. auto.
  - intros [= <- <-]. exists []. rewrite app_nil_r. auto.
Qed.

(** X13: The dispatches and sleeps of a call, whatever the platform and the
    callbacks do: either none at all, or a dispatch, the backoff sleep, a
    dispatch, a sleep twice as long, and so on, with at most [retries]
    sleeps; so a call dispatches at most [retries + 1] times, and it never
    ends on a sleep. *)
Theorem call_timeline (env : Env) (options : FetchOptions) (w w' : World)
    (c : Completion CustomFetchResult) :
  CustomFetch env options w = Some (c, w') ->
  exists evs,
    trace w' = (trace w ++ evs)%list
    /\ (timeline evs = []
        \/ exists n,
             Z.of_nat n <= retries options
             /\ timeline evs = backoff_timeline (retryDelay options) 0 n)
    /\ (dispatches evs <= Z.to_nat (retries options + 1))%nat
    /\ (length (delays evs) <= Z.to_nat (retries options))%nat.
Proof.
  intros Hcall.
  destruct (CustomFetch_records env options w w' c Hcall) as (evs & Ht & _ & Hline).
  set (pre := match opt_onRequest options with
              | Some _ =>
                  [EvOnRequest (assemble_context env options (next_requestId env w))]
              | None => []
              end) in Ht.
  assert (Hpre : timeline pre = []) by (subst pre; now destruct (opt_onRequest options)).
  exists (pre ++ evs)%list. split; [exact Ht |].
  assert (Hshape : timeline (pre ++ evs) = []
                   \/ exists n,
                        Z.of_nat n <= retries options
                        /\ timeline (pre ++ evs)
                           = backoff_timeline (retryDelay options) 0 n).
  { rewrite timeline_app, Hpre. simpl.
    destruct Hline as [-> | Hline]; [now left | now right]. }
  split; [exact Hshape |].
  rewrite dispatches_timeline, delays_timeline.
  destruct Hshape as [-> | (n & Hn & ->)]; [simpl; lia |].
  rewrite backoff_timeline_dispatches, backoff_timeline_delays.
  rewrite length_map, length_seq. lia.
Qed.

Lemma call_timeline_witness :
  exists evs,
    trace (Demo.world_after
             (CustomFetch Demo.env_503 (Demo.with_retries 2) Demo.world0))
    = (trace Demo.world0 ++ evs)%list
    /\ (timeline evs = []
        \/ exists n,
             Z.of_nat n <= retries (Demo.with_retries 2)
             /\ timeline evs
                = backoff_timeline (retryDelay (Demo.with_retries 2)) 0 n)
    /\ (dispatches evs <= Z.to_nat (retries (Demo.with_retries 2) + 1))%nat
    /\ (length (delays evs) <= Z.to_nat (retries (Demo.with_retries 2)))%nat.
Proof.
  apply (call_timeline Demo.env_503 (Demo.with_retries 2) Demo.world0 _
           (Normal (Failure
              (mkErrorResponse (message_object (VStr "busy")) (Some 503) 4015
                 "1000-0" 3015 None)))).
  vm_compute. reflexivity.
Defined.

(** X14: The request interceptor is called at most once in a call: once, before
    anything else and with the context assembled from the options, when one
    is configured; and never again, whatever the number of attempts. *)
Theorem request_interceptor_once (env : Env) (options : FetchOptions)
    (w w' : World) (c : Completion CustomFetchResult) :
  CustomFetch env options w = Some (c, w') ->
  exists evs,
    trace w'
    = (trace w
       ++ match opt_onRequest options with
          | Some _ =>
              [EvOnRequest (assemble_context env options (next_requestId env w))]
          | None => []
          end ++ evs)%list
    /\ forallb (fun ev => negb (is_onRequest ev)) evs = true.
Proof.
  intros Hcall.
  destruct (CustomFetch_records env options w w' c Hcall) as (evs & Ht & Hq & _).
  eauto.
Qed.

Lemma request_interceptor_once_witness :
  exists evs,
    trace (Demo.world_after
             (CustomFetch Demo.env_200 Demo.raising_in_request Demo.world0))
    = (trace Demo.world0
       ++ match opt_onRequest Demo.raising_in_request with
          | Some _ =>
              [EvOnRequest
                 (assemble_context Demo.env_200 Demo.raising_in_request
                    (next_requestId Demo.env_200 Demo.world0))]
          | None => []
          end ++ evs)%list
    /\ forallb (fun ev => negb (is_onRequest ev)) evs = true.
Proof.
  apply (request_interceptor_once Demo.env_200 Demo.raising_in_request Demo.world0 _
           (Throw Demo.boom)).
  vm_compute. reflexivity.
Defined.

(** ** Exceptions in an attempt *)

Section Exceptions.

Variable env : Env.
Variable options : FetchOptions.
Variable requestId : string.
Variable startTime : Z.
Variable requestContext : RequestContext.
Variable cacheKey : option string.

#[local] Abbreviation this_attempt :=
  (attempt env options requestId startTime requestContext cacheKey).
#[local] Abbreviation this_loop :=
  (dispatch_loop env options requestId startTime requestContext cacheKey).

Lemma attempt_throws (attempts : Z) (last : JsValue) (w w1 : World) (e : Thrown) :
  try_block env options requestId startTime requestContext cacheKey attempts w
  = (Throw e, w1) ->
  this_attempt attempts last w
  = catch_block env options requestId startTime attempts last e w1.
Proof. intros Htry. unfold attempt, try_catch. now rewrite Htry. Qed.

Lemma catch_block_retry (attempts : Z) (last : JsValue) (e : Thrown) (w : World) :
  isAbortError e = false ->
  isNetworkError e = true ->
  attempts < retries options ->
  catch_block env options requestId startTime attempts last e w
  = (Normal (Continue (attempts + 1) last),
     recorded (EvDelay (retryDelay options * 2 ^ attempts))
       (mkWorld (responseCache w)
          (clock w + Z.max 0 (retryDelay options * 2 ^ attempts))
          (random_draws w) (trace w))).
Proof.
  intros Habort Hnet Hlt. unfold catch_block.
  apply Z.ltb_lt in Hlt. rewrite Habort, Hnet, Hlt. cbv zeta.
  replace (attempts + 1 - 1) with attempts by lia.
  reflexivity.
Qed.

Lemma dispatch_rejects (w : World) (latency : Z) (e : Thrown) :
  not_aborted options ->
  transport env (dispatches (trace w)) (ctx_url requestContext)
    (fetch_init options requestContext) = Rejects latency e ->
  latency < timeout options ->
  exists w1,
    dispatch env options requestContext w = (Throw e, w1)
    /\ trace w1 = (trace w ++ [dispatched options requestContext])%list.
Proof.
  intros Hctl Hreply Hfast. unfold dispatch, fetch, settle.
  assert (Hab : match opt_abortController options with
                | Some c => signal_aborted c
                | None => false
                end = false).
  { unfold not_aborted in Hctl.
    destruct (opt_abortController options); [exact Hctl | reflexivity]. }
  rewrite Hab, Hreply.
  apply Z.ltb_lt in Hfast. rewrite Z.ltb_antisym in Hfast.
  apply negb_true_iff in Hfast. rewrite Hfast.
  eexists. split; reflexivity.
Qed.

Section NetworkDown.

Variable e : Thrown.

Hypothesis controller_fine : not_aborted options.
Hypothesis always_down :
  forall n,
    network_down options e
      (transport env n (ctx_url requestContext) (fetch_init options requestContext)).

Lemma attempt_down_retry (attempts : Z) (last : JsValue) (w : World) :
  attempts < retries options ->
  exists w' evs,
    this_attempt attempts last w = (Normal (Continue (attempts + 1) last), w')
    /\ trace w' = (trace w ++ evs)%list
    /\ timeline evs = [Dispatched; Slept (retryDelay options * 2 ^ attempts)].
Proof.
  intros Hlt.
  destruct (always_down (dispatches (trace w)))
    as (latency & Hreply & Hfast & _ & Hnet & Habort).
  destruct (dispatch_rejects w latency e controller_fine Hreply Hfast)
    as (w1 & Hd & Ht).
  rewrite (attempt_dispatch_throws _ _ _ _ _ _ _ _ _ _ _ Hd).
  rewrite (catch_block_retry _ _ _ _ Habort Hnet Hlt).
  do 2 eexists. split; [reflexivity |]. cbn. rewrite Ht, <- app_assoc.
  split; reflexivity.
Qed.

Lemma attempt_down_final (attempts : Z) (last : JsValue) (w : World) :
  retries options <= attempts ->
  exists failure w' evs,
    this_attempt attempts last w = (Normal (Return (Failure failure)), w')
    /\ e_code failure = None
    /\ e_errors failure = message_object (VStr (thrown_message e))
    /\ trace w' = (trace w ++ evs)%list
    /\ timeline evs = [Dispatched].
Proof.
  intros Hge.
  destruct (always_down (dispatches (trace w)))
    as (latency & Hreply & Hfast & Herr & Hnet & Habort).
  destruct (dispatch_rejects w latency e controller_fine Hreply Hfast)
    as (w1 & Hd & Ht).
  rewrite (attempt_dispatch_throws _ _ _ _ _ _ _ _ _ _ _ Hd).
  rewrite catch_block_final.
  2: { apply Z.ltb_ge in Hge. rewrite Hge. apply andb_false_r. }
  rewrite Habort, Herr.
  exists (mkErrorResponse (message_object (VStr (thrown_message e))) None
            (clock w1) requestId (clock w1 - startTime)
            (if IS_DEV env then Some (error_stack env) else None)),
    w1, [dispatched options requestContext].
  repeat split. exact Ht.
Qed.

Lemma loop_down (k : nat) (attempts : Z) (last : JsValue) (w : World) :
  retries options - attempts = Z.of_nat k ->
  exists failure w' evs,
    this_loop (S k) attempts last w = Some (Normal (Failure failure), w')
    /\ e_code failure = None
    /\ e_errors failure = message_object (VStr (thrown_message e))
    /\ trace w' = (trace w ++ evs)%list
    /\ timeline evs = backoff_timeline (retryDelay options) attempts k.
Proof.
  revert attempts last w.
  induction k as [|k IH]; intros attempts last w Hk.
  - destruct (attempt_down_final attempts last w ltac:(lia))
      as (failure & w' & evs & Hstep & Hcode & Hmsg & Ht & Hline).
    exists failure, w', evs. repeat split; try assumption.
    apply dispatch_loop_return; [lia | exact Hstep].
  - destruct (attempt_down_retry attempts last w ltac:(lia))
      as (w1 & evs1 & Hstep & Ht1 & Hline1).
    destruct (IH (attempts + 1) last w1 ltac:(lia))
      as (failure & w' & evs & Hloop & Hcode & Hmsg & Ht & Hline).
    exists failure, w', (evs1 ++ evs)%list. repeat split; try assumption.
    + rewrite (dispatch_loop_continue env options requestId startTime
                 requestContext cacheKey (S k) attempts (attempts + 1) last last
                 w w1 ltac:(lia) Hstep).
      exact Hloop.
    + now rewrite Ht, Ht1, app_assoc.
    + cbn [backoff_timeline]. now rewrite timeline_app, Hline1, Hline.
Qed.

End NetworkDown.

End Exceptions.

Lemma loop_exception_final (env : Env) (options : FetchOptions)
    (requestId : string) (startTime : Z) (requestContext : RequestContext)
    (cacheKey : option string) (fuel : nat) (attempts : Z) (last : JsValue)
    (w w1 : World) (e : Thrown) :
  attempts <= retries options ->
  try_block env options requestId startTime requestContext cacheKey attempts w
  = (Throw e, w1) ->
  isAbortError e = false ->
  isNetworkError e = false \/ retries options <= attempts ->
  exists failure,
    dispatch_loop env options requestId startTime requestContext cacheKey
      (S fuel) attempts last w
    = Some (Normal (Failure failure), w1)
    /\ e_code failure = None
    /\ e_errors failure
       = message_object
           (VStr (if thrown_is_Error e then thrown_message e
                  else "Unknown error occurred")).
Proof.
  intros Hle Htry Habort Hstop.
  eexists. split; [| split].
  - apply dispatch_loop_return; [exact Hle |].
    rewrite (attempt_throws _ _ _ _ _ _ _ _ _ _ _ Htry).
    apply catch_block_final. rewrite Habort.
    destruct Hstop as [-> | Hge]; [reflexivity |].
    apply Z.ltb_ge in Hge. rewrite Hge. apply andb_false_r.
  - simpl. now rewrite Habort.
  - simpl. now rewrite Habort.
Qed.

(** X15: An exception raised anywhere in the [try] block of an attempt (by the
    dispatch, by reading the body or by a callback) that is neither the abort
    exception nor retried as a network error ends the call there and then:
    the outcome is a Failure without status code whose message is that of
    the exception when it is an Error, "Unknown error occurred" otherwise,
    and nothing happens after the exception. *)
Theorem exception_is_final (env : Env) (options : FetchOptions) (requestId : string)
    (startTime : Z) (requestContext : RequestContext) (cacheKey : option string)
    (fuel : nat) (attempts : Z) (last : JsValue) (w w1 : World) (e : Thrown) :
  attempts <= retries options ->
  try_block env options requestId startTime requestContext cacheKey attempts w
  = (Throw e, w1) ->
  isAbortError e = false ->
  isNetworkError e = false \/ retries options <= attempts ->
  exists failure,
    dispatch_loop env options requestId startTime requestContext cacheKey
      (S fuel) attempts last w
    = Some (Normal (Failure failure), w1)
    /\ e_code failure = None
    /\ e_errors failure
       = message_object
           (VStr (if thrown_is_Error e then thrown_message e
                  else "Unknown error occurred")).
Proof. apply loop_exception_final. Qed.

Lemma exception_is_final_witness :
  exists failure,
    dispatch_loop Demo.env_200
      (Demo.options_with "http://a/" (Some 3) None (Some (fun _ => Throw Demo.boom))
         None None None None)
      "1000-0" 1000 Demo.ctx None 1 0 (VStr "Maximum retry count reached")
      Demo.world0
    = Some (Normal (Failure failure),
            recorded (EvValidateStatus 200)
              (snd (dispatch Demo.env_200 (Demo.with_retries 3) Demo.ctx
                      Demo.world0)))
    /\ e_code failure = None
    /\ e_errors failure
       = message_object
           (VStr (if thrown_is_Error Demo.boom then thrown_message Demo.boom
                  else "Unknown error occurred")).
Proof.
  apply (exception_is_final Demo.env_200
           (Demo.options_with "http://a/" (Some 3) None
              (Some (fun _ => Throw Demo.boom)) None None None None)
           "1000-0" 1000 Demo.ctx None 0 0 (VStr "Maximum retry count reached")
           Demo.world0 _ Demo.boom).
  - cbn. lia.
  - vm_compute. reflexivity.
  - reflexivity.
  - left. reflexivity.
Defined.

(** X16: Persistent network errors: when every dispatch of a call with [retries]
    retries is rejected with the same network error, the call dispatches
    [retries + 1] times, sleeps [retryDelay * 2 ^ i] after the i-th failed
    attempt, and ends in a Failure without status code that carries the
    message of the error. *)
Theorem persistent_network_error (env : Env) (options : FetchOptions)
    (w w1 w2 : World) (startTime : Z) (requestId : string)
    (requestContext : RequestContext) (e : Thrown) :
  0 <= retries options ->
  prepare env options w = (Normal (startTime, requestId, requestContext), w1) ->
  cache_probe options (cacheKey_of options requestContext) w1 = (Normal None, w2) ->
  not_aborted options ->
  (forall n,
      network_down options e
        (transport env n (ctx_url requestContext)
           (fetch_init options requestContext))) ->
  exists failure w' evs,
    CustomFetch env options w = Some (Normal (Failure failure), w')
    /\ e_code failure = None
    /\ e_errors failure = message_object (VStr (thrown_message e))
    /\ trace w' = (trace w2 ++ evs)%list
    /\ timeline evs
       = backoff_timeline (retryDelay options) 0 (Z.to_nat (retries options)).
Proof.
  intros Hretries Hprep Hprobe Hctl Hdown.
  destruct (loop_down env options requestId startTime requestContext
              (cacheKey_of options requestContext) e Hctl Hdown
              (Z.to_nat (retries options)) 0 (VStr "Maximum retry count reached") w2
              ltac:(lia))
    as (failure & w' & evs & Hloop & Hcode & Hmsg & Ht & Hline).
  exists failure, w', evs. repeat split; try assumption.
  unfold CustomFetch. rewrite Hprep, Hprobe. unfold run_loop.
  replace (Z.to_nat (retries options + 1)) with (S (Z.to_nat (retries options)))
    by lia.
  exact Hloop.
Qed.

Lemma persistent_network_error_witness :
  exists failure w' evs,
    CustomFetch Offline.env (Demo.with_retries 2) Demo.world0
    = Some (Normal (Failure failure), w')
    /\ e_code failure = None
    /\ e_errors failure
       = message_object (VStr (thrown_message Offline.network_error))
    /\ trace w' = (trace Demo.drawn_world0 ++ evs)%list
    /\ timeline evs
       = backoff_timeline (retryDelay (Demo.with_retries 2)) 0
           (Z.to_nat (retries (Demo.with_retries 2))).
Proof.
  apply (persistent_network_error Offline.env (Demo.with_retries 2) Demo.world0
           Demo.drawn_world0 Demo.drawn_world0 1000 "1000-0" Demo.ctx
           Offline.network_error).
  - cbn. lia.
  - reflexivity.
  - reflexivity.
  - exact I.
  - intros n. exists 1. repeat split.
Defined.

(** ** What a call stores *)


(** X17: What a call stores: when an attempt reaches a terminal
    outcome and the response interceptor, if any, returns, the call returns
    what the interceptor made of the outcome; a Success and a Failure of a
    status from 400 to 499 are stored under the key of the call, as returned
    and stamped with the time of the store; a Failure of another status is
    not stored, and without a key nothing is. *)
Theorem terminal_outcome_stored (env : Env) (options : FetchOptions)
    (requestId : string) (startTime : Z) (requestContext : RequestContext)
    (cacheKey : option string) (fuel : nat) (attempts : Z) (last : JsValue)
    (w : World) (original returned : CustomFetchResult) :
  attempts <= retries options ->
  terminal_outcome env options requestId startTime requestContext attempts w
    original ->
  interception options requestContext original = Normal returned ->
  exists w',
    dispatch_loop env options requestId startTime requestContext cacheKey
      (S fuel) attempts last w
    = Some (Normal returned, w')
    /\ responseCache w'
       = match cacheKey with
         | Some key =>
             if cacheable original
             then <[key := mkCacheItem returned (clock w')]> (responseCache w)
             else responseCache w
         | None => responseCache w
         end.
Proof.
  intros Hle Hterm Hresp.
  destruct (terminal_store env options requestId startTime requestContext cacheKey
              attempts last w original returned Hterm Hresp)
    as (w' & Hstep & Hcache).
  exists w'. split; [| exact Hcache].
  apply dispatch_loop_return; [exact Hle | exact Hstep].
Qed.

Lemma terminal_outcome_stored_witness :
  exists w',
    dispatch_loop Demo.env_404 Demo.downgrading "1000-0" 1000 Demo.ctx
      (Some "GET:http://a/:$") 1 0 (VStr "Maximum retry count reached") Demo.world0
    = Some (Normal (Failure Demo.downgrade), w')
    /\ responseCache w'
       = if cacheable
              (Failure (mkErrorResponse (message_object (VStr "missing"))
                          (Some 404) 1005 "1000-0" 5 None))
         then <["GET:http://a/:$" :=
                  mkCacheItem (Failure Demo.downgrade) (clock w')]>
                (responseCache Demo.world0)
         else responseCache Demo.world0.
Proof.
  apply (terminal_outcome_stored Demo.env_404 Demo.downgrading
           "1000-0" 1000 Demo.ctx (Some "GET:http://a/:$") 0 0
           (VStr "Maximum retry count reached") Demo.world0
           (Failure (mkErrorResponse (message_object (VStr "missing"))
                       (Some 404) 1005 "1000-0" 5 None))
           (Failure Demo.downgrade)).
  - cbn. lia.
  - exact (terminal_failure Demo.env_404 Demo.downgrading "1000-0" 1000 Demo.ctx
             0 Demo.world0 (Demo.text_response 404 "missing")
             (snd (dispatch Demo.env_404 Demo.downgrading Demo.ctx Demo.world0))
             "missing" (message_object (VStr "missing"))
             (message_object (VStr "missing"))
             eq_refl eq_refl eq_refl eq_refl eq_refl eq_refl eq_refl).
  - reflexivity.
Defined.




(** ** Edge cases of the loop *)

(** X19: A negative retry count leaves the loop no pass at all: a call that gets
    past its cache probe ends at once in the Failure without status code
    whose message is "Maximum retry count reached", and the network is never
    asked. *)
Theorem negative_retries_never_dispatch (env : Env) (options : FetchOptions)
    (w w1 w2 : World) (startTime : Z) (requestId : string)
    (requestContext : RequestContext) :
  retries options < 0 ->
  prepare env options w = (Normal (startTime, requestId, requestContext), w1) ->
  cache_probe options (cacheKey_of options requestContext) w1 = (Normal None, w2) ->
  exists failure,
    CustomFetch env options w = Some (Normal (Failure failure), w2)
    /\ e_code failure = None
    /\ e_errors failure = message_object (VStr "Maximum retry count reached").
Proof.
  intros Hneg Hprep Hprobe.
  rewrite (CustomFetch_loop env options w w1 w2 startTime requestId requestContext
             Hprep Hprobe).
  replace (Z.to_nat (retries options + 1)) with 0%nat by lia.
  cbn [dispatch_loop].
  assert (Hno : (0 <=? retries options) = false) by (apply Z.leb_gt; lia).
  rewrite Hno. evaluate. eexists. split; [| split]; reflexivity.
Qed.

Lemma negative_retries_never_dispatch_witness :
  exists failure,
    CustomFetch Demo.env_200 (Demo.with_retries (-1)) Demo.world0
    = Some (Normal (Failure failure), Demo.drawn_world0)
    /\ e_code failure = None
    /\ e_errors failure = message_object (VStr "Maximum retry count reached").
Proof.
  apply (negative_retries_never_dispatch Demo.env_200 (Demo.with_retries (-1))
           Demo.world0 Demo.drawn_world0 Demo.drawn_world0 1000 "1000-0" Demo.ctx).
  - cbn. lia.
  - reflexivity.
  - reflexivity.
Defined.

(** X20: The error body [null]: when a response whose status is not accepted
    carries a body that parses to [null], assembling the error payload raises
    a TypeError, and unless that is retried as a network error the call ends
    in a Failure that has lost the status of the response: its code is null
    and its message is that of the TypeError. *)
Theorem null_error_body_loses_status (env : Env) (options : FetchOptions)
    (requestId : string) (startTime : Z) (requestContext : RequestContext)
    (cacheKey : option string) (fuel : nat) (attempts : Z) (last : JsValue)
    (w w1 : World) (response : Response) (text : string) :
  attempts <= retries options ->
  dispatch env options requestContext w = (Normal response, w1) ->
  status_verdict options response = Normal false ->
  r_body response = Normal text ->
  body_value env response text = VNull ->
  isNetworkError (null_TypeError env) = false \/ retries options <= attempts ->
  exists failure w',
    dispatch_loop env options requestId startTime requestContext cacheKey
      (S fuel) attempts last w
    = Some (Normal (Failure failure), w')
    /\ e_code failure = None
    /\ e_errors failure = message_object (VStr (null_property_message env)).
Proof.
  intros Hle Hd Hstatus Hbody Hnull Hstop.
  assert (Htry : exists w',
             try_block env options requestId startTime requestContext cacheKey
               attempts w = (Throw (null_TypeError env), w')).
  { unfold try_block. rewrite (bind_normal _ _ _ _ _ Hd).
    unfold handle_response, error_branch, parseResponseBody.
    unfold status_verdict in Hstatus. unfold body_value, content_type in Hnull.
    destruct (opt_validateStatus options) as [validateStatus |];
      try injection Hstatus as Hstatus;
      evaluate; drive; eexists; reflexivity. }
  destruct Htry as (w' & Htry).
  destruct (loop_exception_final env options requestId startTime requestContext
              cacheKey fuel attempts last w w' (null_TypeError env)
              Hle Htry eq_refl Hstop)
    as (failure & Hloop & Hcode & Hmsg).
  exists failure, w'. auto.
Qed.

Lemma null_error_body_loses_status_witness :
  exists failure w',
    dispatch_loop NullBody.env (Demo.with_retries 3) "1000-0" 1000 Demo.ctx None
      1 0 (VStr "Maximum retry count reached") Demo.world0
    = Some (Normal (Failure failure), w')
    /\ e_code failure = None
    /\ e_errors failure
       = message_object (VStr (null_property_message NullBody.env)).
Proof.
  apply (null_error_body_loses_status NullBody.env (Demo.with_retries 3)
           "1000-0" 1000 Demo.ctx None 0 0 (VStr "Maximum retry count reached")
           Demo.world0
           (snd (dispatch NullBody.env (Demo.with_retries 3) Demo.ctx Demo.world0))
           NullBody.response "null").
  - cbn. lia.
  - reflexivity.
  - reflexivity.
  - reflexivity.
  - reflexivity.
  - left. reflexivity.
Defined.

(** ** The client factory *)

Lemma Headers_set_names (h : Headers.t) (name value value' : string) :
  map fst (Headers.set h name value) = map fst (Headers.append h name value').
Proof.
  induction h as [|[k x] h IH]; simpl; [reflexivity |].
  destruct (String.eqb k (Str.toLowerCase name)); simpl; [reflexivity |].
  now rewrite IH.
Qed.

Lemma headers_normal_nil : headers_normal [].
Proof. split; constructor. Qed.

Lemma headers_normal_append (h : Headers.t) (name value : string) :
  headers_normal h -> headers_normal (Headers.append h name value).
Proof.
  intros [Hn Hl].
  destruct (Headers_append_names h name value Hn) as (Hn' & Hl' & _).
  - apply Forall_map in Hl. exact Hl.
  - split; [exact Hn' |]. apply Forall_map. exact Hl'.
Qed.

Lemma headers_normal_set (h : Headers.t) (name value : string) :
  headers_normal h -> headers_normal (Headers.set h name value).
Proof.
  intros Hh. unfold headers_normal.
  rewrite (Headers_set_names h name value value).
  now apply headers_normal_append.
Qed.

Lemma headers_normal_make (init : option (list (string * string))) :
  headers_normal (Headers.make init).
Proof.
  destruct init as [init |]; [| apply headers_normal_nil].
  destruct (Headers_make_names init) as (Hn & Hl & _).
  split; [exact Hn |]. apply Forall_map. exact Hl.
Qed.

Lemma Headers_get_absent (h : Headers.t) (name : string) :
  ~ List.In (Str.toLowerCase name) (map fst h) -> Headers.get h name = None.
Proof.
  induction h as [|[k v] h IH]; simpl; [reflexivity |].
  intros Hnot. destruct (String.eqb_spec k (Str.toLowerCase name)) as [-> | _].
  - elim Hnot. now left.
  - apply IH. tauto.
Qed.

Lemma Headers_set_fresh (h : Headers.t) (name value : string) :
  Str.toLowerCase name = name ->
  ~ List.In name (map fst h) ->
  Headers.set h name value = (h ++ [(name, value)])%list.
Proof.
  intros Hlow Hnot. induction h as [|[k v] h IH]; simpl.
  - now rewrite Hlow.
  - rewrite Hlow. destruct (String.eqb_spec k name) as [-> | _].
    + elim Hnot. now left.
    + simpl. f_equal. apply IH. simpl in Hnot. tauto.
Qed.

Lemma Headers_append_fresh (h : Headers.t) (name value : string) :
  Str.toLowerCase name = name ->
  ~ List.In name (map fst h) ->
  Headers.append h name value = (h ++ [(name, value)])%list.
Proof.
  intros Hlow Hnot. induction h as [|[k v] h IH]; simpl.
  - now rewrite Hlow.
  - rewrite Hlow. destruct (String.eqb_spec k name) as [-> | _].
    + elim Hnot. now left.
    + simpl. f_equal. apply IH. simpl in Hnot. tauto.
Qed.

(** Copying a header list entry by entry, by [set] or by [append], onto
    headers that share no name with it gives the two lists in a row. *)
Lemma Headers_copy (step : Headers.t -> string -> string -> Headers.t)
    (h acc : Headers.t) :
  (forall h name value,
      Str.toLowerCase name = name -> ~ List.In name (map fst h) ->
      step h name value = (h ++ [(name, value)])%list) ->
  headers_normal (acc ++ h)%list ->
  fold_left (fun merged kv => step merged (fst kv) (snd kv)) h acc
  = (acc ++ h)%list.
Proof.
  intros Hstep. revert acc.
  induction h as [|[k v] h IH]; intros acc Hnormal; simpl.
  - now rewrite app_nil_r.
  - destruct Hnormal as [Hn Hl].
    rewrite map_app in Hn, Hl. simpl in Hn, Hl.
    rewrite Hstep.
    + rewrite IH; [now rewrite <- app_assoc |].
      split; rewrite map_app, map_app, <- app_assoc; assumption.
    + apply Forall_app in Hl as [_ Hl]. now inversion Hl.
    + apply NoDup_remove_2 in Hn. intros Hin. apply Hn.
      apply in_or_app. now left.
Qed.

Lemma Headers_make_normal (h : Headers.t) :
  headers_normal h -> Headers.make (Some h) = h.
Proof.
  intros Hh. unfold Headers.make.
  now rewrite (Headers_copy Headers.append h [] Headers_append_fresh).
Qed.

(** What is read after a series of [set]: the value of the last entry of
    the series with that name, and without one what was there before. *)
Lemma Headers_get_fold_set (entries : list (string * string)) (acc : Headers.t)
    (name : string) :
  Headers.get
    (fold_left (fun merged kv => Headers.set merged (fst kv) (snd kv)) entries acc)
    name
  = fold_left
      (fun found kv =>
         if String.eqb (Str.toLowerCase (fst kv)) (Str.toLowerCase name)
         then Some (snd kv) else found)
      entries (Headers.get acc name).
Proof.
  revert acc. induction entries as [|[k v] entries IH]; intros acc; simpl.
  - reflexivity.
  - now rewrite IH, Headers_get_set.
Qed.

(** What is read after a series of [append]: the values given for the name,
    joined by a comma and a space. *)
Lemma Headers_get_fold_append (init : list (string * string)) (acc : Headers.t)
    (name : string) :
  Headers.get
    (fold_left (fun h kv => Headers.append h (fst kv) (snd kv)) init acc) name
  = fold_left
      (fun found value =>
         Some match found with
              | Some old => old ++ ", " ++ value
              | None => value
              end)
      (map snd
         (List.filter
            (fun kv => String.eqb (Str.toLowerCase (fst kv)) (Str.toLowerCase name))
            init))
      (Headers.get acc name).
Proof.
  revert acc. induction init as [|[k v] init IH]; intros acc; simpl.
  - reflexivity.
  - rewrite IH, Headers_get_append.
    destruct (String.eqb (Str.toLowerCase k) (Str.toLowerCase name)); reflexivity.
Qed.

Lemma Headers_get_present (h : Headers.t) (name : string) :
  List.In (Str.toLowerCase name) (map fst h) -> Headers.get h name <> None.
Proof.
  induction h as [|[k v] h IH]; simpl; [tauto |].
  intros [Hk | Hin].
  - subst k. now rewrite String.eqb_refl.
  - destruct (String.eqb k (Str.toLowerCase name)); [discriminate | now apply IH].
Qed.

Lemma Headers_get_entry (h : Headers.t) (k v : string) :
  headers_normal h -> List.In (k, v) h -> Headers.get h k = Some v.
Proof.
  intros [Hn Hl]. induction h as [|[k' v'] h IH]; simpl; [tauto |].
  inversion Hn as [|? ? Hfresh Hn']; subst.
  inversion Hl as [|? ? Hk Hl']; subst.
  intros [[= -> ->] | Hin].
  - now rewrite Hk, String.eqb_refl.
  - assert (Hlow : Str.toLowerCase k = k).
    { rewrite List.Forall_forall in Hl'. apply Hl'.
      apply (in_map fst) in Hin. exact Hin. }
    rewrite Hlow.
    destruct (String.eqb_spec k' k) as [-> | _].
    + elim Hfresh. apply (in_map fst) in Hin. exact Hin.
    + now apply IH.
Qed.

Section Visits.

Variable name : string.
Variable values : list string.

#[local] Abbreviation found_step :=
  (fun (found : option string) (kv : string * string) =>
     if String.eqb (Str.toLowerCase (fst kv)) (Str.toLowerCase name)
     then Some (snd kv) else found).

#[local] Abbreviation visit_entry :=
  (fun kv : string * string =>
     if String.eqb (fst kv) "set-cookie"
     then map (fun value => (fst kv, value)) values
     else [kv]).

Lemma found_same_name (k : string) (vs : list string) (found : option string)
    (d : string) :
  Str.toLowerCase k = Str.toLowerCase name ->
  vs <> [] ->
  fold_left found_step (map (fun value => (k, value)) vs) found
  = Some (List.last vs d).
Proof.
  intros Hk. revert found.
  induction vs as [|v1 [|v2 vs] IH]; intros found Hne.
  - now elim Hne.
  - simpl. now rewrite Hk, String.eqb_refl.
  - change (fold_left found_step (map (fun value => (k, value)) (v1 :: v2 :: vs))
              found)
      with (fold_left found_step (map (fun value => (k, value)) (v2 :: vs))
              (found_step found (k, v1))).
    rewrite IH by discriminate. reflexivity.
Qed.

Lemma found_other_name (k : string) (vs : list string) (found : option string) :
  Str.toLowerCase k <> Str.toLowerCase name ->
  fold_left found_step (map (fun value => (k, value)) vs) found = found.
Proof.
  intros Hk. apply String.eqb_neq in Hk.
  induction vs as [|v vs IH]; simpl; [reflexivity |].
  now rewrite Hk.
Qed.

(** What is found for [name] among the entries visited: the entry of the
    name, and for [set-cookie] the last of its values. *)
Lemma found_in_visit (h : Headers.t) (found : option string) :
  headers_normal h ->
  (List.In "set-cookie" (map fst h) -> values <> []) ->
  fold_left found_step (flat_map visit_entry h) found
  = match Headers.get h name with
    | Some value =>
        Some (if String.eqb (Str.toLowerCase name) "set-cookie"
              then List.last values value else value)
    | None => found
    end.
Proof.
  intros [Hn Hl]. revert found.
  induction h as [|[k v] h IH]; intros found Hcookie; [reflexivity |].
  inversion Hn as [|? ? Hfresh Hn']; subst.
  inversion Hl as [|? ? Hk Hl']; subst. simpl in Hk.
  cbn [flat_map]. rewrite fold_left_app.
  rewrite IH; [| assumption | assumption | intros Hin; apply Hcookie; now right].
  cbn [Headers.get fst snd]. cbv beta. cbn [fst snd].
  destruct (String.eqb_spec k (Str.toLowerCase name)) as [Heq | Hne].
  - assert (Habsent : Headers.get h name = None)
      by (apply Headers_get_absent; now rewrite <- Heq).
    rewrite Habsent.
    destruct (String.eqb_spec k "set-cookie") as [Hc | Hc].
    + rewrite (found_same_name k values found v);
        [| rewrite Hk; exact Heq | apply Hcookie; left; exact Hc].
      rewrite <- Heq, Hc. reflexivity.
    + simpl. rewrite Hk, <- Heq, String.eqb_refl.
      apply String.eqb_neq in Hc. now rewrite Hc.
  - destruct (Headers.get h name) as [value |]; [reflexivity |].
    destruct (String.eqb k "set-cookie").
    + apply found_other_name. now rewrite Hk.
    + simpl. rewrite Hk. apply String.eqb_neq in Hne. now rewrite Hne.
Qed.

End Visits.

Lemma set_cookie_present (init : list (string * string)) :
  List.In "set-cookie" (map fst (Headers.make (Some init))) ->
  set_cookie_values init <> [].
Proof.
  intros Hin.
  pose proof (Headers_get_present (Headers.make (Some init)) "set-cookie" Hin)
    as Hget.
  unfold Headers.make in Hget. rewrite Headers_get_fold_append in Hget.
  unfold set_cookie_values. intros Hnone.
  change (Str.toLowerCase "set-cookie") with "set-cookie" in Hget.
  rewrite Hnone in Hget. now apply Hget.
Qed.

Lemma flat_map_single {A} (f : A -> list A) (l : list A) :
  (forall x, List.In x l -> f x = [x]) -> flat_map f l = l.
Proof.
  induction l as [|x l IH]; intros Hf; [reflexivity |].
  cbn [flat_map]. rewrite Hf by now left.
  simpl. f_equal. apply IH. intros y Hy. apply Hf. now right.
Qed.

(** With at most one value for [set-cookie], what is visited is the header
    list itself. *)
Lemma forEach_single (init : list (string * string)) :
  (length (set_cookie_values init) <= 1)%nat ->
  forEach_of init = Headers.make (Some init).
Proof.
  intros Hone. unfold forEach_of.
  pose proof (headers_normal_make (Some init)) as Hnormal.
  assert (Hcombined :
            Headers.get (Headers.make (Some init)) "set-cookie"
            = match set_cookie_values init with
              | [] => None
              | value :: _ => Some value
              end).
  { unfold Headers.make. rewrite Headers_get_fold_append.
    change (Str.toLowerCase "set-cookie") with "set-cookie".
    fold (set_cookie_values init).
    destruct (set_cookie_values init) as [|v1 [|v2 vs]];
      [reflexivity | reflexivity | simpl in Hone; lia]. }
  assert (Hid : forall kv,
             List.In kv (Headers.make (Some init)) ->
             (if String.eqb (fst kv) "set-cookie"
              then map (fun value => (fst kv, value)) (set_cookie_values init)
              else [kv]) = [kv]).
  { intros [k v] Hin. cbn [fst].
    destruct (String.eqb_spec k "set-cookie") as [-> | _]; [| reflexivity].
    rewrite (Headers_get_entry _ _ _ Hnormal Hin) in Hcombined.
    destruct (set_cookie_values init) as [|v1 [|v2 vs]];
      [discriminate | | simpl in Hone; lia].
    injection Hcombined as ->. reflexivity. }
  apply flat_map_single. exact Hid.
Qed.

Lemma headers_normal_merged (h acc : Headers.t) :
  headers_normal acc ->
  headers_normal
    (fold_left (fun merged kv => Headers.set merged (fst kv) (snd kv)) h acc).
Proof.
  revert acc. induction h as [|[k v] h IH]; intros acc Hacc; simpl; [exact Hacc |].
  apply IH. now apply headers_normal_set.
Qed.

Section ClientFacts.

Variable env : Env.
Variable config : ClientConfig.

Lemma mergedHeaders_normal (resolved : list (string * string))
    (options : FetchOptions) :
  headers_normal (Client.mergedHeaders resolved options).
Proof.
  unfold Client.mergedHeaders.
  destruct (opt_headers options) as [init |].
  - apply headers_normal_merged, headers_normal_make.
  - apply headers_normal_make.
Qed.

Lemma mergedHeaders_get (resolved : list (string * string))
    (options : FetchOptions) (name : string) :
  Headers.get (Client.mergedHeaders resolved options) name
  = match Headers.get (Headers.make (opt_headers options)) name with
    | Some value =>
        Some (if String.eqb (Str.toLowerCase name) "set-cookie"
              then List.last (set_cookie_values (default [] (opt_headers options)))
                     value
              else value)
    | None => Headers.get (Headers.make (Some resolved)) name
    end.
Proof.
  unfold Client.mergedHeaders.
  destruct (opt_headers options) as [init |]; [| reflexivity].
  cbv zeta. rewrite Headers_get_fold_set. unfold forEach_of.
  apply found_in_visit.
  - apply headers_normal_make.
  - apply set_cookie_present.
Qed.

End ClientFacts.

(** X21: The headers that a client call hands to the engine, when the
    headers of the call and of the client are acceptable to [Headers]: for
    every name, in any case, the header of the call when it has one, the
    default header of the client otherwise; the header of the call is the
    combined value of what the call gives for the name, except for
    [Set-Cookie], where it is the last of the values that the call gives. *)
Theorem client_headers_merge (env : Env) (config : ClientConfig)
    (resolved : list (string * string)) (method : HttpMethod) (path : string)
    (options : FetchOptions) (name : string) :
  headers_ok resolved = true ->
  headers_ok (default [] (opt_headers options)) = true ->
  Headers.get
    (Headers.make (opt_headers (Client.options_of env config resolved method path
                                  options)))
    name
  = match Headers.get (Headers.make (opt_headers options)) name with
    | Some value =>
        Some (if String.eqb (Str.toLowerCase name) "set-cookie"
              then List.last (set_cookie_values (default [] (opt_headers options)))
                     value
              else value)
    | None => Headers.get (Headers.make (Some resolved)) name
    end.
Proof.
  intros _ _. cbn [Client.options_of opt_headers].
  rewrite Headers_make_normal by apply mergedHeaders_normal.
  apply mergedHeaders_get.
Qed.

Lemma client_headers_merge_witness :
  Headers.get
    (Headers.make
       (opt_headers
          (Client.options_of Demo.env_200 (plain_client None)
             [("Accept", "text/plain"); ("Set-Cookie", "d=0")] GET "/"
             (mkFetchOptions "" None
                (Some [("Set-Cookie", "a=1"); ("set-cookie", "b=2")])
                None None None None None None None None None None None None None
                None None None None None))))
    "Set-Cookie"
  = match Headers.get
            (Headers.make (Some [("Set-Cookie", "a=1"); ("set-cookie", "b=2")]))
            "Set-Cookie" with
    | Some value =>
        Some (if String.eqb (Str.toLowerCase "Set-Cookie") "set-cookie"
              then List.last
                     (set_cookie_values
                        [("Set-Cookie", "a=1"); ("set-cookie", "b=2")])
                     value
              else value)
    | None =>
        Headers.get
          (Headers.make (Some [("Accept", "text/plain"); ("Set-Cookie", "d=0")]))
          "Set-Cookie"
    end.
Proof.
  apply (client_headers_merge Demo.env_200 (plain_client None)
           [("Accept", "text/plain"); ("Set-Cookie", "d=0")] GET "/"
           (mkFetchOptions "" None
              (Some [("Set-Cookie", "a=1"); ("set-cookie", "b=2")])
              None None None None None None None None None None None None None
              None None None None None)
           "Set-Cookie").
  - reflexivity.
  - reflexivity.
Defined.

Lemma mergedHeaders_plain (options : FetchOptions) :
  (length (set_cookie_values (default [] (opt_headers options))) <= 1)%nat ->
  Headers.make (Some (Client.mergedHeaders [] options))
  = Headers.make (opt_headers options).
Proof.
  intros Hone.
  rewrite Headers_make_normal by apply mergedHeaders_normal.
  unfold Client.mergedHeaders. destruct (opt_headers options) as [init |];
    [| reflexivity].
  simpl in Hone. rewrite (forEach_single init Hone).
  change (Headers.make (Some [])) with (@nil (string * string)).
  apply (Headers_copy Headers.set (Headers.make (Some init)) [] Headers_set_fresh).
  apply headers_normal_make.
Qed.

(** X22: A client without configuration is the engine: when the call gives at
    most one value for [Set-Cookie], a call through the client is the direct
    call with the same options, the method of the verb and the path as URL
    (after the base URL, unless the path starts with [http]). *)
Theorem plain_client_is_CustomFetch (env : Env) (base : option string)
    (method : HttpMethod) (path : string) (options : FetchOptions) (w : World) :
  (length (set_cookie_values (default [] (opt_headers options))) <= 1)%nat ->
  Client.request env (plain_client base) method path options w
  = CustomFetch env
      (with_target options
         (if Str.startsWith path "http" then path else default "" base ++ path)
         method)
      w.
Proof.
  intros Hone.
  unfold Client.request, Client.resolveHeaders, plain_client. cbn [cfg_defaultHeaders ret].
  pose proof (mergedHeaders_plain options Hone) as Hheaders.
  destruct options as [url m hdrs body params token t r rd vs rg eg et rt cr ct ic
                         dbg ac onq onr].
  unfold Client.options_of, with_target, Client.fullUrl, Client.baseUrl,
    Client.defaultTimeout, Client.defaultRetries, Client.defaultRetryDelay,
    Client.debug, or_else.
  cbn [opt_url opt_method opt_headers opt_body opt_params opt_customToken
       opt_timeout opt_retries opt_retryDelay opt_validateStatus opt_responseGuard
       opt_errorGuard opt_errorTransformer opt_responseTransformer
       opt_cacheResponse opt_cacheTime opt_includeCookies opt_debug
       opt_abortController opt_onRequest opt_onResponse
       cfg_baseUrl cfg_defaultTimeout cfg_defaultRetries cfg_defaultRetryDelay
       cfg_debug cfg_onRequest cfg_onResponse] in *.
  unfold CustomFetch, prepare, assemble_context, assemble_headers.
  cbn [opt_headers]. rewrite Hheaders.
  destruct t, r, rd, onq, onr; reflexivity.
Qed.

Lemma plain_client_is_CustomFetch_witness :
  Client.request Demo.env_200 (plain_client (Some "http://a")) GET "/"
    (mkFetchOptions "" None (Some [("Accept", "text/plain"); ("Set-Cookie", "a=1")])
       None None None None None None None None None None None None None None None
       None None None)
    Demo.world0
  = CustomFetch Demo.env_200
      (with_target
         (mkFetchOptions "" None
            (Some [("Accept", "text/plain"); ("Set-Cookie", "a=1")])
            None None None None None None None None None None None None None None
            None None None None)
         (if Str.startsWith "/" "http" then "/" else default "" (Some "http://a") ++ "/")
         GET)
      Demo.world0.
Proof.
  apply (plain_client_is_CustomFetch Demo.env_200 (Some "http://a") GET "/"
           (mkFetchOptions "" None
              (Some [("Accept", "text/plain"); ("Set-Cookie", "a=1")])
              None None None None None None None None None None None None None None
              None None None None)
           Demo.world0).
  simpl. lia.
Defined.

(** X23: An object given to [post], [put] or [patch] travels as its JSON text,
    and the engine then declares it: unless the call or the client names a
    [Content-Type] of its own (the call's first), the request carries
    [application/json]. *)
Theorem client_object_body_is_json (env : Env) (JSON_stringify : JsValue -> string)
    (config : ClientConfig) (resolved : list (string * string))
    (method : HttpMethod) (path : string) (v parsed : JsValue)
    (options : FetchOptions) :
  let built :=
    Client.options_of env config resolved method path
      (with_body options (Client.bodyInit JSON_stringify (ObjectBody v))) in
  JSON_stringify v <> "" ->
  JSON_parse env (JSON_stringify v) = Some parsed ->
  opt_body built = Some (BodyText (JSON_stringify v))
  /\ Headers.get (assemble_headers env built) "Content-Type"
     = Some match Headers.get (Headers.make (opt_headers options)) "Content-Type" with
            | Some declared => declared
            | None =>
                match Headers.get (Headers.make (Some resolved)) "Content-Type" with
                | Some declared => declared
                | None => "application/json"
                end
            end.
Proof.
  intros built Hne Hparse. split; [reflexivity |].
  rewrite content_type_assembled. subst built.
  cbn [Client.options_of opt_headers opt_body with_body Client.bodyInit].
  rewrite Headers_make_normal by apply mergedHeaders_normal.
  rewrite mergedHeaders_get. cbn [with_body opt_headers].
  change (String.eqb (Str.toLowerCase "Content-Type") "set-cookie") with false.
  cbv iota.
  destruct (Headers.get (Headers.make (opt_headers options)) "Content-Type");
    [reflexivity |].
  destruct (Headers.get (Headers.make (Some resolved)) "Content-Type");
    [reflexivity |].
  rewrite Hparse.
  destruct (JSON_stringify v); [now elim Hne | reflexivity].
Qed.

Lemma client_object_body_is_json_witness :
  let built :=
    Client.options_of Braces.env (plain_client (Some "http://a")) [] POST "/items"
      (with_body (Demo.get_options "")
         (Client.bodyInit Braces.JSON_stringify (ObjectBody (VObj [])))) in
  opt_body built = Some (BodyText (Braces.JSON_stringify (VObj [])))
  /\ Headers.get (assemble_headers Braces.env built) "Content-Type"
     = Some match Headers.get (Headers.make (opt_headers (Demo.get_options "")))
                    "Content-Type" with
            | Some declared => declared
            | None =>
                match Headers.get (Headers.make (Some [])) "Content-Type" with
                | Some declared => declared
                | None => "application/json"
                end
            end.
Proof.
  apply (client_object_body_is_json Braces.env Braces.JSON_stringify
           (plain_client (Some "http://a")) [] POST "/items" (VObj []) (VObj [])
           (Demo.get_options "")).
  - discriminate.
  - reflexivity.
Defined.



